(** * pydjimqtt: request correlation, telemetry window, heartbeat and
      connection-health monitor

    A shallow embedding of
      - [pydjimqtt/core/mqtt_client.py]      (class [MQTTClient]),
      - [pydjimqtt/core/service_caller.py]   (class [ServiceCaller]),
      - [pydjimqtt/services/heartbeat.py]    ([heartbeat_loop]),
      - [pydjimqtt/services/connection_manager.py] ([DRCConnectionManager]),
      - [pydjimqtt/services/commands.py]     ([_call_service] and its users),
      - [pydjimqtt/services/drc_commands.py] ([send_stick_control]),
      - [pydjimqtt/primitives/wait.py], [pydjimqtt/utils.py] (polling waits).

    Conventions of the embedding.
      - Decoded JSON payloads are values of [pyval]; Python's dynamic checks
        (truthiness, [.get] on a non-dict, [in] on a non-container, hashing)
        are written out and raise the exception Python raises.
      - Clock readings ([time.time()], [time.perf_counter()]) and the
        arithmetic on them are exact rationals ([Qc]).
      - [self.pending_requests] and the cache dicts are [gmap string _].
        A [Future] is a cell of a heap shared by the pending table and the
        caller, addressed by its handle.
      - Of the paho transport the model keeps whether [self.client] has
        been created: [publish] raises [AttributeError] while it is
        [None]. On a created client paho's [publish] returns (its result
        code is not looked at by the code).
      - [console.print] is modelled where a line carries text of a remote
        message and stands before an effect on the state or on the
        result: in the two error branches of [_on_message] and in
        [_call_service]. What rich makes of such a line (it raises
        [MarkupError] on a closing tag that matches no open one) is a
        parameter, [markup_error]. Method names and transaction ids are
        the caller's own text (in [ServiceCaller.call] a [uuid4] string)
        and are taken to be free of markup, so the lines that carry only
        these print. Other console output and the registered OSD
        callbacks are not part of the model.
      - [except TimeoutError] in [ServiceCaller.call] catches the timeout
        of [Future.result], as it does where
        [concurrent.futures.TimeoutError] is the builtin (Python 3.11 and
        later). *)

From Stdlib Require Import QArith Qcanon Lqa.
From stdpp Require Import numbers strings gmap fin_maps list.

Set Warnings "-register-all".
Local Open Scope string_scope.

(** ** Python values, as [json.loads] produces them *)

Module Py.

Inductive pyfloat : Type :=
  | FFinite (q : Qc)
  | FInf (negative : bool)
  | FNaN.

Inductive pyval : Type :=
  | PNone
  | PBool (b : bool)
  | PInt (z : Z)
  | PFloat (f : pyfloat)
  | PStr (s : string)
  | PList (l : list pyval)
  | PDict (d : list (string * pyval)).

Inductive exn : Type :=
  | AttributeError
  | TypeError
  | InvalidStateError
  | TimeoutError
  | JSONDecodeError
  | MarkupError
  | Exception (msg : pyval).

Definition float_is_zero (f : pyfloat) : bool :=
  match f with
  | FFinite q => bool_decide (q = 0%Qc)
  | _ => false
  end.

(** [bool(v)] *)
Definition truthy (v : pyval) : bool :=
  match v with
  | PNone => false
  | PBool b => b
  | PInt z => negb (Z.eqb z 0)
  | PFloat f => negb (float_is_zero f)
  | PStr s => negb (String.eqb s "")
  | PList l => match l with [] => false | _ => true end
  | PDict d => match d with [] => false | _ => true end
  end.

(** [v != 0] *)
Definition ne_zero (v : pyval) : bool :=
  match v with
  | PInt z => negb (Z.eqb z 0)
  | PBool b => b
  | PFloat f => negb (float_is_zero f)
  | _ => true
  end.

(** [v == s] for a string literal [s] *)
Definition eq_str (v : pyval) (s : string) : bool :=
  match v with
  | PStr s' => String.eqb s' s
  | _ => false
  end.

(** Lookup in a decoded dict: the binding of [k], if any. *)
Fixpoint assoc (k : string) (d : list (string * pyval)) : option pyval :=
  match d with
  | [] => None
  | (k', v) :: d' => if String.eqb k' k then Some v else assoc k d'
  end.

(** [d.get(k)] and [d.get(k, dflt)] on a dict *)
Definition dget (k : string) (d : list (string * pyval)) : pyval :=
  default PNone (assoc k d).
Definition dget_or (k : string) (dflt : pyval) (d : list (string * pyval)) : pyval :=
  default dflt (assoc k d).

(** [v.get(k, dflt)] on an arbitrary value: only a dict has [.get]. *)
Definition get_or (k : string) (dflt : pyval) (v : pyval) : exn + pyval :=
  match v with
  | PDict d => inr (dget_or k dflt d)
  | _ => inl AttributeError
  end.
Definition get (k : string) (v : pyval) : exn + pyval := get_or k PNone v.

(** [k in v] for a string literal [k]: key test on a dict, substring test
    on a str, element test on a list, [TypeError] otherwise. *)
Definition contains (k : string) (v : pyval) : exn + bool :=
  match v with
  | PDict d => inr (bool_decide (is_Some (assoc k d)))
  | PStr s => inr (bool_decide (is_Some (String.index 0 k s)))
  | PList l => inr (existsb (λ x, eq_str x k) l)
  | _ => inl TypeError
  end.

(** [hash(v)] succeeds: lists and dicts are unhashable. *)
Definition hashable (v : pyval) : bool :=
  match v with
  | PList _ | PDict _ => false
  | _ => true
  end.

(** [v in S] for a set [S] of string literals *)
Definition in_str_set (v : pyval) (S : list string) : exn + bool :=
  if hashable v then inr (existsb (eq_str v) S) else inl TypeError.

End Py.
Export Py.

(** Sequencing of computations that may raise. *)
Definition bind_exn {A B : Type} (m : exn + A) (k : A → exn + B) : exn + B :=
  match m with
  | inl e => inl e
  | inr a => k a
  end.
Notation "'do' x ← m ; k" := (bind_exn m (λ x, k))
  (at level 10, x name, m at level 100, k at level 200,
   format "'[v' 'do'  x  ←  m ; '/' k ']'").

(** ** The console *)

Module Rich.

(** A line handed to [console.print]: an f-string, by its literal parts
    and the values formatted into it. *)
Inductive part : Type :=
  | Lit (s : string)
  | Val (v : pyval).

Definition line : Type := list part.

(** rich's markup parser, which is not part of the repository:
    [markup_error l] says that printing [l] raises [MarkupError]. *)
Class console : Type := markup_error : line → bool.

(** [console.print(l)] *)
Definition print `{console} (l : line) : exn + unit :=
  if markup_error l then inl MarkupError else inr ().

(** A console on which every line prints. *)
Definition plain : console := λ _, false.

End Rich.
Export Rich.

(** ** [MQTTClient] *)

Module MQTTClient.

(** A [concurrent.futures.Future]: pending, or finished with a result or
    with an exception. *)
Inductive outcome : Type :=
  | Result (data : pyval)
  | Raised (e : exn).

Inductive future : Type :=
  | Pending
  | Done (o : outcome).

Record client : Type := Client {
  has_client : bool;                    (* [self.client is not None] *)
  pending_requests : gmap string nat;   (* tid ↦ handle of its Future *)
  futures : list future;                (* the Future objects, by handle *)
  osd_data : gmap string pyval;
  drone_state : gmap string pyval;
  topo_data : pyval;
  camera_osd : gmap string pyval;
  takeoff_height : pyval;
  flyto_progress : gmap string pyval;
  _osd_timestamps : list Qc;             (* _osd_timestamps *)
  _last_osd_time : Qc;                   (* _last_osd_time *)
  _freq_window : Qc;                     (* _freq_window *)
}.

Definition with_pending (f : gmap string nat → gmap string nat) (c : client) : client :=
  Client (has_client c) (f (pending_requests c)) (futures c) (osd_data c) (drone_state c)
    (topo_data c) (camera_osd c) (takeoff_height c) (flyto_progress c)
    (_osd_timestamps c) (_last_osd_time c) (_freq_window c).
Definition with_futures (f : list future → list future) (c : client) : client :=
  Client (has_client c) (pending_requests c) (f (futures c)) (osd_data c) (drone_state c)
    (topo_data c) (camera_osd c) (takeoff_height c) (flyto_progress c)
    (_osd_timestamps c) (_last_osd_time c) (_freq_window c).
Definition with_osd_data (f : gmap string pyval → gmap string pyval) (c : client) : client :=
  Client (has_client c) (pending_requests c) (futures c) (f (osd_data c)) (drone_state c)
    (topo_data c) (camera_osd c) (takeoff_height c) (flyto_progress c)
    (_osd_timestamps c) (_last_osd_time c) (_freq_window c).
Definition with_drone_state (f : gmap string pyval → gmap string pyval) (c : client) : client :=
  Client (has_client c) (pending_requests c) (futures c) (osd_data c) (f (drone_state c))
    (topo_data c) (camera_osd c) (takeoff_height c) (flyto_progress c)
    (_osd_timestamps c) (_last_osd_time c) (_freq_window c).
Definition with_topo_data (v : pyval) (c : client) : client :=
  Client (has_client c) (pending_requests c) (futures c) (osd_data c) (drone_state c)
    v (camera_osd c) (takeoff_height c) (flyto_progress c)
    (_osd_timestamps c) (_last_osd_time c) (_freq_window c).
Definition with_camera_osd (f : gmap string pyval → gmap string pyval) (c : client) : client :=
  Client (has_client c) (pending_requests c) (futures c) (osd_data c) (drone_state c)
    (topo_data c) (f (camera_osd c)) (takeoff_height c) (flyto_progress c)
    (_osd_timestamps c) (_last_osd_time c) (_freq_window c).
Definition with_takeoff_height (v : pyval) (c : client) : client :=
  Client (has_client c) (pending_requests c) (futures c) (osd_data c) (drone_state c)
    (topo_data c) (camera_osd c) v (flyto_progress c)
    (_osd_timestamps c) (_last_osd_time c) (_freq_window c).
Definition with_flyto_progress (f : gmap string pyval → gmap string pyval) (c : client) : client :=
  Client (has_client c) (pending_requests c) (futures c) (osd_data c) (drone_state c)
    (topo_data c) (camera_osd c) (takeoff_height c) (f (flyto_progress c))
    (_osd_timestamps c) (_last_osd_time c) (_freq_window c).
Definition with_osd_clock (ts : list Qc) (last : Qc) (c : client) : client :=
  Client (has_client c) (pending_requests c) (futures c) (osd_data c) (drone_state c)
    (topo_data c) (camera_osd c) (takeoff_height c) (flyto_progress c)
    ts last (_freq_window c).
Definition with_client (b : bool) (c : client) : client :=
  Client b (pending_requests c) (futures c) (osd_data c) (drone_state c)
    (topo_data c) (camera_osd c) (takeoff_height c) (flyto_progress c)
    (_osd_timestamps c) (_last_osd_time c) (_freq_window c).

Definition none_dict (keys : list string) : gmap string pyval :=
  list_to_map ((λ k, (k, PNone)) <$> keys).

(** [__init__] *)
Definition init : client := {|
  has_client := false;
  pending_requests := ∅;
  futures := [];
  osd_data := none_dict
    ["latitude"; "longitude"; "height"; "attitude_head"; "horizontal_speed";
     "speed_x"; "speed_y"; "speed_z"; "down_distance"; "down_enable";
     "down_work"; "battery_percent"];
  drone_state := none_dict
    ["mode_code"; "rth_altitude"; "distance_limit"; "height_limit";
     "is_in_fixed_speed"; "night_lights_state"];
  topo_data := PNone;
  camera_osd := none_dict
    ["payload_index"; "gimbal_pitch"; "gimbal_roll"; "gimbal_yaw"];
  takeoff_height := PNone;
  flyto_progress := none_dict
    ["fly_to_id"; "status"; "result"; "way_point_index";
     "remaining_distance"; "remaining_time"; "planned_path_points"];
  _osd_timestamps := [];
  _last_osd_time := 0%Qc;
  _freq_window := 2%Qc;
|}.

(** [connect]: [self.client] is created first; the connection attempt and
    the subscriptions that follow may raise and leave it in place. *)
Definition connect (c : client) : client := with_client true c.

(** [cleanup_request]: [self.pending_requests.pop(tid, None)] *)
Definition cleanup_request (tid : string) (c : client) : client :=
  with_pending (delete tid) c.

(** [publish]: a fresh [Future] is stored under [tid] (replacing whatever
    was stored there); then the message is handed to [self.client], which
    raises [AttributeError] while there is none, the entry staying
    behind; otherwise the future is returned to the caller. *)
Definition publish (method : string) (data : pyval) (tid : string)
    (c : client) : (exn + nat) * client :=
  let fut := length (futures c) in
  let c := with_pending (insert tid fut)
             (with_futures (λ h, (h ++ [Pending])%list) c) in
  if has_client c then (inr fut, c) else (inl AttributeError, c).

(** [Future.set_result] / [Future.set_exception]: only a pending future
    can be completed. *)
Definition complete (fut : nat) (o : outcome) (h : list future) : exn + list future :=
  match h !! fut with
  | Some Pending => inr (<[fut := Done o]> h)
  | _ => inl InvalidStateError
  end.

(** The list kept by [while ts and (now - ts[0]) > window: ts.pop(0)]. *)
Fixpoint evict (now window : Qc) (ts : list Qc) : list Qc :=
  match ts with
  | [] => []
  | t :: rest =>
      if decide (window < now - t)%Qc then evict now window rest else ts
  end.

Definition is_none (v : pyval) : bool :=
  match v with PNone => true | _ => false end.

(** Copy the fields [keys] of [d] into the cache dict [m], as the
    assignments [m[k] = d.get(k)] do. *)
Definition store_fields (keys : list string) (d : list (string * pyval))
    (m : gmap string pyval) : gmap string pyval :=
  foldl (λ acc k, <[k := dget k d]> acc) m keys.

(** *** [_on_message]: telemetry branches *)

(** [osd_info_push]. The first [data.get] raises on a non-dict, before
    anything is stored. *)
Definition on_osd (now : Qc) (data : pyval) (c : client) : client :=
  match data with
  | PDict d =>
      let height := dget "height" d in
      let c := with_osd_data (store_fields ["latitude"; "longitude"; "height"] d) c in
      let c := if negb (is_none height) && is_none (takeoff_height c)
               then with_takeoff_height height c else c in
      let c := with_osd_data
                 (store_fields ["attitude_head"; "horizontal_speed";
                                "speed_x"; "speed_y"; "speed_z"] d) c in
      with_osd_clock (evict now (_freq_window c) (_osd_timestamps c ++ [now])%list) now c
  | _ => c
  end.

(** [hsi_info_push] *)
Definition on_hsi (data : pyval) (c : client) : client :=
  match data with
  | PDict d =>
      with_osd_data (store_fields ["down_distance"; "down_enable"; "down_work"] d) c
  | _ => c
  end.

(** [drc_batteries_info_push] *)
Definition on_batteries (data : pyval) (c : client) : client :=
  match data with
  | PDict d => with_osd_data (insert "battery_percent" (dget "capacity_percent" d)) c
  | _ => c
  end.

(** [drc_drone_state_push]. [limit.get] is reached after [mode_code] and
    [rth_altitude] are stored; on a non-dict [limit] it raises there. *)
Definition on_drone_state (data : pyval) (c : client) : client :=
  match data with
  | PDict d =>
      let limit := dget_or "limit" (PDict []) d in
      let c := with_drone_state (store_fields ["mode_code"; "rth_altitude"] d) c in
      match limit with
      | PDict l =>
          let c := with_drone_state (store_fields ["distance_limit"; "height_limit"] l) c in
          with_drone_state (store_fields ["is_in_fixed_speed"; "night_lights_state"] d) c
      | _ => c
      end
  | _ => c
  end.

(** [update_topo]: the [data] object is kept whole. *)
Definition on_topo (data : pyval) (c : client) : client :=
  with_topo_data data c.

(** [drc_camera_osd_info_push] *)
Definition on_camera_osd (data : pyval) (c : client) : client :=
  match data with
  | PDict d =>
      with_camera_osd
        (store_fields ["payload_index"; "gimbal_pitch"; "gimbal_roll"; "gimbal_yaw"] d) c
  | _ => c
  end.

(** [fly_to_point_progress] *)
Definition on_flyto (data : pyval) (c : client) : client :=
  match data with
  | PDict d =>
      with_flyto_progress
        (store_fields ["fly_to_id"; "status"; "result"; "way_point_index";
                       "remaining_distance"; "remaining_time";
                       "planned_path_points"] d) c
  | _ => c
  end.

(** *** [_on_message]: service replies *)

(** [info and info.get('code') != 0] *)
Definition envelope_failed (info : pyval) : exn + bool :=
  if truthy info then do code ← get "code" info; inr (ne_zero code)
  else inr false.

(** ['result' in data and data.get('result') != 0] *)
Definition body_failed (data : pyval) : exn + bool :=
  do has ← contains "result" data;
  if (has : bool) then do r ← get "result" data; inr (ne_zero r)
  else inr false.

Definition unknown_error : pyval := PStr "Unknown error".

(** The line both error branches print before they fail the future. *)
Definition error_line (error_msg : pyval) : line :=
  [Lit "[red]✗[/red] 错误: "; Val error_msg].

Section Replies.
Context {con : console}.

(** What the reply [payload] completes the future with (the [if future:]
    block), or the exception that escapes to the handler's [except]: each
    error branch prints the carried message before it fails the future.
    The line of the last branch carries the transaction id only. *)
Definition verdict (payload : list (string * pyval)) : exn + outcome :=
  let info := dget_or "info" (PDict []) payload in
  let data := dget_or "data" (PDict []) payload in
  do bad ← envelope_failed info;
  if (bad : bool) then
    do error_msg ← get_or "message" unknown_error info;
    do _ ← print (error_line error_msg);
    inr (Raised (Exception error_msg))
  else
    do bad ← body_failed data;
    if (bad : bool) then
      do output ← get_or "output" (PDict []) data;
      do error_msg ← get_or "msg" unknown_error output;
      do _ ← print (error_line error_msg);
      inr (Raised (Exception error_msg))
    else inr (Result data).

(** The reply path, from [tid = payload.get('tid')] on. The entry is
    popped before the payload is inspected, so it stays removed when the
    inspection raises. *)
Definition on_reply (payload : list (string * pyval)) (c : client) : client :=
  let tid := dget "tid" payload in
  if negb (truthy tid) then c
  else match tid with
  | PStr t =>
      match pending_requests c !! t with
      | None => c
      | Some fut =>
          let c := with_pending (delete t) c in
          match do o ← verdict payload; complete fut o (futures c) with
          | inr h => with_futures (λ _, h) c
          | inl _ => c
          end
      end
  | PList _ | PDict _ => c      (* unhashable key: [pop] raises TypeError *)
  | _ => c                      (* no key of the table equals a non-str *)
  end.

(** [_on_message]. [raw] is the outcome of
    [json.loads(msg.payload.decode())], [now] the clock reading taken in
    the OSD branch. Every exception is swallowed by the handler. *)
Definition _on_message (now : Qc) (raw : exn + pyval) (c : client) : client :=
  match raw with
  | inl _ => c
  | inr (PDict payload) =>
      let method := dget "method" payload in
      let data := dget_or "data" (PDict []) payload in
      if eq_str method "osd_info_push" then on_osd now data c
      else if eq_str method "hsi_info_push" then on_hsi data c
      else if eq_str method "drc_batteries_info_push" then on_batteries data c
      else if eq_str method "drc_drone_state_push" then on_drone_state data c
      else if eq_str method "update_topo" then on_topo data c
      else if eq_str method "drc_camera_osd_info_push" then on_camera_osd data c
      else if eq_str method "fly_to_point_progress" then on_flyto data c
      else on_reply payload c
  | inr _ => c                  (* [payload.get] raises AttributeError *)
  end.

(** An inbound message: the clock reading at its dispatch and the outcome
    of decoding it. The transport dispatches them one at a time. *)
Definition inbound : Type := Qc * (exn + pyval).

Definition dispatch (msgs : list inbound) (c : client) : client :=
  foldl (λ c m, _on_message m.1 m.2 c) c msgs.

End Replies.

(** *** Frequency window and online check *)

(** [get_osd_frequency] *)
Definition get_osd_frequency (c : client) : Qc :=
  let ts := _osd_timestamps c in
  if decide (length ts < 2)%nat then 0%Qc
  else
    let time_span := (default 0 (last ts) - default 0 (head ts))%Qc in
    if decide (time_span = 0%Qc) then 0%Qc
    else (Qc_of_Z (Z.of_nat (length ts) - 1) / time_span)%Qc.

(** [is_online]; [now] is the reading of [time.time()]. *)
Definition is_online (now timeout : Qc) (c : client) : bool :=
  if decide (_last_osd_time c = 0%Qc) then false
  else bool_decide (now - _last_osd_time c < timeout)%Qc.

(** *** Fly-to progress *)

(** [get_flyto_progress]: a copy of the cached record. *)
Definition get_flyto_progress (c : client) : gmap string pyval :=
  flyto_progress c.

(** [progress.get(k)] on the copied record *)
Definition field (k : string) (progress : gmap string pyval) : pyval :=
  default PNone (progress !! k).

Definition terminal_statuses : list string :=
  ["wayline_ok"; "wayline_failed"; "wayline_cancel"].

(** [wait_for_flyto_event]. [start_time] is the first clock reading;
    [reads] lists, for each turn of the [while True] loop, the clock
    reading and the record [get_flyto_progress] returned in that turn.
    [None]: the loop is still polling when [reads] ends. *)
Fixpoint wait_for_flyto_event (expected_fly_to_id : string)
    (timeout start_time : Qc) (reads : list (Qc * gmap string pyval))
    : option (exn + gmap string pyval) :=
  match reads with
  | [] => None
  | (now, progress) :: later =>
      let elapsed := (now - start_time)%Qc in
      if decide (timeout < elapsed)%Qc then Some (inl TimeoutError)
      else if eq_str (field "fly_to_id" progress) expected_fly_to_id then
        match in_str_set (field "status" progress) terminal_statuses with
        | inl e => Some (inl e)
        | inr true => Some (inr progress)
        | inr false => wait_for_flyto_event expected_fly_to_id timeout start_time later
        end
      else wait_for_flyto_event expected_fly_to_id timeout start_time later
  end.

Section Observing.
Context {con : console}.

(** The reads a waiting caller makes while the dispatcher runs: before the
    read at clock [now], the messages [msgs] are dispatched. *)
Fixpoint observe (turns : list (Qc * list inbound)) (c : client)
    : list (Qc * gmap string pyval) :=
  match turns with
  | [] => []
  | (now, msgs) :: later =>
      let c := dispatch msgs c in
      (now, get_flyto_progress c) :: observe later c
  end.

End Observing.

End MQTTClient.

(** ** [ServiceCaller] *)

Module ServiceCaller.
Import MQTTClient.

Section Calls.
Context {con : console}.

(** [future.result(timeout=...)]: the future is completed by the
    dispatcher thread; [during] are the messages it dispatches before the
    deadline. [None]: the deadline passes with the future still pending. *)
Fixpoint await (fut : nat) (during : list inbound) (c : client)
    : option outcome * client :=
  match futures c !! fut with
  | Some (Done o) => (Some o, c)
  | _ =>
      match during with
      | [] => (None, c)
      | m :: later => await fut later (_on_message m.1 m.2 c)
      end
  end.

(** [call]. [tid] is the value drawn by [str(uuid.uuid4())]. [publish]
    stands before the [try]: what it raises leaves [call] with nothing
    cleaned up. The handler [except TimeoutError] catches the timeout of
    [future.result] (as it does where [concurrent.futures.TimeoutError]
    is the builtin one). *)
Definition call (method : string) (data : pyval) (tid : string)
    (during : list inbound) (c : client) : (exn + pyval) * client :=
  let '(published, c) :=
    publish method (if truthy data then data else PDict []) tid c in
  match published with
  | inl e => (inl e, c)
  | inr future =>
      match await future during c with
      | (Some (Result result), c) => (inr result, c)
      | (Some (Raised TimeoutError), c) | (None, c) =>
          (inl TimeoutError, cleanup_request tid c)
      | (Some (Raised e), c) => (inl e, c)
      end
  end.

End Calls.

End ServiceCaller.

(** ** [heartbeat_loop] *)

Module Heartbeat.

Record lease : Type := Lease {
  next_tick : Qc;
  seq : Z;
}.

Inductive action : Type :=
  | Sleep (duration : Qc)      (* [time.sleep(...)]; continue *)
  | Beat (seq : Z).            (* a heart_beat message is published *)

(** [min(a, b)] *)
Definition py_min (a b : Qc) : Qc := if decide (b < a)%Qc then b else a.

(** One turn of [while not stop_flag.is_set()], [now] being the reading of
    [time.perf_counter()] at its top. *)
Definition turn (interval now : Qc) (s : lease) : action * lease :=
  if decide (now < next_tick s)%Qc then
    (Sleep (py_min interval (next_tick s - now)%Qc), s)
  else
    let seq := (seq s + 1)%Z in
    let next_tick := (next_tick s + interval)%Qc in
    let next_tick :=
      if decide (next_tick < now)%Qc then (now + interval)%Qc else next_tick in
    (Beat seq, Lease next_tick seq).

(** What one turn did: the clock reading, the deadline before and after
    the turn, and the action taken. *)
Record entry : Type := Entry {
  at_clock : Qc;
  deadline : Qc;
  act : action;
  deadline_after : Qc;
}.

(** The turns taken at the readings [clock], until the stop flag is seen
    set. *)
Fixpoint turns (interval : Qc) (clock : list Qc) (s : lease) : list entry * lease :=
  match clock with
  | [] => ([], s)
  | now :: later =>
      let '(a, s') := turn interval now s in
      let '(log, s'') := turns interval later s' in
      (Entry now (next_tick s) a (next_tick s') :: log, s'')
  end.

(** [heartbeat_loop]: [t0] is the reading that initialises [next_tick],
    [seq0] the initial sequence number [int(time.time() * 1000)]. *)
Definition heartbeat_loop (interval t0 : Qc) (seq0 : Z) (clock : list Qc)
    : list entry * lease :=
  turns interval clock (Lease t0 seq0).

(** [time.perf_counter()] never goes backwards. *)
Fixpoint monotone (t : Qc) (clock : list Qc) : Prop :=
  match clock with
  | [] => True
  | t' :: later => (t ≤ t')%Qc ∧ monotone t' later
  end.

(** Each turn sees the deadline the turn before it left, the first one
    [deadline0]. *)
Fixpoint chained (deadline0 : Qc) (log : list entry) : Prop :=
  match log with
  | [] => True
  | e :: later => deadline e = deadline0 ∧ chained (deadline_after e) later
  end.

(** A turn keeps the schedule: a sleeping turn sleeps exactly the time
    left to the deadline and leaves the deadline alone; a beating turn
    moves the deadline one [interval] past the previous deadline, unless
    the clock is more than one [interval] past it, and then one
    [interval] past the clock. *)
Definition on_schedule (interval : Qc) (e : entry) : Prop :=
  match act e with
  | Sleep duration =>
      (at_clock e < deadline e)%Qc ∧
      duration = (deadline e - at_clock e)%Qc ∧
      deadline_after e = deadline e
  | Beat _ =>
      (deadline e ≤ at_clock e)%Qc ∧
      deadline_after e =
        if decide (interval < at_clock e - deadline e)%Qc
        then (at_clock e + interval)%Qc
        else (deadline e + interval)%Qc
  end.

End Heartbeat.

(** ** [DRCConnectionManager] *)

Module DRCConnectionManager.

Inductive ConnectionState : Type := ONLINE | RECONNECTING | OFFLINE.

Global Instance ConnectionState_eq_dec : EqDecision ConnectionState.
Proof. solve_decision. Defined.

(** What the monitor thread does that others can see. *)
Inductive action : Type :=
  | Changed (old new : ConnectionState)   (* [_set_state] changed the state *)
  | Attempt (attempt : Z) (ok : bool).    (* one call of [_reconnect_drc] *)

Record manager : Type := Manager {
  state : ConnectionState;
  stop_flag : bool;               (* [threading.Event]: set, never cleared *)
  reconnect_attempts : Z;
  log : list action;              (* oldest first *)
}.

(** The surroundings of the monitor thread, by turn of the outer loop and
    check point inside the turn (0: top of the turn; k ≥ 1: attempt k).
      - [stop_called]: [stop()] has been called by then;
      - [telemetry]: what [mqtt.is_online(offline_timeout)] answers then
        (the loop asks at check point 0 only);
      - [request_control_auth], [enter_drc_mode]: whether that service
        call, made at that attempt, returns rather than raises. *)
Record world : Type := World {
  stop_called : nat → Z → bool;
  telemetry : nat → Z → bool;
  request_control_auth : nat → Z → bool;
  enter_drc_mode : nat → Z → bool;
}.

(** [_reconnect_drc]: [True] when both service calls return (the
    heartbeat is then restarted), [False] when either raises. *)
Definition _reconnect_drc (w : world) (i : nat) (k : Z) : bool :=
  request_control_auth w i k && enter_drc_mode w i k.

Definition initial (attempts : Z) : manager := Manager ONLINE false attempts [].

(** [_set_state] *)
Definition _set_state (new_state : ConnectionState) (m : manager) : manager :=
  if decide (state m = new_state) then m
  else Manager new_state (stop_flag m) (reconnect_attempts m)
         (log m ++ [Changed (state m) new_state])%list.

Definition record (a : action) (m : manager) : manager :=
  Manager (state m) (stop_flag m) (reconnect_attempts m) (log m ++ [a])%list.

(** [stop_flag.is_set()] at a check point: the flag latches. *)
Definition check_stop (w : world) (i : nat) (k : Z) (m : manager) : manager :=
  Manager (state m) (stop_flag m || stop_called w i k) (reconnect_attempts m) (log m).

(** [for attempt in range(1, reconnect_attempts + 1): ... else: ...] over
    the attempts still to run. *)
Fixpoint retry (w : world) (i : nat) (attempts : list Z) (m : manager) : manager :=
  match attempts with
  | [] => _set_state OFFLINE m                     (* the [else] of the [for] *)
  | attempt :: later =>
      let m := check_stop w i attempt m in
      if stop_flag m then m                        (* break *)
      else
        let ok := _reconnect_drc w i attempt in
        let m := record (Attempt attempt ok) m in
        if ok then _set_state ONLINE m              (* break *)
        else retry w i later m
  end.

(** The body of the outer [while], turn [i]. *)
Definition poll (w : world) (i : nat) (m : manager) : manager :=
  if negb (telemetry w i 0) then
    if decide (state m = ONLINE) then
      retry w i (seqZ 1 (reconnect_attempts m)) (_set_state RECONNECTING m)
    else m
  else
    if decide (state m = RECONNECTING) then _set_state ONLINE m
    else m.

(** [_monitor_loop], for at most [turns] turns of the outer loop starting
    at turn [i]. *)
Fixpoint _monitor_loop (w : world) (turns : nat) (i : nat) (m : manager) : manager :=
  match turns with
  | O => m
  | S turns =>
      let m := check_stop w i 0 m in
      if stop_flag m then m
      else _monitor_loop w turns (S i) (poll w i m)
  end.

(** The transitions of the connection-health state machine. *)
Inductive allowed : ConnectionState → ConnectionState → Prop :=
  | staleness_detected : allowed ONLINE RECONNECTING
  | reentry_succeeded : allowed RECONNECTING ONLINE
  | budget_exhausted : allowed RECONNECTING OFFLINE.

Definition allowed_action (a : action) : Prop :=
  match a with
  | Changed old new => allowed old new
  | Attempt _ _ => True
  end.

(** The state a log leads to from [s], if each change starts from the
    state the previous ones led to. *)
Fixpoint replay (s : ConnectionState) (l : list action) : option ConnectionState :=
  match l with
  | [] => Some s
  | Changed old new :: l => if decide (old = s) then replay new l else None
  | Attempt _ _ :: l => replay s l
  end.

(** Every return to ONLINE in the log comes right after a successful
    re-entry attempt; [prev] is the action before the log. *)
Fixpoint recoveries_earned (prev : option action) (l : list action) : Prop :=
  match l with
  | [] => True
  | a :: l =>
      (a = Changed RECONNECTING ONLINE → ∃ k, prev = Some (Attempt k true)) ∧
      recoveries_earned (Some a) l
  end.

(** The action just before the end of the log [l] that follows [prev]. *)
Definition last_action (prev : option action) (l : list action) : option action :=
  match last l with
  | Some a => Some a
  | None => prev
  end.

(** The log is a history of allowed transitions that ends in the current
    state. *)
Definition history_ok (m : manager) : Prop :=
  Forall allowed_action (log m) ∧ replay ONLINE (log m) = Some (state m).

Definition earned_ok (m : manager) : Prop := recoveries_earned None (log m).

(** A world in which nobody calls [stop()], telemetry is silent at the
    first poll and back from the first attempt on, and every re-entry
    attempt fails. *)
Definition telemetry_resumes : world := {|
  stop_called := λ _ _, false;
  telemetry := λ i k, negb (Nat.eqb i 0 && Z.eqb k 0);
  request_control_auth := λ _ _, false;
  enter_drc_mode := λ _ _, false;
|}.

End DRCConnectionManager.

(** ** Executions of one client *)

Module Session.
Import MQTTClient.

(** What happens to a client, in the order the lock serialises it. *)
Inductive event : Type :=
  | Connect                                                 (* [connect] *)
  | Issue (method : string) (data : pyval) (tid : string)   (* [publish] *)
  | Deliver (m : inbound)                                   (* [_on_message] *)
  | Cleanup (tid : string).                                 (* [cleanup_request] *)

Section Executions.
Context {con : console}.

Definition step (c : client) (e : event) : client :=
  match e with
  | Connect => connect c
  | Issue method data tid => (publish method data tid c).2
  | Deliver m => _on_message m.1 m.2 c
  | Cleanup tid => cleanup_request tid c
  end.

Definition run (es : list event) : client := foldl step init es.

Definition reachable (c : client) : Prop := ∃ es, c = run es.

End Executions.

(** The pending table pairs transaction ids with futures one to one, and
    every future in it is still pending. *)
Record table_ok (c : client) : Prop := TableOk {
  entry_pending : ∀ t f,
    pending_requests c !! t = Some f → futures c !! f = Some Pending;
  entry_unique : ∀ t1 t2 f,
    pending_requests c !! t1 = Some f → pending_requests c !! t2 = Some f →
    t1 = t2;
}.

Definition telemetry_methods : list string :=
  ["osd_info_push"; "hsi_info_push"; "drc_batteries_info_push";
   "drc_drone_state_push"; "update_topo"; "drc_camera_osd_info_push";
   "fly_to_point_progress"].

(** [m] is a service reply that carries the transaction id [tid]. *)
Definition is_reply_for (tid : string) (m : inbound) : bool :=
  match m.2 with
  | inr (PDict payload) =>
      negb (existsb (eq_str (dget "method" payload)) telemetry_methods)
      && eq_str (dget "tid" payload) tid
  | _ => false
  end.

(** What a reply says, by each of its two encodings.
    [envelope_error]: [info] is an object with fields whose [code] is not
    [0]; [message] is the text it carries. [envelope_silent]: there is no
    [info], or an empty one, or one whose [code] is [0]. *)
Definition envelope_error (payload : list (string * pyval)) (message : pyval) : Prop :=
  ∃ i, assoc "info" payload = Some (PDict i) ∧ i ≠ [] ∧
       ne_zero (dget "code" i) = true ∧
       message = dget_or "message" unknown_error i.

Definition envelope_silent (payload : list (string * pyval)) : Prop :=
  assoc "info" payload = None ∨
  (∃ v, assoc "info" payload = Some v ∧ truthy v = false) ∨
  (∃ i, assoc "info" payload = Some (PDict i) ∧ ne_zero (dget "code" i) = false).

(** [body_error]: [data] is an object with a [result] that is not [0];
    [message] is its [output.msg]. [body_silent]: [data] names no
    [result], or one that is [0]. *)
Definition body_error (payload : list (string * pyval)) (message : pyval) : Prop :=
  ∃ d r o, assoc "data" payload = Some (PDict d) ∧
           assoc "result" d = Some r ∧ ne_zero r = true ∧
           dget_or "output" (PDict []) d = PDict o ∧
           message = dget_or "msg" unknown_error o.

Definition body_silent (payload : list (string * pyval)) : Prop :=
  contains "result" (dget_or "data" (PDict []) payload) = inr false ∨
  ∃ d r, assoc "data" payload = Some (PDict d) ∧
         assoc "result" d = Some r ∧ ne_zero r = false.

(** The cached progress record [progress] carries the task id [expected]. *)
Definition matches_id (expected : string) (progress : gmap string pyval) : bool :=
  eq_str (field "fly_to_id" progress) expected.

(** Its status is one of the terminal ones. *)
Definition is_terminal (progress : gmap string pyval) : bool :=
  existsb (eq_str (field "status" progress)) terminal_statuses.

(** [m] is an OSD push that the handler accepts. *)
Definition is_osd_push (m : inbound) : bool :=
  match m.2 with
  | inr (PDict payload) =>
      eq_str (dget "method" payload) "osd_info_push"
      && match dget_or "data" (PDict []) payload with PDict _ => true | _ => false end
  | _ => false
  end.

(** [c'] has the pending table and the futures of [c]. *)
Definition same_table (c' c : client) : Prop :=
  pending_requests c' = pending_requests c ∧ futures c' = futures c.

(** An OSD push carrying [data], and the pushes arriving at the clock
    readings [ts]. *)
Definition osd_push (data : pyval) : pyval :=
  PDict [("method", PStr "osd_info_push"); ("data", data)].

Definition pushes (ts : list Qc) : list inbound :=
  (λ t, (t, inr (osd_push (PDict [])))) <$> ts.

(** [N] timestamps spread evenly over [D] seconds from [t0]: the first at
    [t0], the last at [t0 + D]. *)
Definition uniform (N : nat) (t0 D : Qc) : list Qc :=
  (λ i : nat, t0 + Qc_of_Z (Z.of_nat i) * (D / Qc_of_Z (Z.of_nat N - 1)))%Qc
    <$> seq 0 N.

(** [x] is within one percent of [target]. *)
Definition within_1_percent (x target : Qc) : Prop :=
  (Qc_of_Z 100 * (x - target) ≤ target)%Qc ∧
  (Qc_of_Z 100 * (target - x) ≤ target)%Qc.

End Session.

(** ** Concrete sessions *)

Module Scenarios.
Import MQTTClient Session.

Section Sessions.
Context {con : console}.

(** A client after [connect()]. *)
Definition connected : client := run [Connect].

(** One request, ["ping"], issued on it under the transaction id
    ["t-1"]. *)
Definition ping_pending : client := run [Connect; Issue "ping" (PDict []) "t-1"].

(** A reply to it in which both error encodings are present. *)
Definition reply_both_errors : list (string * pyval) :=
  [("tid", PStr "t-1");
   ("info", PDict [("code", PInt 5); ("message", PStr "rejected")]);
   ("data", PDict [("result", PInt 1);
                   ("output", PDict [("msg", PStr "body says no")])])].

(** One in which only the body signals an error. *)
Definition reply_body_error : list (string * pyval) :=
  [("tid", PStr "t-1");
   ("info", PDict [("code", PInt 0)]);
   ("data", PDict [("result", PInt 1);
                   ("output", PDict [("msg", PStr "body says no")])])].

Definition reply_ok : list (string * pyval) :=
  [("tid", PStr "t-1"); ("data", PDict [("result", PInt 0)])].

Definition hsi_push : inbound :=
  (1%Qc, inr (PDict [("method", PStr "hsi_info_push"); ("data", PDict [])])).

Definition flyto_event (fly_to_id status : string) : inbound :=
  (0%Qc, inr (PDict [("method", PStr "fly_to_point_progress");
                     ("data", PDict [("fly_to_id", PStr fly_to_id);
                                     ("status", PStr status)])])).

(** A progress event for [fly_to_id] whose status is an empty array, and
    the record the cache holds after it. *)
Definition flyto_event_array_status (fly_to_id : string) : inbound :=
  (0%Qc, inr (PDict [("method", PStr "fly_to_point_progress");
                     ("data", PDict [("fly_to_id", PStr fly_to_id);
                                     ("status", PList [])])])).

Definition progress_array_status (fly_to_id : string) : gmap string pyval :=
  get_flyto_progress (dispatch [flyto_event_array_status fly_to_id] init).

(** The cached record after one progress event. *)
Definition progress_of (fly_to_id status : string) : gmap string pyval :=
  get_flyto_progress (dispatch [flyto_event fly_to_id status] init).

(** A caller waiting for task X reads a terminal record of the superseded
    task W, then X's own terminal record. *)
Definition stale_then_own : list (Qc * gmap string pyval) :=
  observe [(1%Qc, [flyto_event "W" "wayline_ok"]);
           (2%Qc, [flyto_event "X" "wayline_failed"])] init.

(** The same caller when X's record never comes. *)
Definition stale_only : list (Qc * gmap string pyval) :=
  observe [(1%Qc, [flyto_event "W" "wayline_ok"]); (Qc_of_Z 3, [])] init.

End Sessions.

(** A console on which printing fails on every line that carries the
    text [bad]: one value of the parameter, for the examples. *)
Definition rejecting (bad : string) : console :=
  λ l, existsb (λ p, match p with
                     | Val v => eq_str v bad
                     | Lit _ => false
                     end) l.

End Scenarios.

(** * The rest of the client and its users *)

(** ** More of Python: exceptions and operations used below *)

Module PyMore.

(** The exceptions the code below can raise besides those of [exn]. *)
Inductive error : Type :=
  | Raise (e : exn)
  | KeyError
  | ValueError (what : string)
  | RuntimeError.

Definition lift {A : Type} (r : exn + A) : error + A :=
  match r with
  | inl e => inl (Raise e)
  | inr a => inr a
  end.

(** [len(v)] *)
Definition len (v : pyval) : exn + nat :=
  match v with
  | PStr s => inr (String.length s)
  | PList l => inr (length l)
  | PDict d => inr (length d)
  | _ => inl TypeError
  end.

(** [v is True] *)
Definition is_True (v : pyval) : bool :=
  match v with
  | PBool true => true
  | _ => false
  end.

(** [v] is a JSON object. *)
Definition is_dict (v : pyval) : bool :=
  match v with
  | PDict _ => true
  | _ => false
  end.

(** [v == 0] *)
Definition eq_zero (v : pyval) : bool := negb (ne_zero v).

End PyMore.
Export PyMore.

(** ** [MQTTClient]: the accessors *)

Module Accessors.
Import MQTTClient.

(** [d[k]] on a cache dict; [None] stands for [KeyError]. *)
Definition item (k : string) (d : gmap string pyval) : option pyval := d !! k.

Definition get_latitude (c : client) : option pyval := item "latitude" (osd_data c).
Definition get_longitude (c : client) : option pyval := item "longitude" (osd_data c).
Definition get_height (c : client) : option pyval := item "height" (osd_data c).
Definition get_attitude_head (c : client) : option pyval :=
  item "attitude_head" (osd_data c).
Definition get_battery_percent (c : client) : option pyval :=
  item "battery_percent" (osd_data c).
Definition get_local_height (c : client) : option pyval :=
  item "down_distance" (osd_data c).

(** [get_speed]: (horizontal, x, y, z) *)
Definition get_speed (c : client) : option (pyval * pyval * pyval * pyval) :=
  h ← item "horizontal_speed" (osd_data c);
  x ← item "speed_x" (osd_data c);
  y ← item "speed_y" (osd_data c);
  z ← item "speed_z" (osd_data c);
  Some (h, x, y, z).

(** [get_position]: (latitude, longitude, height) *)
Definition get_position (c : client) : option (pyval * pyval * pyval) :=
  lat ← item "latitude" (osd_data c);
  lon ← item "longitude" (osd_data c);
  h ← item "height" (osd_data c);
  Some (lat, lon, h).

(** [is_local_height_ok]: [down_enable is True and down_work is True];
    the right operand is read only when the left one holds. *)
Definition is_local_height_ok (c : client) : option bool :=
  enable ← item "down_enable" (osd_data c);
  if is_True enable then
    work ← item "down_work" (osd_data c);
    Some (is_True work)
  else Some false.

Definition get_flight_mode (c : client) : option pyval :=
  item "mode_code" (drone_state c).

(** [get_drone_state], [get_camera_osd_data]: copies of the dicts *)
Definition get_drone_state (c : client) : gmap string pyval := drone_state c.
Definition get_camera_osd_data (c : client) : gmap string pyval := camera_osd c.

Definition get_payload_index (c : client) : option pyval :=
  item "payload_index" (camera_osd c).

(** [get_gimbal_attitude]: (pitch, roll, yaw) *)
Definition get_gimbal_attitude (c : client) : option (pyval * pyval * pyval) :=
  p ← item "gimbal_pitch" (camera_osd c);
  r ← item "gimbal_roll" (camera_osd c);
  y ← item "gimbal_yaw" (camera_osd c);
  Some (p, r, y).

Definition get_flyto_status (c : client) : option pyval :=
  item "status" (flyto_progress c).

(** [get_topo_data]: [self.topo_data.copy() if self.topo_data else None];
    a dict and a list have [.copy()], the other truthy values do not. *)
Definition get_topo_data (c : client) : exn + pyval :=
  let topo := topo_data c in
  if truthy topo then
    match topo with
    | PDict _ | PList _ => inr topo
    | _ => inl AttributeError
    end
  else inr PNone.

(** [get_aircraft_sn]: the [sn] of [topo_data['sub_devices'][0]]. *)
Definition get_aircraft_sn (c : client) : error + pyval :=
  let topo := topo_data c in
  if truthy topo then
    match contains "sub_devices" topo with
    | inl e => inl (Raise e)
    | inr false => inr PNone
    | inr true =>
        match get_or "sub_devices" (PList []) topo with
        | inl e => inl (Raise e)
        | inr sub_devices =>
            if truthy sub_devices then
              match len sub_devices with
              | inl e => inl (Raise e)
              | inr n =>
                  if (0 <? n)%nat then
                    match sub_devices with
                    | PList (device :: _) => lift (get "sn" device)
                    | PDict _ => inl KeyError        (* no key [0] *)
                    | _ => inl (Raise AttributeError) (* a character has no [.get] *)
                    end
                  else inr PNone
              end
            else inr PNone
        end
    end
  else inr PNone.

(** The keys [__init__] gives the four cache dicts. *)
Definition osd_keys : list string :=
  ["latitude"; "longitude"; "height"; "attitude_head"; "horizontal_speed";
   "speed_x"; "speed_y"; "speed_z"; "down_distance"; "down_enable";
   "down_work"; "battery_percent"].
Definition drone_state_keys : list string :=
  ["mode_code"; "rth_altitude"; "distance_limit"; "height_limit";
   "is_in_fixed_speed"; "night_lights_state"].
Definition camera_osd_keys : list string :=
  ["payload_index"; "gimbal_pitch"; "gimbal_roll"; "gimbal_yaw"].
Definition flyto_keys : list string :=
  ["fly_to_id"; "status"; "result"; "way_point_index";
   "remaining_distance"; "remaining_time"; "planned_path_points"].

(** Every cache dict has exactly the keys it was created with. *)
Record keys_ok (c : client) : Prop := KeysOk {
  osd_keys_ok : dom (osd_data c) = list_to_set osd_keys;
  drone_state_keys_ok : dom (drone_state c) = list_to_set drone_state_keys;
  camera_osd_keys_ok : dom (camera_osd c) = list_to_set camera_osd_keys;
  flyto_keys_ok : dom (flyto_progress c) = list_to_set flyto_keys;
}.

End Accessors.

(** ** [services/commands.py]: service calls *)

Module Commands.
Import MQTTClient ServiceCaller.

(** How [_call_service] fails: an exception of [call] or of the
    inspection of its result passes through, or the service said no and
    [Exception(f"{method} ... (code={error_code}): {error_msg} | ...
    {result}")] is raised, kept here by its parts. *)
Inductive failure : Type :=
  | Escaped (e : exn)
  | ServiceFailed (method : string) (error_code error_msg result : pyval).

(** The lines of the failure branch that carry text of the reply. *)
Definition code_line (error_code : pyval) : line :=
  [Lit "  [yellow]错误码:[/yellow] "; Val error_code].
Definition message_line (error_msg : pyval) : line :=
  [Lit "  [yellow]错误信息:[/yellow] "; Val error_msg].
Definition response_line (result : pyval) : line :=
  [Lit "  [dim]完整响应: "; Val result; Lit "[/dim]"].

(** The line of the [except] clause, [f"[red]✗ {method}: {e}[/red]"], for
    an exception [e] whose text is [text]. *)
Definition except_line (method : string) (text : line) : line :=
  ([Lit "[red]✗ "; Lit method; Lit ": "] ++ text ++ [Lit "[/red]"])%list.

(** The text of the exception the failure branch raises. *)
Definition failure_text (method : string) (error_code error_msg result : pyval)
    : line :=
  [Lit method; Lit " 失败 (code="; Val error_code; Lit "): "; Val error_msg;
   Lit " | 完整响应: "; Val result].

Section Services.
Context {con : console}.

(** The body of the [try], after [caller.call] has returned [result]. The
    failure branch prints the error code, the message and the whole
    reply before it raises. *)
Definition check_result (method : string) (result : pyval) : failure + pyval :=
  match get "result" result with
  | inl e => inl (Escaped e)
  | inr r =>
      if eq_zero r then
        match get_or "data" (PDict []) result with
        | inl e => inl (Escaped e)
        | inr d => inr d
        end
      else
        match (do error_code ← get_or "result" (PStr "unknown") result;
               do output ← get_or "output" (PDict []) result;
               do fallback ← get_or "msg" unknown_error output;
               do error_msg ← get_or "message" fallback result;
               do _ ← print (code_line error_code);
               do _ ← print (message_line error_msg);
               do _ ← print (response_line result);
               inr (error_code, error_msg)) with
        | inl e => inl (Escaped e)
        | inr (error_code, error_msg) =>
            inl (ServiceFailed method error_code error_msg result)
        end
  end.

(** The [except] clause: it prints the exception and re-raises it, or
    raises what the print raises. A [MarkupError] leaves as one either
    way; the texts of the other exceptions are the code's own. *)
Definition reraise (method : string) (f : failure) : failure :=
  match f with
  | Escaped (Exception msg) =>
      if markup_error (except_line method [Val msg]) then Escaped MarkupError else f
  | ServiceFailed _ error_code error_msg result =>
      if markup_error
           (except_line method (failure_text method error_code error_msg result))
      then Escaped MarkupError else f
  | Escaped _ => f
  end.

(** [_call_service] *)
Definition _call_service (method : string) (data : pyval) (tid : string)
    (during : list inbound) (c : client) : (failure + pyval) * client :=
  let '(r, c) := call method (if truthy data then data else PDict []) tid during c in
  let checked := match r with
                 | inl e => inl (Escaped e)
                 | inr result => check_result method result
                 end in
  match checked with
  | inl f => (inl (reraise method f), c)
  | inr v => (inr v, c)
  end.

Definition request_control_auth (user_id user_callsign : string) :=
  _call_service "cloud_control_auth_request"
    (PDict [("user_id", PStr user_id); ("user_callsign", PStr user_callsign);
            ("control_keys", PList [PStr "flight"])]).

Definition release_control_auth := _call_service "cloud_control_auth_release" PNone.

Definition enter_drc_mode (mqtt_broker : pyval) (osd_frequency hsi_frequency : Z) :=
  _call_service "drc_mode_enter"
    (PDict [("mqtt_broker", mqtt_broker); ("osd_frequency", PInt osd_frequency);
            ("hsi_frequency", PInt hsi_frequency)]).

Definition exit_drc_mode := _call_service "drc_mode_exit" PNone.

Definition return_home := _call_service "return_home" PNone.

(** [fly_to_point]; [fresh] is the value [str(uuid.uuid4())] would give. The
    id is returned only when the service call returns. *)
Definition fly_to_point (latitude longitude height : pyfloat) (max_speed : Z)
    (fly_to_id : option string) (fresh : string) (tid : string)
    (during : list inbound) (c : client) : (failure + string) * client :=
  let fly_to_id := default fresh fly_to_id in
  let '(r, c) :=
    _call_service "fly_to_point"
      (PDict [("fly_to_id", PStr fly_to_id); ("max_speed", PInt max_speed);
              ("points", PList [PDict [("latitude", PFloat latitude);
                                       ("longitude", PFloat longitude);
                                       ("height", PFloat height)]])])
      tid during c in
  match r with
  | inl f => (inl f, c)
  | inr _ => (inr fly_to_id, c)
  end.

End Services.

End Commands.

(** ** [primitives/wait.py], [utils.py]: polling waits *)

Module Waits.
Import MQTTClient Accessors.

(** [wait_for_condition]. [turns] lists, for each test of the [while]
    condition, the clock reading and what [condition_func()] gives if it
    is called then. [None]: still polling when [turns] ends. *)
Fixpoint wait_for_condition (timeout start_time : Qc)
    (turns : list (Qc * (exn + bool))) : option (exn + unit) :=
  match turns with
  | [] => None
  | (now, condition) :: later =>
      if decide (now - start_time < timeout)%Qc then
        match condition with
        | inl e => Some (inl e)
        | inr true => Some (inr ())
        | inr false => wait_for_condition timeout start_time later
        end
      else Some (inl TimeoutError)
  end.

(** [wait_for_camera_data]. [reads] lists, for each test of the [while]
    condition, the clock reading and the client as it is when
    [get_aircraft_sn()] and when [get_payload_index()] read it. At the
    deadline it returns [(None, None)]. *)
Fixpoint wait_for_camera_data (max_wait start_time : Qc)
    (reads : list (Qc * client * client)) : option (error + pyval * pyval) :=
  match reads with
  | [] => None
  | (now, c1, c2) :: later =>
      if decide (now - start_time < max_wait)%Qc then
        match get_aircraft_sn c1 with
        | inl e => Some (inl e)
        | inr aircraft_sn =>
            match get_payload_index c2 with
            | None => Some (inl KeyError)
            | Some payload_index =>
                if truthy aircraft_sn && truthy payload_index
                then Some (inr (aircraft_sn, payload_index))
                else wait_for_camera_data max_wait start_time later
            end
        end
      else Some (inr (PNone, PNone))
  end.

End Waits.

(** ** [send_stick_control], twice *)

Module Stick.

(** The paho client: [None] before [connect()], and what was published. *)
Record transport : Type := Transport {
  connected : bool;
  sent : list (string * pyval * Z);      (* topic, payload, qos *)
}.

Definition drc_down (gateway_sn : string) : string :=
  "thing/product/" ++ gateway_sn ++ "/drc/down".

(** [mqtt_client.client.publish(topic, json.dumps(payload), qos=0)] *)
Definition publish0 (topic : string) (payload : pyval) (t : transport)
    : error + transport :=
  if connected t then inr (Transport true (sent t ++ [(topic, payload, 0%Z)])%list)
  else inl (Raise AttributeError).

Definition in_range (value : Z) : bool := (364 <=? value)%Z && (value <=? 1684)%Z.

Definition stick_payload (seq roll pitch throttle yaw : Z) : pyval :=
  PDict [("seq", PInt seq); ("method", PStr "stick_control");
         ("data", PDict [("roll", PInt roll); ("pitch", PInt pitch);
                         ("throttle", PInt throttle); ("yaw", PInt yaw)])].

(** [commands.send_stick_control]; [now_ms] is [int(time.time() * 1000)]. *)
Definition send_stick_control (gateway_sn : string) (now_ms : Z)
    (roll pitch throttle yaw : Z) (t : transport) : error + transport :=
  if negb (in_range roll) then inl (ValueError "roll")
  else if negb (in_range pitch) then inl (ValueError "pitch")
  else if negb (in_range throttle) then inl (ValueError "throttle")
  else if negb (in_range yaw) then inl (ValueError "yaw")
  else publish0 (drc_down gateway_sn)
         (stick_payload now_ms roll pitch throttle yaw) t.

(** [drc_commands.send_stick_control], the one [services] exports. *)
Fixpoint first_out_of_range (channels : list (string * Z)) : option string :=
  match channels with
  | [] => None
  | (name, value) :: later =>
      if negb (in_range value) then Some name else first_out_of_range later
  end.

Definition drc_send_stick_control (gateway_sn : string) (now_ms : Z)
    (roll pitch throttle yaw : Z) (seq : option Z) (t : transport)
    : error + transport :=
  match first_out_of_range
          [("roll", roll); ("pitch", pitch); ("throttle", throttle); ("yaw", yaw)] with
  | Some name => inl (ValueError name)
  | None =>
      let seq := default now_ms seq in
      publish0 (drc_down gateway_sn) (stick_payload seq roll pitch throttle yaw) t
  end.

End Stick.

(** ** Heartbeat threads and the manager's lease *)

Module Lease.

(** The heartbeat threads started so far, by handle: whether the stop
    flag of each is set. *)
Definition threads : Type := list bool.

(** [start_heartbeat]: a new thread, its flag clear. *)
Definition start_heartbeat (ts : threads) : nat * threads :=
  (length ts, (ts ++ [false])%list).

(** [stop_heartbeat]: sets the flag of the thread. *)
Definition stop_heartbeat (thread : nat) (ts : threads) : threads :=
  <[thread := true]> ts.

(** [DRCConnectionManager._reconnect_drc], with the heartbeat it holds.
    [auth_ok], [drc_ok]: whether [request_control_auth], [enter_drc_mode]
    return rather than raise. *)
Definition _reconnect_drc (auth_ok drc_ok : bool)
    (heartbeat_thread : option nat) (ts : threads) : bool * option nat * threads :=
  if auth_ok then
    if drc_ok then
      let ts := match heartbeat_thread with
                | Some old => stop_heartbeat old ts
                | None => ts
                end in
      let '(new, ts) := start_heartbeat ts in
      (true, Some new, ts)
    else (false, heartbeat_thread, ts)
  else (false, heartbeat_thread, ts).

(** A run of re-entry attempts, one per pair of outcomes; it stops at the
    first success, as the retry loop does. *)
Fixpoint attempts (outcomes : list (bool * bool))
    (heartbeat_thread : option nat) (ts : threads) : bool * option nat * threads :=
  match outcomes with
  | [] => (false, heartbeat_thread, ts)
  | (auth_ok, drc_ok) :: later =>
      let '(ok, heartbeat_thread, ts) := _reconnect_drc auth_ok drc_ok heartbeat_thread ts in
      if ok then (true, heartbeat_thread, ts)
      else attempts later heartbeat_thread ts
  end.

(** [DRCConnectionManager.stop], as far as the heartbeat goes. *)
Definition stop (heartbeat_thread : option nat) (ts : threads) : threads :=
  match heartbeat_thread with
  | Some thread => stop_heartbeat thread ts
  | None => ts
  end.

(** The threads whose stop flag is clear. *)
Definition running (ts : threads) : list nat :=
  filter (λ i, ts !! i = Some false) (seq 0 (length ts)).

(** No heartbeat runs but the one the manager holds. *)
Definition lease_ok (heartbeat_thread : option nat) (ts : threads) : Prop :=
  ∀ i, i ∈ running ts → heartbeat_thread = Some i.

End Lease.

(** ** What the properties below speak of *)

Module Observations.
Import MQTTClient Session.

(** [m] is a push of one of the seven telemetry methods. *)
Definition is_telemetry (m : inbound) : bool :=
  match m.2 with
  | inr (PDict payload) => existsb (eq_str (dget "method" payload)) telemetry_methods
  | _ => false
  end.

(** [c'] has the telemetry cache and the arrival clock of [c]. *)
Definition same_cache (c' c : client) : Prop :=
  osd_data c' = osd_data c ∧ drone_state c' = drone_state c ∧
  topo_data c' = topo_data c ∧ camera_osd c' = camera_osd c ∧
  takeoff_height c' = takeoff_height c ∧ flyto_progress c' = flyto_progress c ∧
  _osd_timestamps c' = _osd_timestamps c ∧ _last_osd_time c' = _last_osd_time c ∧
  _freq_window c' = _freq_window c.

(** The future [fut] is pending and no entry of the table leads to it. *)
Definition orphan (fut : nat) (c : client) : Prop :=
  table_ok c ∧ futures c !! fut = Some Pending ∧
  ∀ t, pending_requests c !! t ≠ Some fut.

(** A push of [method] carrying [data], arriving at clock [t]. *)
Definition push (method : string) (t : Qc) (data : pyval) : inbound :=
  (t, inr (PDict [("method", PStr method); ("data", data)])).

(** [m] is a push of [method] that the handler accepts: its [data] is an
    object (for [update_topo], anything). *)
Definition is_push (method : string) (m : inbound) : bool :=
  match m.2 with
  | inr (PDict payload) =>
      eq_str (dget "method" payload) method
      && (eq_str (PStr method) "update_topo"
          || match dget_or "data" (PDict []) payload with
             | PDict _ => true
             | _ => false
             end)
  | _ => false
  end.

(** The readings in [l] never decrease. *)
Fixpoint ascending (l : list Qc) : Prop :=
  match l with
  | [] => True
  | t :: later => Forall (Qcle t) later ∧ ascending later
  end.

(** The frequency window is in order: its readings never decrease, none
    is later than the latest arrival, none older than [_freq_window]
    before it. *)
Definition window_ok (c : client) : Prop :=
  ascending (_osd_timestamps c) ∧
  Forall (λ t, t ≤ _last_osd_time c ∧ _last_osd_time c - t ≤ _freq_window c)%Qc
    (_osd_timestamps c).

(** The sequence numbers of the heartbeats in a log, and the entries that
    published one. *)
Definition beat_seq (e : Heartbeat.entry) : option Z :=
  match Heartbeat.act e with
  | Heartbeat.Beat seq => Some seq
  | Heartbeat.Sleep _ => None
  end.

Definition beats (log : list Heartbeat.entry) : list Heartbeat.entry :=
  filter (λ e, is_Some (beat_seq e)) log.

End Observations.

(** * Properties *)

Import MQTTClient ServiceCaller Session Scenarios.

(** Linear arithmetic on [Qc], through [Q]. *)
Ltac qc_lra :=
  try apply Qc_is_canon;
  unfold Qcminus in *;
  unfold Qcle, Qclt, Qcplus, Qcopp, Qcmult, Q2Qc in *;
  cbn [this] in *;
  rewrite ?Qred_correct in *;
  lra.

Section Properties.
Context {con : console}.

(** ** Request correlation *)

Lemma on_reply_cases payload c :
  (on_reply payload c = c) ∨
  ∃ t fut, dget "tid" payload = PStr t ∧ pending_requests c !! t = Some fut ∧
    pending_requests (on_reply payload c) = delete t (pending_requests c) ∧
    (futures (on_reply payload c) = futures c ∨
     ∃ o, verdict payload = inr o ∧ futures c !! fut = Some Pending ∧
          futures (on_reply payload c) = <[fut := Done o]> (futures c)).
Proof.
  unfold on_reply.
  destruct (truthy (dget "tid" payload)); simpl; [|by left].
  destruct (dget "tid" payload) as [| | | |t| |] eqn:Htid; try by left.
  destruct (pending_requests c !! t) as [fut|] eqn:Hp; [|by left].
  right. exists t, fut. split; [done|]. split; [done|].
  destruct (verdict payload) as [e|o] eqn:Hv; simpl.
  { split; [done|]. by left. }
  unfold complete. simpl.
  destruct (futures c !! fut) as [[|o']|] eqn:Hf; simpl; try (split; [done|by left]).
  split; [done|]. right. by exists o.
Qed.

Ltac same_table_tac :=
  intros; unfold same_table;
  repeat match goal with
         | |- context [match ?v with _ => _ end] => destruct v; simpl
         end; done.

Lemma on_osd_table now data c : same_table (on_osd now data c) c.
Proof. unfold on_osd. same_table_tac. Qed.
Lemma on_hsi_table data c : same_table (on_hsi data c) c.
Proof. unfold on_hsi. same_table_tac. Qed.
Lemma on_batteries_table data c : same_table (on_batteries data c) c.
Proof. unfold on_batteries. same_table_tac. Qed.
Lemma on_drone_state_table data c : same_table (on_drone_state data c) c.
Proof. unfold on_drone_state. same_table_tac. Qed.
Lemma on_topo_table data c : same_table (on_topo data c) c.
Proof. unfold on_topo. same_table_tac. Qed.
Lemma on_camera_osd_table data c : same_table (on_camera_osd data c) c.
Proof. unfold on_camera_osd. same_table_tac. Qed.
Lemma on_flyto_table data c : same_table (on_flyto data c) c.
Proof. unfold on_flyto. same_table_tac. Qed.

Lemma on_message_cases now raw c :
  same_table (_on_message now raw c) c ∨
  ∃ payload t fut,
    raw = inr (PDict payload) ∧ is_reply_for t (now, raw) = true ∧
    pending_requests c !! t = Some fut ∧
    pending_requests (_on_message now raw c) = delete t (pending_requests c) ∧
    (futures (_on_message now raw c) = futures c ∨
     ∃ o, verdict payload = inr o ∧ futures c !! fut = Some Pending ∧
          futures (_on_message now raw c) = <[fut := Done o]> (futures c)).
Proof.
  destruct raw as [e|[| | | | | |payload]]; try (left; done).
  unfold _on_message, is_reply_for, telemetry_methods. simpl.
  destruct (eq_str (dget "method" payload) "osd_info_push"); [left; apply on_osd_table|].
  destruct (eq_str (dget "method" payload) "hsi_info_push"); [left; apply on_hsi_table|].
  destruct (eq_str (dget "method" payload) "drc_batteries_info_push"); [left; apply on_batteries_table|].
  destruct (eq_str (dget "method" payload) "drc_drone_state_push"); [left; apply on_drone_state_table|].
  destruct (eq_str (dget "method" payload) "update_topo"); [left; apply on_topo_table|].
  destruct (eq_str (dget "method" payload) "drc_camera_osd_info_push"); [left; apply on_camera_osd_table|].
  destruct (eq_str (dget "method" payload) "fly_to_point_progress"); [left; apply on_flyto_table|].
  simpl.
  destruct (on_reply_cases payload c) as [->|(t & fut & Ht & Hp & Hd & Hf)]; [by left|].
  right. exists payload, t, fut. rewrite Ht. simpl. rewrite String.eqb_refl. done.
Qed.

Lemma table_ok_init : table_ok init.
Proof. split; intros *; simpl; by rewrite lookup_empty. Qed.

(** What [publish] does to the client, whether or not it raises. *)
Lemma publish_effect method data tid c :
  (publish method data tid c).2
  = with_pending (insert tid (length (futures c)))
      (with_futures (λ h, (h ++ [Pending])%list) c).
Proof. unfold publish. simpl. by destruct (has_client c). Qed.

Lemma publish_returns method data tid c :
  (publish method data tid c).1
  = if has_client c then inr (length (futures c)) else inl AttributeError.
Proof. unfold publish. simpl. by destruct (has_client c). Qed.

Lemma table_ok_publish method data tid c :
  table_ok c → table_ok (publish method data tid c).2.
Proof.
  intros [Hp Hu]. rewrite publish_effect. split; simpl.
  - intros t f. rewrite lookup_insert. case_decide as Ht.
    + intros [= <-]. by rewrite lookup_app_r, Nat.sub_diag.
    + intros Hf. apply Hp in Hf. by apply lookup_app_l_Some.
  - intros t1 t2 f. rewrite !lookup_insert.
    repeat case_decide; subst; try done.
    + intros [= <-] Hf. apply Hp, lookup_lt_Some in Hf. lia.
    + intros Hf [= <-]. apply Hp, lookup_lt_Some in Hf. lia.
    + apply Hu.
Qed.

Lemma table_ok_cleanup tid c : table_ok c → table_ok (cleanup_request tid c).
Proof.
  intros [Hp Hu]. split; simpl.
  - intros t f Hf. apply lookup_delete_Some in Hf as [_ Hf]. eauto.
  - intros t1 t2 f H1 H2.
    apply lookup_delete_Some in H1 as [_ H1].
    apply lookup_delete_Some in H2 as [_ H2]. eauto.
Qed.

Lemma table_ok_on_message now raw c :
  table_ok c → table_ok (_on_message now raw c).
Proof.
  intros [Hp Hu].
  destruct (on_message_cases now raw c)
    as [[Hs1 Hs2]|(payload & t & fut & _ & _ & Ht & Hd & Hf)].
  { split; rewrite ?Hs1, ?Hs2; eauto. }
  split; rewrite Hd.
  - intros t' f' Hf'. apply lookup_delete_Some in Hf' as [Hne Hf'].
    destruct Hf as [->|(o & _ & _ & ->)]; [eauto|].
    rewrite list_lookup_insert_ne; [eauto|].
    intros <-. apply Hne. eauto.
  - intros t1 t2 f H1 H2.
    apply lookup_delete_Some in H1 as [_ H1].
    apply lookup_delete_Some in H2 as [_ H2]. eauto.
Qed.

Lemma table_ok_step c e : table_ok c → table_ok (step c e).
Proof.
  intros H. destruct e as [|method data tid|m|tid].
  - by destruct H.
  - by apply (table_ok_publish method data tid).
  - by apply table_ok_on_message.
  - by apply table_ok_cleanup.
Qed.

Lemma table_ok_run es : table_ok (run es).
Proof.
  unfold run. generalize table_ok_init. generalize init.
  induction es as [|e es IH]; simpl; auto using table_ok_step.
Qed.

Lemma table_ok_reachable c : reachable c → table_ok c.
Proof. intros [es ->]. apply table_ok_run. Qed.

(** A future that a message completes is completed with the verdict of
    that message, and was registered in the table. *)
Lemma completed_by_message now raw c fut o :
  futures c !! fut = Some Pending →
  futures (_on_message now raw c) !! fut = Some (Done o) →
  ∃ payload t, raw = inr (PDict payload) ∧ is_reply_for t (now, raw) = true ∧
    pending_requests c !! t = Some fut ∧
    pending_requests (_on_message now raw c) = delete t (pending_requests c) ∧
    verdict payload = inr o.
Proof.
  intros Hpend Hdone.
  destruct (on_message_cases now raw c)
    as [[_ Hs]|(payload & t & fut' & -> & Hr & Ht & Hd & Hf)].
  { congruence. }
  destruct Hf as [Hf|(o' & Hv & Hp' & Hf)]; [congruence|].
  rewrite Hf in Hdone.
  destruct (decide (fut' = fut)) as [->|Hne].
  - rewrite list_lookup_insert_eq in Hdone by (by eapply lookup_lt_Some).
    injection Hdone as <-. by exists payload, t.
  - rewrite list_lookup_insert_ne in Hdone by done. congruence.
Qed.

Lemma reply_dispatch t now payload c :
  is_reply_for t (now, inr (PDict payload)) = true →
  _on_message now (inr (PDict payload)) c = on_reply payload c ∧
  dget "tid" payload = PStr t.
Proof.
  unfold is_reply_for, telemetry_methods, _on_message. simpl.
  destruct (eq_str (dget "method" payload) "osd_info_push"); [done|].
  destruct (eq_str (dget "method" payload) "hsi_info_push"); [done|].
  destruct (eq_str (dget "method" payload) "drc_batteries_info_push"); [done|].
  destruct (eq_str (dget "method" payload) "drc_drone_state_push"); [done|].
  destruct (eq_str (dget "method" payload) "update_topo"); [done|].
  destruct (eq_str (dget "method" payload) "drc_camera_osd_info_push"); [done|].
  destruct (eq_str (dget "method" payload) "fly_to_point_progress"); [done|].
  simpl. destruct (dget "tid" payload) as [| | | |s| |]; simpl; try done.
  intros Heq. apply String.eqb_eq in Heq. by subst.
Qed.

Lemma reply_without_entry t now payload c :
  pending_requests c !! t = None →
  is_reply_for t (now, inr (PDict payload)) = true →
  _on_message now (inr (PDict payload)) c = c.
Proof.
  intros Hnone Hr. destruct (reply_dispatch t now payload c Hr) as [-> Htid].
  unfold on_reply. rewrite Htid. simpl.
  destruct (negb (negb (String.eqb t ""))); [done|]. by rewrite Hnone.
Qed.

Lemma truthy_tid (tid : string) : tid ≠ "" → negb (String.eqb tid "") = true.
Proof.
  intros Hne. destruct (String.eqb tid "") eqn:Heq; [|done].
  by apply String.eqb_eq in Heq.
Qed.

(** What a reply does to the future its transaction id leads to. *)
Lemma reply_to_pending t fut now payload c :
  is_reply_for t (now, inr (PDict payload)) = true → t ≠ "" →
  pending_requests c !! t = Some fut → futures c !! fut = Some Pending →
  futures (_on_message now (inr (PDict payload)) c) !! fut
  = Some (match verdict payload with inr o => Done o | inl _ => Pending end).
Proof.
  intros Hr Hne Hin Hp. destruct (reply_dispatch t now payload c Hr) as [-> Htid].
  unfold on_reply. rewrite Htid. simpl. rewrite (truthy_tid t Hne), Hin. simpl.
  destruct (verdict payload) as [e|o]; simpl; [done|].
  unfold complete. simpl. rewrite Hp. simpl.
  apply list_lookup_insert_eq. by eapply lookup_lt_Some.
Qed.

Lemma envelope_error_failed payload message :
  envelope_error payload message →
  envelope_failed (dget_or "info" (PDict []) payload) = inr true ∧
  get_or "message" unknown_error (dget_or "info" (PDict []) payload) = inr message.
Proof.
  intros (i & Hi & Hne & Hcode & ->).
  assert (dget_or "info" (PDict []) payload = PDict i) as ->
    by (unfold dget_or; by rewrite Hi).
  split; [|done]. unfold envelope_failed.
  assert (truthy (PDict i) = true) as -> by by destruct i.
  change (get "code" (PDict i)) with (inr (dget "code" i) : exn + pyval).
  cbn [bind_exn]. by rewrite Hcode.
Qed.

Lemma envelope_silent_failed payload :
  envelope_silent payload →
  envelope_failed (dget_or "info" (PDict []) payload) = inr false.
Proof.
  unfold envelope_failed, dget_or.
  intros [->|[(v & -> & Hv)|(i & -> & Hcode)]]; simpl; [done|by rewrite Hv|].
  change (dget_or "code" PNone i) with (dget "code" i). rewrite Hcode.
  by destruct i.
Qed.

Lemma body_error_failed payload message :
  body_error payload message →
  let data := dget_or "data" (PDict []) payload in
  body_failed data = inr true ∧
  ∃ o, get_or "output" (PDict []) data = inr (PDict o) ∧
       get_or "msg" unknown_error (PDict o) = inr message.
Proof.
  intros (d & r & o & Hd & Hr & Hne & Ho & ->).
  assert (dget_or "data" (PDict []) payload = PDict d) as ->
    by (unfold dget_or; by rewrite Hd).
  cbn zeta. split; [|exists o; split; [|done]; unfold get_or; by rewrite Ho].
  unfold body_failed, contains. rewrite bool_decide_eq_true_2 by eauto.
  change (get "result" (PDict d)) with (inr (dget "result" d) : exn + pyval).
  unfold bind_exn, dget. rewrite Hr. cbn [default from_option id]. by rewrite Hne.
Qed.

Lemma body_silent_failed payload :
  body_silent payload →
  body_failed (dget_or "data" (PDict []) payload) = inr false.
Proof.
  unfold body_failed. intros [->|(d & r & Hd & Hr & Hz)]; [done|].
  assert (dget_or "data" (PDict []) payload = PDict d) as ->
    by (unfold dget_or; by rewrite Hd).
  unfold contains. rewrite bool_decide_eq_true_2 by eauto.
  change (get "result" (PDict d)) with (inr (dget "result" d) : exn + pyval).
  unfold bind_exn, dget. rewrite Hr. cbn [default from_option id]. by rewrite Hz.
Qed.

(** The verdict on a reply, by what its encodings say. *)
Lemma verdict_envelope_error payload message :
  envelope_error payload message →
  verdict payload = if markup_error (error_line message) then inl MarkupError
                    else inr (Raised (Exception message)).
Proof.
  intros He. destruct (envelope_error_failed payload message He) as [Hf Hm].
  unfold verdict. cbn zeta. rewrite Hf. unfold bind_exn at 1.
  rewrite Hm. unfold bind_exn, print. by destruct (markup_error _).
Qed.

Lemma verdict_body_error payload message :
  envelope_silent payload → body_error payload message →
  verdict payload = if markup_error (error_line message) then inl MarkupError
                    else inr (Raised (Exception message)).
Proof.
  intros Hs Hb. pose proof (envelope_silent_failed payload Hs) as Hf.
  destruct (body_error_failed payload message Hb) as (Hbf & o & Ho & Hm).
  unfold verdict. cbn zeta. rewrite Hf. unfold bind_exn at 1.
  rewrite Hbf. unfold bind_exn at 1. rewrite Ho. unfold bind_exn at 1.
  rewrite Hm. unfold bind_exn, print. by destruct (markup_error _).
Qed.

Lemma verdict_silent payload :
  envelope_silent payload → body_silent payload →
  verdict payload = inr (Result (dget_or "data" (PDict []) payload)).
Proof.
  intros Hs Hb. unfold verdict. cbn zeta.
  rewrite (envelope_silent_failed payload Hs). simpl.
  by rewrite (body_silent_failed payload Hb).
Qed.

Lemma envelope_failed_cases payload b :
  envelope_failed (dget_or "info" (PDict []) payload) = inr b →
  if b then ∃ message, envelope_error payload message
  else envelope_silent payload.
Proof.
  unfold envelope_failed, dget_or.
  destruct (assoc "info" payload) as [v|] eqn:Hinfo; simpl;
    [|intros [= <-]; by left].
  destruct (truthy v) eqn:Hv; [|intros [= <-]; right; left; eauto].
  destruct v as [| | | | | |i]; try done.
  change (get "code" (PDict i)) with (inr (dget "code" i) : exn + pyval).
  unfold bind_exn. intros [= <-].
  destruct (ne_zero (dget "code" i)) eqn:Hcode.
  - eexists. exists i. split; [done|]. split; [by destruct i|]. done.
  - right. right. by exists i.
Qed.

Lemma body_failed_cases payload b :
  body_failed (dget_or "data" (PDict []) payload) = inr b →
  if b then
    ∃ d r, assoc "data" payload = Some (PDict d) ∧
           assoc "result" d = Some r ∧ ne_zero r = true
  else body_silent payload.
Proof.
  unfold body_failed, body_silent.
  destruct (contains "result" (dget_or "data" (PDict []) payload))
    as [e|[|]] eqn:Hhas; simpl; [done| |intros [= <-]; by left].
  destruct (dget_or "data" (PDict []) payload) as [| | | | | |d] eqn:Hdata;
    try done.
  simpl in *. injection Hhas as Hhas. apply bool_decide_eq_true in Hhas as [r Hr].
  unfold dget, dget_or in *. rewrite Hr. simpl. intros [= <-].
  assert (assoc "data" payload = Some (PDict d)) as Hd.
  { destruct (assoc "data" payload); simpl in *; [by subst|].
    injection Hdata as <-. done. }
  destruct (ne_zero r) eqn:Hz; [by exists d, r|]. right. by exists d, r.
Qed.

(** Every verdict comes from one of the three readings. *)
Lemma verdict_cases payload o :
  verdict payload = inr o →
  (∃ message, envelope_error payload message ∧ o = Raised (Exception message)) ∨
  (∃ message, envelope_silent payload ∧ body_error payload message ∧
              o = Raised (Exception message)) ∨
  (envelope_silent payload ∧ body_silent payload ∧
   o = Result (dget_or "data" (PDict []) payload)).
Proof.
  unfold verdict. cbn zeta.
  destruct (envelope_failed _) as [e|b] eqn:Hf; simpl; [done|].
  apply envelope_failed_cases in Hf. destruct b.
  - destruct Hf as [message He].
    destruct (envelope_error_failed payload message He) as [_ ->]. simpl.
    unfold print. destruct (markup_error _); simpl; [done|].
    intros [= <-]. left. by exists message.
  - destruct (body_failed _) as [e|b] eqn:Hb; simpl; [done|].
    apply body_failed_cases in Hb. destruct b.
    + destruct Hb as (d & r & Hd & Hr & Hz).
      unfold dget_or at 1. rewrite Hd. simpl.
      destruct (dget_or "output" (PDict []) d) as [| | | | | |out] eqn:Hout;
        simpl; try done.
      unfold print. destruct (markup_error _); simpl; [done|].
      intros [= <-]. right. left. eexists. split; [done|]. split; [|done].
      by exists d, r, out.
    + intros [= <-]. right. right. done.
Qed.

(** C1. A reply to a pending request is read in a fixed order. If its
    [info] signals an error ([code] other than [0]), the future fails
    with [info]'s message (['Unknown error'] when it carries none),
    whatever the body holds. Otherwise, if its [data] has a [result]
    other than [0], the future fails with [data.output.msg] (same
    default). In both cases the message is printed first, and the future
    is left pending if that raises. Otherwise the future succeeds with
    [data]. Every reply that completes the future is one of the three. *)
Theorem reply_error_precedence (now : Qc) (payload : list (string * pyval))
    (c : client) (t : string) (fut : nat) :
  is_reply_for t (now, inr (PDict payload)) = true → t ≠ "" →
  pending_requests c !! t = Some fut → futures c !! fut = Some Pending →
  let c' := _on_message now (inr (PDict payload)) c in
  let data := dget_or "data" (PDict []) payload in
  (∀ message, envelope_error payload message →
     futures c' !! fut
     = Some (if markup_error (error_line message) then Pending
             else Done (Raised (Exception message)))) ∧
  (∀ message, envelope_silent payload → body_error payload message →
     futures c' !! fut
     = Some (if markup_error (error_line message) then Pending
             else Done (Raised (Exception message)))) ∧
  (envelope_silent payload → body_silent payload →
     futures c' !! fut = Some (Done (Result data))) ∧
  (∀ o, futures c' !! fut = Some (Done o) →
     (∃ message, envelope_error payload message ∧ o = Raised (Exception message)) ∨
     (∃ message, envelope_silent payload ∧ body_error payload message ∧
                 o = Raised (Exception message)) ∨
     (envelope_silent payload ∧ body_silent payload ∧ o = Result data)).
Proof.
  intros Hr Hne Hin Hp c' data.
  pose proof (reply_to_pending t fut now payload c Hr Hne Hin Hp) as Hfut.
  fold c' in Hfut. rewrite Hfut. clear Hfut.
  split; [|split; [|split]].
  - intros message He. rewrite (verdict_envelope_error payload message He).
    by destruct (markup_error _).
  - intros message Hs Hb. rewrite (verdict_body_error payload message Hs Hb).
    by destruct (markup_error _).
  - intros Hs Hb. by rewrite (verdict_silent payload Hs Hb).
  - intros o Ho. apply verdict_cases.
    destruct (verdict payload) as [e|o']; [done|]. by injection Ho as ->.
Qed.

(** The envelope signals an error exactly when [info] is a non-empty
    object whose [code] is not [0]. *)
Lemma envelope_failed_true info :
  envelope_failed info = inr true ↔
  ∃ d, info = PDict d ∧ d ≠ [] ∧ ne_zero (dget "code" d) = true.
Proof.
  unfold envelope_failed. split.
  - destruct info as [|b|z|f|s|l|d]; simpl; try done.
    + by destruct b.
    + by destruct (negb _).
    + by destruct (negb _).
    + by destruct (negb _).
    + by destruct l.
    + destruct d as [|kv d]; [done|]. intros [= H]. by exists (kv :: d).
  - intros (d & -> & Hd & Hc). destruct d as [|kv d]; [done|].
    simpl. unfold dget, dget_or in *. simpl in *. by rewrite Hc.
Qed.

(** The body signals an error exactly when [data] is an object with a
    [result] field that is not [0]. *)
Lemma body_failed_true data :
  body_failed data = inr true ↔
  ∃ d r, data = PDict d ∧ assoc "result" d = Some r ∧ ne_zero r = true.
Proof.
  unfold body_failed. split.
  - destruct data as [| | | |s|l|d]; simpl; try done.
    + by destruct (bool_decide _).
    + by destruct (existsb _ l).
    + unfold dget, dget_or. destruct (assoc "result" d) as [r|] eqn:Hr; simpl.
      * intros [= H]. by exists d, r.
      * done.
  - intros (d & r & -> & Hr & Hne). simpl.
    unfold dget, dget_or. rewrite Hr. simpl. by rewrite Hne.
Qed.

Lemma cleanup_request_absent tid c :
  pending_requests (cleanup_request tid c) !! tid = None.
Proof. simpl. apply lookup_delete_eq. Qed.

Lemma cleanup_request_noop tid c :
  pending_requests c !! tid = None → cleanup_request tid c = c.
Proof.
  intros H. destruct c. unfold cleanup_request, with_pending. simpl in *.
  f_equal. by apply delete_id.
Qed.

Lemma cleanup_request_twice tid c :
  cleanup_request tid (cleanup_request tid c) = cleanup_request tid c.
Proof. apply cleanup_request_noop, cleanup_request_absent. Qed.

(** A message that is not a reply for [tid] leaves the entry of [tid] and
    its future as they are. *)
Lemma entry_survives now raw c tid fut :
  table_ok c → pending_requests c !! tid = Some fut →
  is_reply_for tid (now, raw) = false →
  pending_requests (_on_message now raw c) !! tid = Some fut.
Proof.
  intros Hok Hin Hno.
  destruct (on_message_cases now raw c)
    as [[Hs _]|(payload & t & fut' & _ & Hr & Ht & Hd & _)].
  { by rewrite Hs. }
  rewrite Hd, lookup_delete_ne; [done|]. intros ->. congruence.
Qed.

Lemma await_no_reply tid fut during c :
  table_ok c → pending_requests c !! tid = Some fut →
  Forall (λ m, is_reply_for tid m = false) during →
  ∃ c', await fut during c = (None, c') ∧ table_ok c'.
Proof.
  revert c. induction during as [|[now raw] during IH]; intros c Hok Hin Hno; simpl.
  - rewrite (entry_pending _ Hok _ _ Hin). eauto.
  - rewrite (entry_pending _ Hok _ _ Hin).
    apply Forall_cons in Hno as [Hm Hno].
    apply IH; [by apply table_ok_on_message| |done].
    by apply entry_survives.
Qed.

(** The state in which a [call] waits: the request stored, not yet
    answered. *)
Lemma publish_entry method data tid c :
  table_ok c →
  let c1 := (publish method data tid c).2 in
  table_ok c1 ∧ pending_requests c1 !! tid = Some (length (futures c)) ∧
  futures c1 !! length (futures c) = Some Pending.
Proof.
  intros Hok c1. split; [by apply (table_ok_publish method data tid)|].
  subst c1. rewrite publish_effect. simpl.
  split; [apply lookup_insert_eq|]. by rewrite lookup_app_r, Nat.sub_diag.
Qed.

(** [call] on a client with a transport waits for the future [publish]
    created; without one it ends at [publish]. *)
Lemma call_with_client method data tid during c :
  has_client c = true →
  call method data tid during c =
    match await (length (futures c)) during
            (publish method (if truthy data then data else PDict []) tid c).2 with
    | (Some (Result result), c') => (inr result, c')
    | (Some (Raised TimeoutError), c') | (None, c') =>
        (inl TimeoutError, cleanup_request tid c')
    | (Some (Raised e), c') => (inl e, c')
    end.
Proof. intros Hc. unfold call, publish. simpl. by rewrite Hc. Qed.

Lemma call_without_client method data tid during c :
  has_client c = false →
  call method data tid during c
  = (inl AttributeError,
     (publish method (if truthy data then data else PDict []) tid c).2).
Proof. intros Hc. unfold call, publish. simpl. by rewrite Hc. Qed.

(** C2. On a client whose transport has been created, from any state it
    can reach, a [call] during whose wait no reply for its transaction id
    is dispatched fails with [TimeoutError]; afterwards the pending table
    has no entry for that id, and cleaning up once more changes
    nothing. *)
Theorem call_timeout_cleans_up (method : string) (data : pyval) (tid : string)
    (during : list inbound) (c : client) :
  reachable c →
  has_client c = true →
  Forall (λ m, is_reply_for tid m = false) during →
  let r := call method data tid during c in
  r.1 = inl TimeoutError ∧
  pending_requests r.2 !! tid = None ∧
  cleanup_request tid r.2 = r.2.
Proof.
  intros Hc Hclient Hno. rewrite call_with_client by done.
  pose proof (table_ok_reachable _ Hc) as Hok.
  destruct (publish_entry method (if truthy data then data else PDict []) tid c Hok)
    as (Hok' & Hin & _).
  destruct (await_no_reply tid _ during _ Hok' Hin Hno) as (c' & -> & _).
  simpl. split; [done|]. split.
  - apply lookup_delete_eq.
  - apply cleanup_request_twice.
Qed.

Lemma on_message_table_shrinks now raw c t :
  pending_requests c !! t = None →
  pending_requests (_on_message now raw c) !! t = None.
Proof.
  intros Hnone.
  destruct (on_message_cases now raw c)
    as [[Hs _]|(payload & t' & fut' & _ & _ & _ & Hd & _)].
  - by rewrite Hs.
  - rewrite Hd. apply lookup_delete_None. by right.
Qed.

Lemma resolved_entry_removed now raw c t fut o :
  table_ok c → pending_requests c !! t = Some fut →
  futures (_on_message now raw c) !! fut = Some (Done o) →
  pending_requests (_on_message now raw c) !! t = None.
Proof.
  intros Hok Hin Hdone.
  destruct (completed_by_message now raw c fut o)
    as (payload & t' & _ & _ & Hin' & Hd & _); [by eapply entry_pending|done|].
  rewrite Hd, (entry_unique _ Hok _ _ _ Hin Hin'). apply lookup_delete_eq.
Qed.

Lemma await_entry tid fut during c :
  table_ok c →
  pending_requests c !! tid = Some fut ∨ pending_requests c !! tid = None →
  ∀ r c', await fut during c = (r, c') →
    (r = None ∨ pending_requests c' !! tid = None) ∧
    (pending_requests c' !! tid = Some fut ∨ pending_requests c' !! tid = None).
Proof.
  revert c. induction during as [|[now raw] during IH]; intros c Hok Hin r c'; simpl.
  - destruct (futures c !! fut) as [[|o]|] eqn:Hf; intros [= <- <-]; try by auto.
    destruct Hin as [Hin|Hin]; [|by auto].
    rewrite (entry_pending _ Hok _ _ Hin) in Hf. done.
  - destruct (futures c !! fut) as [[|o]|] eqn:Hf.
    + apply IH; [by apply table_ok_on_message|].
      destruct Hin as [Hin|Hin].
      * destruct (on_message_cases now raw c)
          as [[Hs _]|(payload & t' & fut' & _ & _ & _ & Hd & _)].
        { left. by rewrite Hs. }
        rewrite Hd. destruct (decide (t' = tid)) as [->|Hne].
        { right. apply lookup_delete_eq. }
        left. by rewrite lookup_delete_ne.
      * right. by apply on_message_table_shrinks.
    + intros [= <- <-]. destruct Hin as [Hin|Hin]; [|by auto].
      rewrite (entry_pending _ Hok _ _ Hin) in Hf. done.
    + apply IH; [by apply table_ok_on_message|].
      destruct Hin as [Hin|Hin].
      * rewrite (entry_pending _ Hok _ _ Hin) in Hf. done.
      * right. by apply on_message_table_shrinks.
Qed.

(** However a [call] that got past [publish] ends, its entry is gone. *)
Lemma call_leaves_no_entry method data tid during c :
  table_ok c → has_client c = true →
  pending_requests (call method data tid during c).2 !! tid = None.
Proof.
  intros Hok Hclient. rewrite call_with_client by done.
  destruct (publish_entry method (if truthy data then data else PDict []) tid c Hok)
    as (Hok' & Hin & _).
  destruct (await _ during _) as [r c'] eqn:Haw.
  destruct (await_entry tid _ during _ Hok' (or_introl Hin) r c' Haw) as [[->|Hgone] _].
  { apply cleanup_request_absent. }
  destruct r as [[result|e]|]; simpl; try done; try apply lookup_delete_eq.
  destruct e; simpl; try done; apply lookup_delete_eq.
Qed.

(** What [call] raises when [publish] does not return. *)
Lemma call_not_published method data tid during c :
  table_ok c → has_client c = false →
  (call method data tid during c).1 = inl AttributeError ∧
  pending_requests (call method data tid during c).2 !! tid
  = Some (length (futures c)).
Proof.
  intros Hok Hclient. rewrite call_without_client by done. split; [done|].
  by destruct (publish_entry method (if truthy data then data else PDict []) tid c Hok)
    as (_ & Hin & _).
Qed.

(** C3. After any sequence of connects, issued requests, delivered
    messages and clean-ups: the pending table holds at most one entry per
    transaction id, entries and pending futures correspond one to one;
    once a reply has completed the future of an entry, that entry is
    gone; after [cleanup_request] the entry is gone; and when a [call]
    ends with the reply's result, with the reply's error or with
    [TimeoutError], its transaction id is no longer in the table. *)
Theorem pending_table_invariant (es : list event) :
  let c := run es in
  NoDup (map_to_list (pending_requests c)).*1 ∧
  table_ok c ∧
  (∀ now raw t fut o,
     pending_requests c !! t = Some fut →
     futures (_on_message now raw c) !! fut = Some (Done o) →
     pending_requests (_on_message now raw c) !! t = None) ∧
  (∀ t, pending_requests (cleanup_request t c) !! t = None) ∧
  (∀ method data tid during,
     (∃ result, (ServiceCaller.call method data tid during c).1 = inr result) ∨
     (∃ message, (ServiceCaller.call method data tid during c).1
                 = inl (Exception message)) ∨
     (ServiceCaller.call method data tid during c).1 = inl TimeoutError →
     pending_requests (ServiceCaller.call method data tid during c).2 !! tid = None).
Proof.
  intros c. pose proof (table_ok_run es) as Hok. fold c in Hok.
  split; [apply NoDup_fst_map_to_list|]. split; [done|].
  split; [|split].
  - intros now raw t fut o. by apply resolved_entry_removed.
  - intros t. apply cleanup_request_absent.
  - intros method data tid during Hend.
    destruct (has_client c) eqn:Hclient; [by apply call_leaves_no_entry|].
    destruct (call_not_published method data tid during c Hok Hclient) as [Hr _].
    rewrite Hr in Hend. by destruct Hend as [[? ?]|[[? ?]|?]].
Qed.

(** ** Progress correlation *)

Lemma in_str_set_hashable v S :
  hashable v = true → in_str_set v S = inr (existsb (eq_str v) S).
Proof. unfold in_str_set. by intros ->. Qed.

Lemma in_str_set_true v S : in_str_set v S = inr true → existsb (eq_str v) S = true.
Proof. unfold in_str_set. destruct (hashable v); [by intros [= ->]|done]. Qed.

Lemma wait_returns expected timeout start reads p :
  wait_for_flyto_event expected timeout start reads = Some (inr p) →
  matches_id expected p = true ∧ is_terminal p = true ∧
  ∃ now, (now, p) ∈ reads ∧ (now - start ≤ timeout)%Qc.
Proof.
  induction reads as [|[now q] reads IH]; simpl; [done|].
  case_decide as Hto; [done|].
  destruct (eq_str (field "fly_to_id" q) expected) eqn:Hid.
  - destruct (in_str_set _ _) as [e|[|]] eqn:Hst; [done| |].
    + intros [= <-]. split; [done|]. split; [by apply in_str_set_true|].
      exists now. split; [by left|]. by apply Qcle_ngt.
    + intros H. destruct (IH H) as (? & ? & now' & ? & ?).
      split; [done|]. split; [done|]. exists now'. split; [by right|done].
  - intros H. destruct (IH H) as (? & ? & now' & ? & ?).
    split; [done|]. split; [done|]. exists now'. split; [by right|done].
Qed.

Lemma wait_times_out expected timeout start before now p after :
  (timeout < now - start)%Qc →
  Forall (λ r, matches_id expected r.2 && is_terminal r.2 = false) before →
  Forall (λ r, matches_id expected r.2 = true →
               hashable (field "status" r.2) = true) before →
  wait_for_flyto_event expected timeout start (before ++ (now, p) :: after)
    = Some (inl TimeoutError).
Proof.
  intros Hlate. induction before as [|[now' q] before IH]; intros Hno Hty; simpl.
  - by rewrite decide_True.
  - apply Forall_cons in Hno as [Hq Hno]. apply Forall_cons in Hty as [Hh Hty].
    cbn [snd] in Hq, Hh. case_decide; [done|].
    unfold matches_id, is_terminal in Hq, Hh.
    destruct (eq_str (field "fly_to_id" q) expected).
    + rewrite (in_str_set_hashable _ _ (Hh eq_refl)).
      rewrite andb_true_l in Hq. rewrite Hq. by apply IH.
    + by apply IH.
Qed.

Lemma wait_raises expected timeout start before now p after :
  (now - start ≤ timeout)%Qc →
  Forall (λ r, (r.1 - start ≤ timeout)%Qc) before →
  Forall (λ r, matches_id expected r.2 && is_terminal r.2 = false) before →
  Forall (λ r, matches_id expected r.2 = true →
               hashable (field "status" r.2) = true) before →
  matches_id expected p = true → hashable (field "status" p) = false →
  wait_for_flyto_event expected timeout start (before ++ (now, p) :: after)
    = Some (inl TypeError).
Proof.
  intros Hin. induction before as [|[now' q] before IH];
    intros Hbound Hno Hty Hid Hbad; simpl.
  - rewrite decide_False by (by apply Qcle_not_lt).
    unfold matches_id in Hid. rewrite Hid. unfold in_str_set. by rewrite Hbad.
  - apply Forall_cons in Hbound as [Hb Hbound].
    apply Forall_cons in Hno as [Hq Hno]. apply Forall_cons in Hty as [Hh Hty].
    cbn [fst snd] in Hb, Hq, Hh. rewrite decide_False by (by apply Qcle_not_lt).
    unfold matches_id, is_terminal in Hq, Hh.
    destruct (eq_str (field "fly_to_id" q) expected).
    + rewrite (in_str_set_hashable _ _ (Hh eq_refl)).
      rewrite andb_true_l in Hq. rewrite Hq. by apply IH.
    + by apply IH.
Qed.

(** C4. [wait_for_flyto_event] returns a record only if that
    record was read within the bound, carries the expected task id and
    has a terminal status; a record with another task id is never
    returned; if the clock passes the bound before any read showed a
    matching terminal record, the wait raises [TimeoutError], provided
    each record of the expected id read until then had a status that can
    be hashed; and a record of the expected id whose status cannot be (a
    JSON array or object), read within the bound, makes the wait raise
    [TypeError] there. *)
Theorem flyto_wait_correlates (expected : string) (timeout start : Qc)
    (reads : list (Qc * gmap string pyval)) :
  (∀ p, wait_for_flyto_event expected timeout start reads = Some (inr p) →
        matches_id expected p = true ∧ is_terminal p = true ∧
        ∃ now, (now, p) ∈ reads ∧ (now - start ≤ timeout)%Qc) ∧
  (∀ p, matches_id expected p = false →
        wait_for_flyto_event expected timeout start reads ≠ Some (inr p)) ∧
  (∀ before now p after,
     reads = (before ++ (now, p) :: after)%list →
     (timeout < now - start)%Qc →
     Forall (λ r, matches_id expected r.2 && is_terminal r.2 = false) before →
     Forall (λ r, matches_id expected r.2 = true →
                  hashable (field "status" r.2) = true) before →
     wait_for_flyto_event expected timeout start reads = Some (inl TimeoutError)) ∧
  (∀ before now p after,
     reads = (before ++ (now, p) :: after)%list →
     (now - start ≤ timeout)%Qc →
     Forall (λ r, (r.1 - start ≤ timeout)%Qc) before →
     Forall (λ r, matches_id expected r.2 && is_terminal r.2 = false) before →
     Forall (λ r, matches_id expected r.2 = true →
                  hashable (field "status" r.2) = true) before →
     matches_id expected p = true → hashable (field "status" p) = false →
     wait_for_flyto_event expected timeout start reads = Some (inl TypeError)).
Proof.
  split; [|split; [|split]].
  - intros p. apply wait_returns.
  - intros p Hne Hret. apply wait_returns in Hret as [Hid _]. congruence.
  - intros before now p after -> Hlate Hno Hty. by apply wait_times_out.
  - intros before now p after -> Hin Hbound Hno Hty Hid Hbad. by apply wait_raises.
Qed.

(** ** Heartbeat schedule *)

Section HeartbeatSchedule.
Import Heartbeat.
Local Open Scope Qc_scope.

Variable interval : Qc.
Hypothesis interval_nonneg : 0 ≤ interval.

Lemma py_min_remaining (a : Qc) : a ≤ interval → py_min interval a = a.
Proof.
  intros Ha. unfold py_min. case_decide as Hlt; [done|].
  apply Qcnot_lt_le in Hlt. by apply Qcle_antisym.
Qed.

Lemma turn_on_schedule t now s :
  t ≤ now → next_tick s ≤ t + interval →
  on_schedule interval
    (Entry now (next_tick s) (turn interval now s).1
       (next_tick (turn interval now s).2)) ∧
  next_tick (turn interval now s).2 ≤ now + interval.
Proof.
  intros Ht Hs. unfold turn, on_schedule.
  case_decide as Hlt; simpl.
  - split; [|qc_lra]. split; [done|]. split; [|done].
    apply py_min_remaining. qc_lra.
  - apply Qcnot_lt_le in Hlt. split.
    + split; [done|].
      destruct (decide (next_tick s + interval < now)) as [H1|H1];
        destruct (decide (interval < now - next_tick s)) as [H2|H2]; try done.
      * exfalso. apply H2. qc_lra.
      * exfalso. apply H1. qc_lra.
    + case_decide as H1; [apply Qcle_refl|]. qc_lra.
Qed.

Lemma turns_on_schedule clock : ∀ t s,
  monotone t clock → next_tick s ≤ t + interval →
  Forall (on_schedule interval) (turns interval clock s).1.
Proof.
  induction clock as [|now clock IH]; intros t s Hmono Hs; simpl; [constructor|].
  destruct Hmono as [Ht Hmono].
  destruct (turn_on_schedule t now s Ht Hs) as [Hon Hnext].
  destruct (turn interval now s) as [a s'] eqn:Hturn. simpl in Hon, Hnext.
  specialize (IH now s' Hmono Hnext).
  destruct (turns interval clock s') as [log s'']. simpl in *.
  by constructor.
Qed.

End HeartbeatSchedule.

Section HeartbeatLog.
Import Heartbeat.

(** The log has one entry per clock reading, in order, and the deadlines
    in it form a chain. *)
Lemma turns_log interval clock : ∀ s,
  at_clock <$> (turns interval clock s).1 = clock ∧
  chained (next_tick s) (turns interval clock s).1.
Proof.
  induction clock as [|now clock IH]; intros s; simpl; [done|].
  destruct (turn interval now s) as [a s'] eqn:Hturn.
  destruct (IH s') as [Hat Hchain].
  destruct (turns interval clock s') as [log s'']. simpl in *.
  split; [by f_equal|done].
Qed.

End HeartbeatLog.

(** C8. Under a clock that never goes backwards and a non-negative
    interval, the heartbeat loop takes one turn per clock reading, each
    turn starting from the deadline the turn before it left (the first
    from the initial reading), and every turn keeps the schedule: a turn
    taken before the deadline sleeps exactly the time left to it and
    leaves the deadline alone; a turn taken at or after it publishes and
    sets the next deadline to the previous deadline plus one interval,
    and to the clock plus one interval only when the clock is more than
    one interval past the previous deadline. *)
Theorem heartbeat_keeps_deadline (interval t0 : Qc) (seq0 : Z) (clock : list Qc) :
  (0 ≤ interval)%Qc →
  Heartbeat.monotone t0 clock →
  let log := (Heartbeat.heartbeat_loop interval t0 seq0 clock).1 in
  Heartbeat.at_clock <$> log = clock ∧
  Heartbeat.chained t0 log ∧
  Forall (Heartbeat.on_schedule interval) log.
Proof.
  intros Hi Hmono log. subst log. unfold Heartbeat.heartbeat_loop.
  destruct (turns_log interval clock (Heartbeat.Lease t0 seq0)) as [Hat Hchain].
  split; [done|]. split; [done|].
  apply (turns_on_schedule interval Hi clock t0); [done|]. simpl. qc_lra.
Qed.

(** ** Frequency window and online check *)

Section FrequencyWindow.
Local Open Scope Qc_scope.

Lemma Qc_pos_nonzero (x : Qc) : 0 < x → x ≠ 0.
Proof. intros H ->. by apply (Qclt_not_eq 0 0). Qed.

Lemma rate_of_span c a b :
  (2 ≤ length (_osd_timestamps c))%nat →
  head (_osd_timestamps c) = Some a → last (_osd_timestamps c) = Some b →
  b - a ≠ 0 →
  get_osd_frequency c = Qc_of_Z (Z.of_nat (length (_osd_timestamps c)) - 1) / (b - a).
Proof.
  intros Hlen Ha Hb Hspan. unfold get_osd_frequency.
  rewrite Ha, Hb. simpl.
  rewrite decide_False by lia. by rewrite decide_False.
Qed.

Lemma rate_too_few c :
  (length (_osd_timestamps c) < 2)%nat → get_osd_frequency c = 0.
Proof. intros Hlen. unfold get_osd_frequency. by rewrite decide_True. Qed.

Lemma length_uniform N t0 D : length (uniform N t0 D) = N.
Proof. unfold uniform. by rewrite length_fmap, length_seq. Qed.

Lemma lookup_uniform N t0 D i :
  (i < N)%nat →
  uniform N t0 D !! i
    = Some (t0 + Qc_of_Z (Z.of_nat i) * (D / Qc_of_Z (Z.of_nat N - 1))).
Proof.
  intros Hi. unfold uniform. rewrite list_lookup_fmap, lookup_seq_lt by done.
  done.
Qed.

Lemma steps_nonzero N : (2 ≤ N)%nat → Qc_of_Z (Z.of_nat N - 1) ≠ 0.
Proof.
  intros HN. rewrite <-Z2Qc_inj_0. intros H%Z2Qc_inj. lia.
Qed.

Lemma steps_positive N : (2 ≤ N)%nat → 0 < Qc_of_Z (Z.of_nat N - 1).
Proof. intros HN. rewrite <-Z2Qc_inj_0. apply (proj1 (Z2Qc_inj_lt 0 _)). lia. Qed.

Lemma head_uniform N t0 D : (1 ≤ N)%nat → head (uniform N t0 D) = Some t0.
Proof.
  intros HN. rewrite head_lookup, lookup_uniform by lia.
  f_equal. change (Z.of_nat 0) with 0%Z. rewrite Z2Qc_inj_0. ring.
Qed.

Lemma last_uniform N t0 D : (2 ≤ N)%nat → last (uniform N t0 D) = Some (t0 + D).
Proof.
  intros HN. rewrite last_lookup, length_uniform, lookup_uniform by lia.
  f_equal. replace (Z.of_nat (pred N)) with (Z.of_nat N - 1)%Z by lia.
  field. by apply steps_nonzero.
Qed.

Lemma rate_uniform c N t0 D :
  (2 ≤ N)%nat → 0 < D → _osd_timestamps c = uniform N t0 D →
  get_osd_frequency c = Qc_of_Z (Z.of_nat N - 1) / D.
Proof.
  intros HN HD Hts.
  rewrite (rate_of_span c t0 (t0 + D)).
  - rewrite Hts, length_uniform. f_equal. ring.
  - rewrite Hts, length_uniform. done.
  - rewrite Hts. apply head_uniform. lia.
  - rewrite Hts. by apply last_uniform.
  - replace (t0 + D - t0) with D by ring. by apply Qc_pos_nonzero.
Qed.

Lemma within_1_percent_refl x : 0 ≤ x → within_1_percent x x.
Proof.
  intros Hx. unfold within_1_percent.
  replace (x - x) with 0 by ring. rewrite Qcmult_0_r. done.
Qed.

Lemma uniform_rate_nonneg N D :
  (2 ≤ N)%nat → 0 < D → 0 ≤ Qc_of_Z (Z.of_nat N - 1) / D.
Proof.
  intros HN HD. apply Qcmult_nonneg_nonneg.
  - apply Qclt_le_weak. by apply steps_positive.
  - apply Qclt_le_weak. by apply Qcinv_pos.
Qed.

(** Pushes that all fall inside the window of the oldest kept timestamp
    are all kept. *)
Lemma evict_keeps now window a ts :
  head ts = Some a → now - a ≤ window → evict now window ts = ts.
Proof.
  destruct ts as [|t ts]; [done|]. intros [= ->] Hle. simpl.
  rewrite decide_False; [done|]. by apply Qcle_not_lt.
Qed.

Lemma osd_push_clock t d c :
  _osd_timestamps (_on_message t (inr (osd_push (PDict d))) c)
    = evict t (_freq_window c) (_osd_timestamps c ++ [t]) ∧
  _last_osd_time (_on_message t (inr (osd_push (PDict d))) c) = t ∧
  _freq_window (_on_message t (inr (osd_push (PDict d))) c) = _freq_window c.
Proof.
  unfold _on_message, osd_push, on_osd. simpl.
  by destruct (negb _ && _).
Qed.

Lemma dispatch_pushes l : ∀ c a,
  head (_osd_timestamps c ++ l) = Some a →
  Forall (λ x, x - a ≤ _freq_window c) l →
  _osd_timestamps (dispatch (pushes l) c) = (_osd_timestamps c ++ l)%list.
Proof.
  induction l as [|x l IH]; intros c a Ha Hfit.
  - simpl. by rewrite app_nil_r.
  - apply Forall_cons in Hfit as [Hx Hfit].
    destruct (osd_push_clock x [] c) as (Hts & _ & Hw).
    assert (head (_osd_timestamps c ++ [x]) = Some a) as Ha'.
    { destruct (_osd_timestamps c); simpl in *; done. }
    rewrite (evict_keeps _ _ a) in Hts by done.
    change (dispatch (pushes (x :: l)) c)
      with (dispatch (pushes l) (_on_message x (inr (osd_push (PDict []))) c)).
    rewrite (IH _ a).
    + by rewrite Hts, <-app_assoc.
    + by rewrite Hts, <-app_assoc.
    + by rewrite Hw.
Qed.

Lemma uniform_fits N t0 D w :
  (2 ≤ N)%nat → 0 < D → D ≤ w → Forall (λ x, x - t0 ≤ w) (uniform N t0 D).
Proof.
  intros HN HD Hw. apply Forall_lookup_2. intros i x Hi.
  assert (i < N)%nat as HiN.
  { apply lookup_lt_Some in Hi. by rewrite length_uniform in Hi. }
  rewrite lookup_uniform in Hi by done. injection Hi as <-.
  apply Qcle_trans with D; [|done].
  replace (t0 + Qc_of_Z (Z.of_nat i) * (D / Qc_of_Z (Z.of_nat N - 1)) - t0)
    with (Qc_of_Z (Z.of_nat i) * (D / Qc_of_Z (Z.of_nat N - 1))) by ring.
  assert (Qc_of_Z (Z.of_nat N - 1) * (D / Qc_of_Z (Z.of_nat N - 1)) = D) as Hfull
    by (field; by apply steps_nonzero).
  apply (Qcle_trans _ (Qc_of_Z (Z.of_nat N - 1) * (D / Qc_of_Z (Z.of_nat N - 1)))).
  - apply Qcmult_le_compat_r.
    + apply (proj1 (Z2Qc_inj_le _ _)). lia.
    + apply Qcmult_nonneg_nonneg; [by apply Qclt_le_weak|].
      apply Qclt_le_weak, Qcinv_pos. by apply steps_positive.
  - rewrite Hfull. apply Qcle_refl.
Qed.

Lemma inject_uniform N t0 D :
  (2 ≤ N)%nat → 0 < D → D ≤ _freq_window init →
  _osd_timestamps (dispatch (pushes (uniform N t0 D)) init) = uniform N t0 D.
Proof.
  intros HN HD Hw.
  apply (dispatch_pushes (uniform N t0 D) init t0).
  - simpl. apply head_uniform. lia.
  - by apply uniform_fits.
Qed.

End FrequencyWindow.

(** C9. [get_osd_frequency] is [0] when fewer than two timestamps are
    recorded; when the recorded timestamps are [N ≥ 2] values spread
    evenly over [D > 0] seconds it is exactly [(N - 1) / D], hence within
    one percent of it; and [N] pushes spread evenly over a [D] that fits
    the window are all recorded. *)
Theorem frequency_window_rate :
  (∀ c, (length (_osd_timestamps c) < 2)%nat → get_osd_frequency c = 0%Qc) ∧
  (∀ c N t0 D,
     (2 ≤ N)%nat → (0 < D)%Qc → _osd_timestamps c = uniform N t0 D →
     get_osd_frequency c = (Qc_of_Z (Z.of_nat N - 1) / D)%Qc ∧
     within_1_percent (get_osd_frequency c) (Qc_of_Z (Z.of_nat N - 1) / D)%Qc) ∧
  (∀ N t0 D,
     (2 ≤ N)%nat → (0 < D)%Qc → (D ≤ _freq_window init)%Qc →
     _osd_timestamps (dispatch (pushes (uniform N t0 D)) init) = uniform N t0 D).
Proof.
  split; [apply rate_too_few|]. split; [|apply inject_uniform].
  intros c N t0 D HN HD Hts.
  rewrite (rate_uniform c N t0 D HN HD Hts). split; [done|].
  apply within_1_percent_refl. by apply uniform_rate_nonneg.
Qed.

(** Only an accepted OSD push touches the arrival clock. *)
Lemma on_reply_clock payload c :
  _last_osd_time (on_reply payload c) = _last_osd_time c.
Proof.
  unfold on_reply.
  repeat match goal with
         | |- context [match ?v with _ => _ end] => destruct v; simpl
         end; done.
Qed.

Lemma other_message_clock now raw c :
  is_osd_push (now, raw) = false →
  _last_osd_time (_on_message now raw c) = _last_osd_time c.
Proof.
  unfold is_osd_push. simpl.
  destruct raw as [e|[| | | | | |payload]]; try done.
  unfold _on_message.
  destruct (eq_str (dget "method" payload) "osd_info_push"); simpl.
  { unfold on_osd. by destruct (dget_or "data" _ payload). }
  intros _.
  repeat match goal with
         | |- context [if eq_str ?a ?b then _ else _] => destruct (eq_str a b)
         end;
    try apply on_reply_clock;
    unfold on_hsi, on_batteries, on_drone_state, on_topo, on_camera_osd, on_flyto;
    repeat match goal with
           | |- context [match ?v with _ => _ end] => destruct v; simpl
           end; done.
Qed.

Lemma other_messages_clock msgs : ∀ c,
  Forall (λ m, is_osd_push m = false) msgs →
  _last_osd_time (dispatch msgs c) = _last_osd_time c.
Proof.
  induction msgs as [|[now raw] msgs IH]; intros c Hno; [done|].
  apply Forall_cons in Hno as [Hm Hno].
  change (dispatch ((now, raw) :: msgs) c)
    with (dispatch msgs (_on_message now raw c)).
  rewrite IH by done. by apply other_message_clock.
Qed.

Lemma dispatch_app msgs1 msgs2 c :
  dispatch (msgs1 ++ msgs2) c = dispatch msgs2 (dispatch msgs1 c).
Proof. apply foldl_app. Qed.

(** C10. While no OSD push has been accepted, [is_online] answers [False]
    for every clock reading and every timeout; once one has been accepted
    (at a clock reading other than the initial value [0] of
    [_last_osd_time]), it answers by comparing the time since the latest
    one with the timeout. *)
Theorem online_needs_osd :
  (∀ msgs now timeout,
     Forall (λ m, is_osd_push m = false) msgs →
     is_online now timeout (dispatch msgs init) = false) ∧
  (∀ earlier t d later c now timeout,
     t ≠ 0%Qc →
     Forall (λ m, is_osd_push m = false) later →
     is_online now timeout
       (dispatch (earlier ++ (t, inr (osd_push (PDict d))) :: later) c)
     = bool_decide (now - t < timeout)%Qc).
Proof.
  split.
  - intros msgs now timeout Hno. unfold is_online.
    rewrite other_messages_clock by done. by rewrite decide_True.
  - intros earlier t d later c now timeout Ht Hno. unfold is_online.
    rewrite dispatch_app.
    change (dispatch ((t, inr (osd_push (PDict d))) :: later) (dispatch earlier c))
      with (dispatch later (_on_message t (inr (osd_push (PDict d))) (dispatch earlier c))).
    rewrite other_messages_clock by done.
    destruct (osd_push_clock t d (dispatch earlier c)) as (_ & -> & _).
    by rewrite decide_False.
Qed.

(** ** Connection-health monitor *)

Section Monitor.
Import DRCConnectionManager.

Lemma replay_snoc l : ∀ s s' a,
  replay s l = Some s' →
  replay s (l ++ [a]) =
    match a with
    | Changed old new => if decide (old = s') then Some new else None
    | Attempt _ _ => Some s'
    end.
Proof.
  induction l as [|b l IH]; intros s s' a; simpl.
  - intros [= ->]. by destruct a.
  - destruct b as [old new|k ok]; [case_decide; [|done]|]; apply IH.
Qed.

Lemma set_state_history new m :
  history_ok m → allowed (state m) new ∨ state m = new →
  history_ok (_set_state new m).
Proof.
  intros [Hall Hrep] Hstep. unfold _set_state.
  case_decide as Hne; [done|].
  destruct Hstep as [Hstep|?]; [|done].
  split; simpl.
  - apply Forall_app. split; [done|]. by constructor.
  - rewrite (replay_snoc _ _ _ _ Hrep). by rewrite decide_True.
Qed.

Lemma set_state_state new m : state (_set_state new m) = new.
Proof. unfold _set_state. by case_decide. Qed.

Lemma set_state_flag new m : stop_flag (_set_state new m) = stop_flag m.
Proof. unfold _set_state. by case_decide. Qed.

Lemma record_history k ok m : history_ok m → history_ok (record (Attempt k ok) m).
Proof.
  intros [Hall Hrep]. split; simpl.
  - apply Forall_app. split; [done|]. by constructor.
  - by rewrite (replay_snoc _ _ _ _ Hrep).
Qed.

(** After the retry loop the monitor is ONLINE or OFFLINE, or it has been
    told to stop. *)
Lemma retry_history w i attempts : ∀ m,
  state m = RECONNECTING → history_ok m →
  history_ok (retry w i attempts m) ∧
  (state (retry w i attempts m) ≠ RECONNECTING ∨
   stop_flag (retry w i attempts m) = true).
Proof.
  induction attempts as [|k attempts IH]; intros m Hst Hok; simpl.
  - split.
    + apply set_state_history; [done|]. left. rewrite Hst. constructor.
    + left. by rewrite set_state_state.
  - destruct (stop_flag m || stop_called w i k) eqn:Hstop.
    { split; [done|]. by right. }
    destruct (_reconnect_drc w i k).
    + split.
      * apply set_state_history; [by apply record_history|].
        left. simpl. rewrite Hst. constructor.
      * left. by rewrite set_state_state.
    + apply IH; [done|]. by apply (record_history k false (check_stop w i k m)).
Qed.

Lemma poll_history w i m :
  history_ok m → history_ok (poll w i m).
Proof.
  intros Hok. unfold poll.
  destruct (negb (telemetry w i 0)).
  - case_decide as Hst; [|done].
    apply retry_history.
    + by rewrite set_state_state.
    + apply set_state_history; [done|]. left. rewrite Hst. constructor.
  - case_decide as Hst; [|done].
    apply set_state_history; [done|]. left. rewrite Hst. constructor.
Qed.

Lemma monitor_loop_history w turns : ∀ i m,
  history_ok m → history_ok (_monitor_loop w turns i m).
Proof.
  induction turns as [|turns IH]; intros i m Hok; simpl; [done|].
  destruct (stop_flag m || stop_called w i 0); [done|].
  apply IH. apply (poll_history w i (check_stop w i 0 m)). done.
Qed.

(** C5. In every execution of the monitor from its initial state, each
    change of state is one of ONLINE→RECONNECTING, RECONNECTING→ONLINE,
    RECONNECTING→OFFLINE, each starts from the state the previous one
    reached, no change goes from ONLINE to OFFLINE, and every change to
    OFFLINE comes from RECONNECTING. *)
Theorem never_online_to_offline (w : world) (turns : nat) (attempts : Z) :
  let m := _monitor_loop w turns 0 (initial attempts) in
  Forall allowed_action (log m) ∧
  replay ONLINE (log m) = Some (state m) ∧
  (Changed ONLINE OFFLINE ∉ log m) ∧
  (∀ old, Changed old OFFLINE ∈ log m → old = RECONNECTING).
Proof.
  intros m.
  destruct (monitor_loop_history w turns 0 (initial attempts)) as [Hall Hrep];
    [by split; [constructor|]|].
  split; [done|]. split; [done|].
  rewrite Forall_forall in Hall. split.
  - intros Hin. apply Hall in Hin. inversion Hin.
  - intros old Hin. apply Hall in Hin. by inversion Hin.
Qed.

End Monitor.

Section MonitorBudget.
Import DRCConnectionManager.

(** The retry loop when nobody stops it and every attempt fails. *)
Lemma retry_all_fail w i attempts : ∀ m,
  state m = RECONNECTING → stop_flag m = false →
  Forall (λ k, stop_called w i k = false ∧ _reconnect_drc w i k = false) attempts →
  retry w i attempts m =
    Manager OFFLINE false (reconnect_attempts m)
      (log m ++ ((λ k, Attempt k false) <$> attempts)
             ++ [Changed RECONNECTING OFFLINE]).
Proof.
  induction attempts as [|k attempts IH]; intros m Hst Hflag Hfail; simpl.
  - unfold _set_state. rewrite decide_False by (by rewrite Hst).
    by rewrite Hst, Hflag.
  - apply Forall_cons in Hfail as [[Hstop Hre] Hfail].
    rewrite Hflag, Hstop, Hre. simpl.
    rewrite IH; simpl; [|done|by rewrite Hflag, Hstop|done].
    by rewrite <-app_assoc.
Qed.

Lemma poll_exhausts w i m :
  state m = ONLINE → stop_flag m = false → telemetry w i 0 = false →
  Forall (λ k, stop_called w i k = false ∧ _reconnect_drc w i k = false)
    (seqZ 1 (reconnect_attempts m)) →
  poll w i m =
    Manager OFFLINE false (reconnect_attempts m)
      (log m ++ [Changed ONLINE RECONNECTING]
             ++ ((λ k, Attempt k false) <$> seqZ 1 (reconnect_attempts m))
             ++ [Changed RECONNECTING OFFLINE]).
Proof.
  intros Hst Hflag Htel Hfail. unfold poll.
  rewrite Htel. simpl. rewrite decide_True by done.
  unfold _set_state at 1. rewrite decide_False by (by rewrite Hst).
  rewrite retry_all_fail; simpl; try done.
  by rewrite Hst, <-app_assoc.
Qed.

(** OFFLINE is left by no turn of the loop. *)
Lemma poll_offline w i m : state m = OFFLINE → poll w i m = m.
Proof.
  intros Hst. unfold poll.
  destruct (negb (telemetry w i 0)); rewrite decide_False; try done;
    by rewrite Hst.
Qed.

Lemma monitor_loop_offline w turns : ∀ i m,
  state m = OFFLINE →
  state (_monitor_loop w turns i m) = OFFLINE ∧
  log (_monitor_loop w turns i m) = log m.
Proof.
  induction turns as [|turns IH]; intros i m Hst; simpl; [done|].
  destruct (stop_flag m || stop_called w i 0); [done|].
  rewrite poll_offline by done. apply (IH (S i) (check_stop w i 0 m)). done.
Qed.

(** At the top of a turn that runs, the monitor is never RECONNECTING,
    and every return to ONLINE was earned by a successful attempt. *)
Lemma recoveries_earned_snoc l : ∀ prev a,
  recoveries_earned prev l →
  (a = Changed RECONNECTING ONLINE →
   ∃ k, last_action prev l = Some (Attempt k true)) →
  recoveries_earned prev (l ++ [a]).
Proof.
  induction l as [|b l IH]; intros prev a Hl Ha; simpl in *.
  - split; [|done]. intros Heq. by destruct (Ha Heq) as [k Hk]; eauto.
  - destruct Hl as [Hb Hl]. split; [done|]. apply IH; [done|].
    intros Heq. destruct (Ha Heq) as [k Hk]. exists k.
    unfold last_action in *. rewrite last_cons in Hk. by destruct (last l).
Qed.

Lemma recoveries_earned_split l1 : ∀ prev a l2,
  recoveries_earned prev (l1 ++ a :: l2) →
  a = Changed RECONNECTING ONLINE →
  ∃ k, last_action prev l1 = Some (Attempt k true).
Proof.
  induction l1 as [|b l1 IH]; intros prev a l2; simpl.
  - intros [Ha _] Heq. by apply Ha.
  - intros [_ Hl] Heq. destruct (IH _ _ _ Hl Heq) as [k Hk]. exists k.
    unfold last_action in *. rewrite last_cons. by destruct (last l1).
Qed.

Lemma set_state_earned new m :
  earned_ok m →
  (state m = RECONNECTING → new = ONLINE →
   ∃ k, last_action None (log m) = Some (Attempt k true)) →
  earned_ok (_set_state new m).
Proof.
  intros Hok Hnew. unfold _set_state. case_decide as Hne; [done|].
  unfold earned_ok. simpl. apply recoveries_earned_snoc; [done|].
  intros [= Hold ->]. by apply Hnew.
Qed.

Lemma record_earned k ok m : earned_ok m → earned_ok (record (Attempt k ok) m).
Proof.
  intros Hok. unfold earned_ok. simpl.
  by apply recoveries_earned_snoc.
Qed.

Lemma retry_earned w i attempts : ∀ m,
  earned_ok m → earned_ok (retry w i attempts m).
Proof.
  induction attempts as [|k attempts IH]; intros m Hok; simpl.
  - by apply set_state_earned.
  - destruct (stop_flag m || stop_called w i k); [done|].
    destruct (_reconnect_drc w i k).
    + apply set_state_earned; [by apply (record_earned k true (check_stop w i k m))|].
      intros _ _. exists k. unfold last_action. simpl. by rewrite last_snoc.
    + apply IH. by apply (record_earned k false (check_stop w i k m)).
Qed.

Lemma poll_earned w i m :
  state m ≠ RECONNECTING → history_ok m → earned_ok m →
  earned_ok (poll w i m) ∧
  (state (poll w i m) ≠ RECONNECTING ∨ stop_flag (poll w i m) = true).
Proof.
  intros Hst Hh Hok. unfold poll.
  destruct (negb (telemetry w i 0)).
  - case_decide as Hon; [|by auto].
    split.
    + apply retry_earned, set_state_earned; [done|]. by intros _ [=].
    + apply retry_history.
      * by rewrite set_state_state.
      * apply set_state_history; [done|]. left. rewrite Hon. constructor.
  - rewrite decide_False by done. by auto.
Qed.

Lemma monitor_loop_earned w turns : ∀ i m,
  state m ≠ RECONNECTING ∨ stop_flag m = true →
  history_ok m → earned_ok m →
  earned_ok (_monitor_loop w turns i m).
Proof.
  induction turns as [|turns IH]; intros i m Hst Hh Hok; simpl; [done|].
  destruct (stop_flag m || stop_called w i 0) eqn:Hflag; [done|].
  apply orb_false_elim in Hflag as [Hflag _].
  destruct Hst as [Hst|Hst]; [|congruence].
  destruct (poll_earned w i (check_stop w i 0 m)) as [Hok' Hst']; try done.
  apply IH; [done| |done].
  by apply (poll_history w i (check_stop w i 0 m)).
Qed.

(** In every execution of the monitor, the state returns from
    RECONNECTING to ONLINE only right after a successful re-entry
    attempt. *)
Lemma recovery_needs_reentry w turns attempts l1 l2 :
  log (_monitor_loop w turns 0 (initial attempts))
    = (l1 ++ Changed RECONNECTING ONLINE :: l2)%list →
  ∃ l0 k, l1 = (l0 ++ [Attempt k true])%list.
Proof.
  intros Hlog.
  assert (earned_ok (_monitor_loop w turns 0 (initial attempts))) as Hok.
  { apply monitor_loop_earned; [by left| |done]. by split; [constructor|]. }
  unfold earned_ok in Hok. rewrite Hlog in Hok.
  destruct (recoveries_earned_split _ _ _ _ Hok eq_refl) as [k Hk].
  unfold last_action in Hk. destruct (last l1) as [a|] eqn:Hlast; [|done].
  injection Hk as ->. apply last_Some in Hlast as [l0 ->]. by exists l0, k.
Qed.

(** C6. A poll that finds telemetry silent while ONLINE and is followed by
    [reconnect_attempts] failed attempts, with no stop request, ends in
    OFFLINE, having made exactly those attempts; and from OFFLINE the
    monitor loop, however long it runs and whatever telemetry does,
    stays OFFLINE and adds nothing to its log: no change, no attempt. *)
Theorem offline_after_budget :
  (∀ w i m,
     state m = ONLINE →
     stop_flag m = false →
     telemetry w i 0 = false →
     Forall (λ k, stop_called w i k = false ∧ _reconnect_drc w i k = false)
       (seqZ 1 (reconnect_attempts m)) →
     poll w i m =
       Manager OFFLINE false (reconnect_attempts m)
         (log m ++ [Changed ONLINE RECONNECTING]
                ++ ((λ k, Attempt k false) <$> seqZ 1 (reconnect_attempts m))
                ++ [Changed RECONNECTING OFFLINE])%list) ∧
  (∀ w turns i m,
     state m = OFFLINE →
     state (_monitor_loop w turns i m) = OFFLINE ∧
     log (_monitor_loop w turns i m) = log m).
Proof.
  split.
  - intros w i m. apply poll_exhausts.
  - intros w turns i m. apply monitor_loop_offline.
Qed.

(** C7. With two attempts allowed, telemetry silent at the first poll and
    back from the first attempt on, and both re-entry attempts failing,
    the monitor makes both attempts and settles in OFFLINE; it does not
    return to ONLINE, during the retry loop or at the later polls. *)
Theorem resumed_telemetry_is_ignored :
  telemetry telemetry_resumes 0 1 = true ∧
  telemetry telemetry_resumes 1 0 = true ∧
  _monitor_loop telemetry_resumes 3 0 (initial 2)
  = Manager OFFLINE false 2
      [Changed ONLINE RECONNECTING; Attempt 1 false; Attempt 2 false;
       Changed RECONNECTING OFFLINE].
Proof. by repeat split. Qed.

End MonitorBudget.

(** * More properties *)

Import PyMore Accessors Commands Waits Observations.

(** ** The two paths of [_on_message] *)

Lemma telemetry_keeps_table now payload c :
  is_telemetry (now, inr (PDict payload)) = true →
  same_table (_on_message now (inr (PDict payload)) c) c.
Proof.
  unfold is_telemetry, telemetry_methods, _on_message. simpl.
  destruct (eq_str (dget "method" payload) "osd_info_push"); [intros; apply on_osd_table|].
  destruct (eq_str (dget "method" payload) "hsi_info_push"); [intros; apply on_hsi_table|].
  destruct (eq_str (dget "method" payload) "drc_batteries_info_push"); [intros; apply on_batteries_table|].
  destruct (eq_str (dget "method" payload) "drc_drone_state_push"); [intros; apply on_drone_state_table|].
  destruct (eq_str (dget "method" payload) "update_topo"); [intros; apply on_topo_table|].
  destruct (eq_str (dget "method" payload) "drc_camera_osd_info_push"); [intros; apply on_camera_osd_table|].
  destruct (eq_str (dget "method" payload) "fly_to_point_progress"); [intros; apply on_flyto_table|].
  done.
Qed.

Lemma on_reply_cache payload c : same_cache (on_reply payload c) c.
Proof.
  unfold on_reply, same_cache.
  repeat match goal with
         | |- context [match ?v with _ => _ end] => destruct v; simpl
         end; done.
Qed.

Lemma other_keeps_cache m c :
  is_telemetry m = false → same_cache (_on_message m.1 m.2 c) c.
Proof.
  destruct m as [now [e|[| | | | | |payload]]]; try done.
  unfold is_telemetry, telemetry_methods, _on_message. simpl.
  repeat match goal with
         | |- context [eq_str ?a ?b] => destruct (eq_str a b); simpl; try done
         end.
  intros _. apply on_reply_cache.
Qed.

(** X1. A telemetry push never touches the pending table or a future,
    whatever [tid] it carries; any other message never touches the
    telemetry cache or the arrival clock. *)
Theorem message_paths_are_separate (m : inbound) (c : client) :
  (is_telemetry m = true → same_table (_on_message m.1 m.2 c) c) ∧
  (is_telemetry m = false → same_cache (_on_message m.1 m.2 c) c).
Proof.
  split; [|apply other_keeps_cache].
  destruct m as [now [e|[| | | | | |payload]]]; try done.
  apply telemetry_keeps_table.
Qed.

(** ** Replies that find no entry, and futures out of reach *)

Lemma on_message_futures now raw c :
  futures (_on_message now raw c) = futures c ∨
  ∃ t fut o, pending_requests c !! t = Some fut ∧ futures c !! fut = Some Pending ∧
             futures (_on_message now raw c) = <[fut := Done o]> (futures c).
Proof.
  destruct (on_message_cases now raw c)
    as [[_ Hs]|(payload & t & fut & _ & _ & Ht & _ & [Hf|(o & _ & Hp & Hf)])];
    [by left|by left|].
  right. by exists t, fut, o.
Qed.

Lemma on_message_table_subset now raw c t fut :
  pending_requests (_on_message now raw c) !! t = Some fut →
  pending_requests c !! t = Some fut.
Proof.
  destruct (on_message_cases now raw c)
    as [[Hs _]|(payload & t' & fut' & _ & _ & _ & Hd & _)].
  - by rewrite Hs.
  - rewrite Hd. intros H. by apply lookup_delete_Some in H as [_ H].
Qed.

Lemma orphan_on_message fut now raw c :
  orphan fut c → orphan fut (_on_message now raw c).
Proof.
  intros (Hok & Hp & Hout). split; [by apply table_ok_on_message|]. split.
  - destruct (on_message_futures now raw c) as [->|(t & fut' & o & Ht & _ & ->)];
      [done|].
    rewrite list_lookup_insert_ne; [done|]. intros ->. by apply (Hout t).
  - intros t Ht. apply on_message_table_subset in Ht. by apply (Hout t).
Qed.

Lemma orphan_publish fut method data tid c :
  orphan fut c → orphan fut (publish method data tid c).2.
Proof.
  intros (Hok & Hp & Hout). split; [by apply table_ok_publish|].
  rewrite publish_effect. simpl. split.
  - by apply lookup_app_l_Some.
  - intros t. rewrite lookup_insert. case_decide; [|apply Hout].
    intros [= <-]. apply lookup_lt_Some in Hp. lia.
Qed.

Lemma orphan_connect fut c : orphan fut c → orphan fut (connect c).
Proof. intros ([Hp Hu] & ? & ?). by repeat split. Qed.

Lemma orphan_cleanup fut tid c : orphan fut c → orphan fut (cleanup_request tid c).
Proof.
  intros (Hok & Hp & Hout). split; [by apply table_ok_cleanup|]. split; [done|].
  simpl. intros t Ht. apply lookup_delete_Some in Ht as [_ Ht]. by apply (Hout t).
Qed.

Lemma orphan_step fut c e : orphan fut c → orphan fut (step c e).
Proof.
  intros H. destruct e as [|method data tid|m|tid].
  - by apply orphan_connect.
  - by apply (orphan_publish fut method data tid).
  - by apply orphan_on_message.
  - by apply orphan_cleanup.
Qed.

Lemma orphan_steps fut es : ∀ c, orphan fut c → orphan fut (foldl step c es).
Proof.
  induction es as [|e es IH]; intros c H; simpl; [done|].
  by apply IH, orphan_step.
Qed.

Lemma await_orphan fut during : ∀ c,
  orphan fut c → ∃ c', await fut during c = (None, c') ∧ orphan fut c'.
Proof.
  induction during as [|[now raw] during IH]; intros c Ho; simpl.
  - pose proof Ho as (_ & Hp & _). rewrite Hp. eauto.
  - pose proof Ho as (_ & Hp & _). rewrite Hp. apply IH. by apply orphan_on_message.
Qed.

Lemma await_skip tid fut before rest : ∀ c,
  table_ok c → pending_requests c !! tid = Some fut →
  Forall (λ m, is_reply_for tid m = false) before →
  await fut (before ++ rest) c = await fut rest (dispatch before c) ∧
  table_ok (dispatch before c) ∧
  pending_requests (dispatch before c) !! tid = Some fut.
Proof.
  induction before as [|[now raw] before IH]; intros c Hok Hin Hno; [done|].
  apply Forall_cons in Hno as [Hm Hno]. simpl.
  rewrite (entry_pending _ Hok _ _ Hin).
  apply IH; [by apply table_ok_on_message| |done]. by apply entry_survives.
Qed.

(** X2. A reply whose transaction id has no entry changes nothing: neither
    one for an id never issued, nor the late reply to a call that has
    timed out. *)
Theorem late_reply_is_dropped :
  (∀ tid now payload c,
     pending_requests c !! tid = None →
     is_reply_for tid (now, inr (PDict payload)) = true →
     _on_message now (inr (PDict payload)) c = c) ∧
  (∀ method data tid during now payload c,
     reachable c →
     (call method data tid during c).1 = inl TimeoutError →
     is_reply_for tid (now, inr (PDict payload)) = true →
     let c' := (call method data tid during c).2 in
     _on_message now (inr (PDict payload)) c' = c').
Proof.
  split; [apply reply_without_entry|].
  intros method data tid during now payload c Hc Hout Hr c'.
  apply (reply_without_entry tid); [|done].
  subst c'. pose proof (table_ok_reachable _ Hc) as Hok.
  destruct (has_client c) eqn:Hclient; [by apply call_leaves_no_entry|].
  destruct (call_not_published method data tid during c Hok Hclient) as [Hr' _].
  congruence.
Qed.

(** X3. A completed future is final: whatever is connected, issued,
    delivered or cleaned up afterwards, it keeps the outcome it was
    completed with. *)
Theorem completed_future_is_final (es : list event) (c : client) (fut : nat)
    (o : outcome) :
  futures c !! fut = Some (Done o) →
  futures (foldl step c es) !! fut = Some (Done o).
Proof.
  revert c. induction es as [|e es IH]; intros c Hdone; simpl; [done|].
  apply IH. destruct e as [|method data tid|[now raw]|tid]; simpl.
  - done.
  - rewrite publish_effect. simpl. by apply lookup_app_l_Some.
  - destruct (on_message_futures now raw c) as [->|(t & fut' & o' & _ & Hp & ->)];
      [done|].
    rewrite list_lookup_insert_ne; [done|]. intros ->. congruence.
  - done.
Qed.

(** X4. Issuing a second request under a transaction id that is still
    pending puts the first future (the one the first [publish] created,
    and returned if it returned) out of reach: no later message, request
    or clean-up completes it, and a caller waiting on it can only time
    out. *)
Theorem reused_tid_orphans_first (method1 method2 : string) (data1 data2 : pyval)
    (tid : string) (es : list event) (during : list inbound) (c : client) :
  reachable c →
  let first := publish method1 data1 tid c in
  let second := publish method2 data2 tid first.2 in
  let fut := length (futures c) in
  (∀ returned, first.1 = inr returned → returned = fut) ∧
  futures (foldl step second.2 es) !! fut = Some Pending ∧
  (await fut during second.2).1 = None.
Proof.
  intros Hc first second fut.
  assert (orphan fut second.2) as Ho.
  { pose proof (table_ok_reachable _ Hc) as Hok.
    destruct (publish_entry method1 data1 tid c Hok) as (Hok1 & Hin1 & Hp1).
    fold first fut in Hok1, Hin1, Hp1.
    split; [by apply (table_ok_publish method2 data2 tid)|].
    subst second. rewrite publish_effect. split.
    - simpl. by apply lookup_app_l_Some.
    - intros t. simpl. rewrite lookup_insert.
      case_decide as Ht.
      + intros [= Hlen]. apply lookup_lt_Some in Hp1. lia.
      + intros Hin. apply Ht.
        by apply (entry_unique _ Hok1 _ _ _ Hin1 Hin). }
  split; [|split].
  - intros returned. subst first. rewrite publish_returns.
    destruct (has_client c); [by intros [= <-]|done].
  - by apply orphan_steps.
  - by destruct (await_orphan fut during second.2 Ho) as (c' & -> & _).
Qed.

(** ** What a call returns *)

Lemma reply_completes tid fut now payload c :
  table_ok c → tid ≠ "" → pending_requests c !! tid = Some fut →
  is_reply_for tid (now, inr (PDict payload)) = true →
  match verdict payload with
  | inr o => futures (_on_message now (inr (PDict payload)) c) !! fut = Some (Done o)
  | inl _ => orphan fut (_on_message now (inr (PDict payload)) c)
  end.
Proof.
  intros Hok Hne Hin Hr.
  pose proof (table_ok_on_message now (inr (PDict payload)) c Hok) as Hok'.
  destruct (reply_dispatch tid now payload c Hr) as [Heq Htid].
  rewrite Heq in *. revert Hok'. unfold on_reply. rewrite Htid. simpl.
  rewrite (truthy_tid tid Hne), Hin. simpl.
  pose proof (entry_pending _ Hok _ _ Hin) as Hp.
  destruct (verdict payload) as [e|o]; simpl.
  - intros Hok'. split; [done|]. split; [done|]. simpl.
    intros t Ht. apply lookup_delete_Some in Ht as [Hnt Ht].
    apply Hnt. by apply (entry_unique _ Hok _ _ _ Hin Ht).
  - intros _. unfold complete. simpl. rewrite Hp. simpl.
    apply list_lookup_insert_eq. by eapply lookup_lt_Some.
Qed.

Lemma await_done fut o during c :
  futures c !! fut = Some (Done o) → await fut during c = (Some o, c).
Proof. intros H. destruct during; simpl; by rewrite H. Qed.

Lemma await_pending fut m later c :
  futures c !! fut = Some Pending →
  await fut (m :: later) c = await fut later (_on_message m.1 m.2 c).
Proof. intros H. simpl. by rewrite H. Qed.

Lemma call_first_reply method data tid before now payload after c :
  table_ok c → has_client c = true → tid ≠ "" →
  Forall (λ m, is_reply_for tid m = false) before →
  is_reply_for tid (now, inr (PDict payload)) = true →
  (call method data tid (before ++ (now, inr (PDict payload)) :: after) c).1 =
    match verdict payload with
    | inr (Result result) => inr result
    | inr (Raised e) => inl e
    | inl _ => inl TimeoutError
    end.
Proof.
  intros Hok Hclient Hne Hno Hr. rewrite call_with_client by done.
  destruct (publish_entry method (if truthy data then data else PDict []) tid c Hok)
    as (Hok1 & Hin1 & _).
  destruct (await_skip tid _ before ((now, inr (PDict payload)) :: after) _
              Hok1 Hin1 Hno) as (-> & Hok2 & Hin2).
  rewrite await_pending by (by eapply entry_pending). cbn [fst snd].
  pose proof (reply_completes tid _ now payload _ Hok2 Hne Hin2 Hr) as Hdone.
  destruct (verdict payload) as [e|o].
  - by destruct (await_orphan _ after _ Hdone) as (c' & -> & _).
  - rewrite (await_done _ o after _ Hdone). by destruct o as [result|[]].
Qed.

(** An [info] that is truthy and not an object has no [.get]. *)
Lemma verdict_info_not_object payload v :
  assoc "info" payload = Some v → truthy v = true → is_dict v = false →
  verdict payload = inl AttributeError.
Proof.
  intros Hinfo Hv Hd. unfold verdict. cbn zeta.
  assert (dget_or "info" (PDict []) payload = v) as ->
    by (unfold dget_or; by rewrite Hinfo).
  unfold envelope_failed. rewrite Hv. by destruct v.
Qed.

(** X5. The first reply that reaches a waiting [call] decides it,
    whatever comes later. When one of the two encodings signals an error,
    the call raises the carried message if that message prints, and
    times out if printing it raises, the future being left pending with
    its entry gone. When neither does, the call returns the reply's
    [data]. When the reply cannot be inspected, as with an [info] that is
    not an object, the call times out. *)
Theorem call_returns_first_reply (method : string) (data : pyval) (tid : string)
    (before after : list inbound) (now : Qc) (payload : list (string * pyval))
    (c : client) :
  reachable c → has_client c = true → tid ≠ "" →
  Forall (λ m, is_reply_for tid m = false) before →
  is_reply_for tid (now, inr (PDict payload)) = true →
  let r := (call method data tid (before ++ (now, inr (PDict payload)) :: after) c).1 in
  (∀ message,
     envelope_error payload message ∨
     (envelope_silent payload ∧ body_error payload message) →
     r = if markup_error (error_line message) then inl TimeoutError
         else inl (Exception message)) ∧
  (envelope_silent payload → body_silent payload →
     r = inr (dget_or "data" (PDict []) payload)) ∧
  (∀ v, assoc "info" payload = Some v → truthy v = true → is_dict v = false →
     r = inl TimeoutError).
Proof.
  intros Hc Hclient Hne Hno Hr r.
  pose proof (call_first_reply method data tid before now payload after c
                (table_ok_reachable _ Hc) Hclient Hne Hno Hr) as Hcall.
  fold r in Hcall. rewrite Hcall. clear Hcall. split; [|split].
  - intros message [He|[Hs Hb]].
    + rewrite (verdict_envelope_error payload message He).
      by destruct (markup_error _).
    + rewrite (verdict_body_error payload message Hs Hb).
      by destruct (markup_error _).
  - intros Hs Hb. by rewrite (verdict_silent payload Hs Hb).
  - intros v Hinfo Hv Hd. by rewrite (verdict_info_not_object payload v).
Qed.

(** ** [_call_service] *)

Lemma verdict_result payload result :
  verdict payload = inr (Result result) ↔
  envelope_failed (dget_or "info" (PDict []) payload) = inr false ∧
  body_failed (dget_or "data" (PDict []) payload) = inr false ∧
  result = dget_or "data" (PDict []) payload.
Proof.
  split.
  - intros Hv. destruct (verdict_cases payload _ Hv)
      as [(? & _ & ?)|[(? & _ & _ & ?)|(Hs & Hb & Heq)]]; try done.
    injection Heq as ->. split; [by apply envelope_silent_failed|].
    split; [by apply body_silent_failed|done].
  - intros (He & Hb & ->).
    apply (envelope_failed_cases payload false) in He.
    apply (body_failed_cases payload false) in Hb.
    by apply verdict_silent.
Qed.

Lemma body_failed_false_dict d :
  body_failed (PDict d) = inr false ↔
  assoc "result" d = None ∨ ∃ r, assoc "result" d = Some r ∧ ne_zero r = false.
Proof.
  unfold body_failed. simpl. unfold dget, dget_or.
  destruct (assoc "result" d) as [r|]; simpl.
  - split.
    + intros [= H]. right. by exists r.
    + intros [?|(r' & [= <-] & ->)]; done.
  - split; [by left|done].
Qed.

Lemma check_result_ok method result v :
  check_result method result = inr v ↔
  ∃ d r, result = PDict d ∧ assoc "result" d = Some r ∧ ne_zero r = false ∧
         v = dget_or "data" (PDict []) d.
Proof.
  unfold check_result. split.
  - destruct result as [| | | | | |d]; simpl; try done.
    unfold dget, dget_or, eq_zero.
    destruct (assoc "result" d) as [r|] eqn:Hr; simpl.
    + destruct (ne_zero r) eqn:Hne; simpl.
      * match goal with
        | |- match ?X with _ => _ end = _ → _ => by destruct X as [?|[? ?]]
        end.
      * intros [= <-]. by exists d, r.
    + match goal with
      | |- match ?X with _ => _ end = _ → _ => by destruct X as [?|[? ?]]
      end.
  - intros (d & r & -> & Hr & Hne & ->). simpl.
    unfold dget, dget_or, eq_zero. rewrite Hr. simpl. by rewrite Hne.
Qed.

(** [_call_service] returns what the check of the reply returns. *)
Lemma call_service_returns method data tid during c v :
  (_call_service method data tid during c).1 = inr v ↔
  ∃ result,
    (call method (if truthy data then data else PDict []) tid during c).1 = inr result ∧
    check_result method result = inr v.
Proof.
  unfold _call_service.
  destruct (call method _ tid during c) as [[e|result] c']; simpl.
  - split; [done|]. by intros (? & ? & _).
  - destruct (check_result method result) as [f|v'] eqn:Hcheck; simpl.
    + split; [done|]. intros (? & [= <-] & ?). congruence.
    + split; [intros [= <-]; by exists result|].
      intros (? & [= <-] & ?). congruence.
Qed.

(** X6. [_call_service] returns only on a client that has a transport
    and for a reply whose envelope signals no error and whose [data] has
    a [result] equal to [0]; it then returns [data]'s own [data] field
    (an empty dict when absent). *)
Theorem call_service_succeeds_iff (method : string) (data : pyval) (tid : string)
    (before after : list inbound) (now : Qc) (payload : list (string * pyval))
    (c : client) (v : pyval) :
  reachable c → tid ≠ "" →
  Forall (λ m, is_reply_for tid m = false) before →
  is_reply_for tid (now, inr (PDict payload)) = true →
  (_call_service method data tid
     (before ++ (now, inr (PDict payload)) :: after) c).1 = inr v ↔
  has_client c = true ∧
  envelope_failed (dget_or "info" (PDict []) payload) = inr false ∧
  ∃ d r, dget_or "data" (PDict []) payload = PDict d ∧
         assoc "result" d = Some r ∧ ne_zero r = false ∧
         v = dget_or "data" (PDict []) d.
Proof.
  intros Hc Hne Hno Hr. rewrite call_service_returns.
  pose proof (table_ok_reachable _ Hc) as Hok.
  destruct (has_client c) eqn:Hclient.
  - rewrite (call_first_reply method (if truthy data then data else PDict []) tid
               before now payload after c Hok Hclient Hne Hno Hr).
    split.
    + intros (result & Hcall & Hcheck).
      destruct (verdict payload) as [e|[result'|e]] eqn:Hv; simpl in Hcall; try done.
      injection Hcall as ->. apply verdict_result in Hv as (Henv & _ & ->).
      split; [done|]. split; [done|]. by apply check_result_ok in Hcheck.
    + intros (_ & Henv & d & r & Hd & Hres & Hz & ->). exists (PDict d).
      assert (verdict payload = inr (Result (PDict d))) as ->.
      { apply verdict_result. rewrite Hd. split; [done|]. split; [|done].
        apply body_failed_false_dict. right. by exists r. }
      split; [done|]. apply check_result_ok. by exists d, r.
  - destruct (call_not_published method (if truthy data then data else PDict []) tid
                (before ++ (now, inr (PDict payload)) :: after) c Hok Hclient)
      as [Hcall _].
    rewrite Hcall. split; [by intros (? & ? & _)|by intros [? _]].
Qed.

(** How [_call_service] ends on a reply that says no. *)
Lemma call_service_fails method data tid during c d :
  (call method (if truthy data then data else PDict []) tid during c).1
  = inr (PDict d) →
  assoc "result" d = None → assoc "output" d = None →
  let error_msg := dget_or "message" unknown_error d in
  (_call_service method data tid during c).1
  = inl (if markup_error (code_line (PStr "unknown"))
            || markup_error (message_line error_msg)
            || markup_error (response_line (PDict d))
            || markup_error
                 (except_line method
                    (failure_text method (PStr "unknown") error_msg (PDict d)))
         then Escaped MarkupError
         else ServiceFailed method (PStr "unknown") error_msg (PDict d)).
Proof.
  intros Hcall Hres Hout error_msg. unfold _call_service.
  destruct (call method _ tid during c) as [r c']. simpl in Hcall. subst r.
  unfold check_result, get, get_or, dget_or, eq_zero. rewrite Hres, Hout.
  cbn [default from_option ne_zero negb bind_exn].
  unfold bind_exn, print. fold (dget_or "message" unknown_error d). fold error_msg.
  destruct (markup_error (code_line _)); [done|].
  destruct (markup_error (message_line _)); [done|].
  destruct (markup_error (response_line _)); [done|].
  simpl. by destruct (markup_error (except_line _ _)).
Qed.

(** X7. A reply with no error in the envelope and no [result] field in its
    [data] is a success for [call], which returns the [data], and a
    failure for [_call_service]: it raises with the error code
    ['unknown'] when the lines it prints on the way (the code, the
    message, the whole reply, the exception) all print, and raises
    [MarkupError] when one of them does not. *)
Theorem reply_without_result_splits (method : string) (data : pyval) (tid : string)
    (before after : list inbound) (now : Qc) (payload d : list (string * pyval))
    (c : client) :
  reachable c → has_client c = true → tid ≠ "" →
  Forall (λ m, is_reply_for tid m = false) before →
  is_reply_for tid (now, inr (PDict payload)) = true →
  envelope_silent payload →
  assoc "data" payload = Some (PDict d) →
  assoc "result" d = None → assoc "output" d = None →
  let during := (before ++ (now, inr (PDict payload)) :: after)%list in
  let error_msg := dget_or "message" unknown_error d in
  (call method data tid during c).1 = inr (PDict d) ∧
  (_call_service method data tid during c).1
  = inl (if markup_error (code_line (PStr "unknown"))
            || markup_error (message_line error_msg)
            || markup_error (response_line (PDict d))
            || markup_error
                 (except_line method
                    (failure_text method (PStr "unknown") error_msg (PDict d)))
         then Escaped MarkupError
         else ServiceFailed method (PStr "unknown") error_msg (PDict d)).
Proof.
  intros Hc Hclient Hne Hno Hr Henv Hd Hres Hout during error_msg.
  assert (dget_or "data" (PDict []) payload = PDict d) as Hdata
    by (unfold dget_or; by rewrite Hd).
  assert (verdict payload = inr (Result (PDict d))) as Hv.
  { rewrite <- Hdata. apply verdict_silent; [done|]. left.
    rewrite Hdata. simpl. rewrite bool_decide_eq_false_2; [done|].
    rewrite Hres. by intros [? ?]. }
  assert (∀ data', (call method data' tid during c).1 = inr (PDict d)) as Hcall.
  { intros data'. subst during.
    rewrite (call_first_reply method data' tid before now payload after c
               (table_ok_reachable _ Hc) Hclient Hne Hno Hr).
    by rewrite Hv. }
  split; [apply Hcall|]. by apply call_service_fails.
Qed.

(** ** The telemetry cache *)

Ltac handler_cases :=
  repeat match goal with
         | |- context [if eq_str ?a ?b then _ else _] =>
             destruct (eq_str a b) eqn:?; simpl in *; try done
         end.

Ltac lookup_other := rewrite ?lookup_insert_ne by done.

Lemma osd_fields_other m c :
  is_push "osd_info_push" m = false →
  (get_position (_on_message m.1 m.2 c), get_speed (_on_message m.1 m.2 c),
   get_attitude_head (_on_message m.1 m.2 c))
  = (get_position c, get_speed c, get_attitude_head c).
Proof.
  destruct m as [now [e|[| | | | | |payload]]]; try done.
  unfold is_push, _on_message. simpl.
  destruct (eq_str (dget "method" payload) "osd_info_push"); simpl.
  { unfold on_osd. by destruct (dget_or "data" _ payload). }
  intros _. handler_cases.
  - unfold on_hsi. destruct (dget_or "data" _ payload); try done.
    unfold get_position, get_speed, get_attitude_head, item. simpl. by lookup_other.
  - unfold on_batteries. destruct (dget_or "data" _ payload); try done.
    unfold get_position, get_speed, get_attitude_head, item. simpl. by lookup_other.
  - unfold on_drone_state. destruct (dget_or "data" _ payload) as [| | | | | |d]; try done.
    by destruct (dget_or "limit" _ d).
  - unfold on_camera_osd. by destruct (dget_or "data" _ payload).
  - unfold on_flyto. by destruct (dget_or "data" _ payload).
  - destruct (on_reply_cache payload c) as (Ho & _).
    unfold get_position, get_speed, get_attitude_head. by rewrite Ho.
Qed.

Lemma osd_fields_others msgs : ∀ c,
  Forall (λ m, is_push "osd_info_push" m = false) msgs →
  (get_position (dispatch msgs c), get_speed (dispatch msgs c),
   get_attitude_head (dispatch msgs c))
  = (get_position c, get_speed c, get_attitude_head c).
Proof.
  induction msgs as [|m msgs IH]; intros c Hno; [done|].
  apply Forall_cons in Hno as [Hm Hno].
  change (dispatch (m :: msgs) c) with (dispatch msgs (_on_message m.1 m.2 c)).
  rewrite IH by done. by apply osd_fields_other.
Qed.

(** X8. Position, speed and heading are those of the latest accepted OSD
    push, whatever other messages came after it; a field that push did
    not carry reads [None], not the value cached before. *)
Theorem osd_fields_follow_latest_push (earlier later : list inbound) (t : Qc)
    (d : list (string * pyval)) (c : client) :
  Forall (λ m, is_push "osd_info_push" m = false) later →
  let c' := dispatch (earlier ++ push "osd_info_push" t (PDict d) :: later) c in
  get_position c' = Some (dget "latitude" d, dget "longitude" d, dget "height" d) ∧
  get_speed c' = Some (dget "horizontal_speed" d, dget "speed_x" d,
                       dget "speed_y" d, dget "speed_z" d) ∧
  get_attitude_head c' = Some (dget "attitude_head" d).
Proof.
  intros Hno c'. subst c'. rewrite dispatch_app.
  change (dispatch (push "osd_info_push" t (PDict d) :: later) (dispatch earlier c))
    with (dispatch later (_on_message t (inr (osd_push (PDict d))) (dispatch earlier c))).
  generalize (dispatch earlier c). intros c0.
  assert (get_position (_on_message t (inr (osd_push (PDict d))) c0)
            = Some (dget "latitude" d, dget "longitude" d, dget "height" d) ∧
          get_speed (_on_message t (inr (osd_push (PDict d))) c0)
            = Some (dget "horizontal_speed" d, dget "speed_x" d,
                    dget "speed_y" d, dget "speed_z" d) ∧
          get_attitude_head (_on_message t (inr (osd_push (PDict d))) c0)
            = Some (dget "attitude_head" d)) as (H1 & H2 & H3).
  { unfold _on_message, osd_push, on_osd. simpl.
    unfold get_position, get_speed, get_attitude_head, item.
    destruct (negb _ && _); simpl; by simplify_map_eq. }
  revert H1 H2 H3. generalize (_on_message t (inr (osd_push (PDict d))) c0).
  intros c1 H1 H2 H3.
  pose proof (osd_fields_others later c1 Hno) as Heq.
  injection Heq as E1 E2 E3. by rewrite E1, E2, E3.
Qed.

Lemma takeoff_height_kept m c :
  takeoff_height c ≠ PNone →
  takeoff_height (_on_message m.1 m.2 c) = takeoff_height c.
Proof.
  intros Hset. destruct m as [now [e|[| | | | | |payload]]]; try done.
  unfold _on_message. simpl. handler_cases.
  - unfold on_osd. destruct (dget_or "data" _ payload); try done. simpl.
    destruct (takeoff_height c) eqn:Ht; [done|..];
      simpl; rewrite andb_false_r; simpl; by rewrite Ht.
  - unfold on_hsi. by destruct (dget_or "data" _ payload).
  - unfold on_batteries. by destruct (dget_or "data" _ payload).
  - unfold on_drone_state. destruct (dget_or "data" _ payload) as [| | | | | |d]; try done.
    by destruct (dget_or "limit" _ d).
  - unfold on_camera_osd. by destruct (dget_or "data" _ payload).
  - unfold on_flyto. by destruct (dget_or "data" _ payload).
  - by destruct (on_reply_cache payload c) as (_ & _ & _ & _ & -> & _).
Qed.

(** X9. The take-off height is latched: the first OSD push that carries a
    height sets it, and no message changes it afterwards. *)
Theorem takeoff_height_is_latched :
  (∀ t d c,
     takeoff_height c = PNone →
     takeoff_height (_on_message t (inr (osd_push (PDict d))) c) = dget "height" d) ∧
  (∀ msgs c,
     takeoff_height c ≠ PNone →
     takeoff_height (dispatch msgs c) = takeoff_height c).
Proof.
  split.
  - intros t d c Hnone. unfold _on_message, osd_push, on_osd. simpl.
    rewrite Hnone. simpl. rewrite andb_true_r.
    by destruct (dget "height" d).
  - intros msgs. induction msgs as [|m msgs IH]; intros c Hset; [done|].
    change (dispatch (m :: msgs) c) with (dispatch msgs (_on_message m.1 m.2 c)).
    rewrite IH; rewrite takeoff_height_kept; done.
Qed.

Lemma dom_store_fields keys all (d : list (string * pyval)) : ∀ m : gmap string pyval,
  forallb (λ k, bool_decide (k ∈ all)) keys = true →
  dom m = list_to_set all → dom (store_fields keys d m) = list_to_set all.
Proof.
  unfold store_fields.
  induction keys as [|k keys IH]; intros m Hin Hdom; simpl; [done|].
  simpl in Hin. apply andb_true_iff in Hin as [Hk Hin].
  apply bool_decide_eq_true in Hk.
  apply IH; [done|]. rewrite dom_insert_L, Hdom.
  apply subseteq_union_1_L, singleton_subseteq_l. by apply elem_of_list_to_set.
Qed.

Lemma dom_none_dict keys : dom (none_dict keys) = list_to_set keys.
Proof.
  unfold none_dict. rewrite dom_list_to_map_L.
  by rewrite <- list_fmap_compose, list_fmap_id.
Qed.

Lemma keys_ok_init : keys_ok init.
Proof. split; apply dom_none_dict. Qed.

Ltac cache_fields :=
  unfold with_osd_data, with_drone_state, with_topo_data, with_camera_osd,
    with_takeoff_height, with_flyto_progress, with_osd_clock;
  cbn [osd_data drone_state camera_osd flyto_progress takeoff_height].

Lemma keys_ok_on_osd now data c : keys_ok c → keys_ok (on_osd now data c).
Proof.
  intros Hk. destruct data as [| | | | | |d]; try exact Hk. destruct Hk as [Ho Hd Hc Hf].
  unfold on_osd. destruct (negb _ && _); split; cache_fields; try assumption;
    by repeat apply dom_store_fields.
Qed.

Lemma keys_ok_on_hsi data c : keys_ok c → keys_ok (on_hsi data c).
Proof.
  intros Hk. destruct data as [| | | | | |d]; try exact Hk. destruct Hk as [Ho Hd Hc Hf].
  split; cache_fields; try assumption. by apply dom_store_fields.
Qed.

Lemma keys_ok_on_batteries data c : keys_ok c → keys_ok (on_batteries data c).
Proof.
  intros Hk. destruct data as [| | | | | |d]; try exact Hk. destruct Hk as [Ho Hd Hc Hf].
  split; cache_fields; try assumption.
  by apply (dom_store_fields ["battery_percent"] osd_keys
              [("battery_percent", dget "capacity_percent" d)]).
Qed.

Lemma keys_ok_on_drone_state data c : keys_ok c → keys_ok (on_drone_state data c).
Proof.
  intros Hk. destruct data as [| | | | | |d]; try exact Hk. destruct Hk as [Ho Hd Hc Hf].
  unfold on_drone_state. destruct (dget_or "limit" _ d);
    split; cache_fields; try assumption; by repeat apply dom_store_fields.
Qed.

Lemma keys_ok_on_topo data c : keys_ok c → keys_ok (on_topo data c).
Proof. by intros [Ho Hd Hc Hf]. Qed.

Lemma keys_ok_on_camera_osd data c : keys_ok c → keys_ok (on_camera_osd data c).
Proof.
  intros Hk. destruct data as [| | | | | |d]; try exact Hk. destruct Hk as [Ho Hd Hc Hf].
  split; cache_fields; try assumption. by apply dom_store_fields.
Qed.

Lemma keys_ok_on_flyto data c : keys_ok c → keys_ok (on_flyto data c).
Proof.
  intros Hk. destruct data as [| | | | | |d]; try exact Hk. destruct Hk as [Ho Hd Hc Hf].
  split; cache_fields; try assumption. by apply dom_store_fields.
Qed.

Lemma keys_ok_on_message now raw c : keys_ok c → keys_ok (_on_message now raw c).
Proof.
  intros Hk. destruct raw as [e|[| | | | | |payload]]; try done.
  unfold _on_message.
  destruct (eq_str (dget "method" payload) "osd_info_push"); [by apply keys_ok_on_osd|].
  destruct (eq_str (dget "method" payload) "hsi_info_push"); [by apply keys_ok_on_hsi|].
  destruct (eq_str (dget "method" payload) "drc_batteries_info_push");
    [by apply keys_ok_on_batteries|].
  destruct (eq_str (dget "method" payload) "drc_drone_state_push");
    [by apply keys_ok_on_drone_state|].
  destruct (eq_str (dget "method" payload) "update_topo"); [by apply keys_ok_on_topo|].
  destruct (eq_str (dget "method" payload) "drc_camera_osd_info_push");
    [by apply keys_ok_on_camera_osd|].
  destruct (eq_str (dget "method" payload) "fly_to_point_progress");
    [by apply keys_ok_on_flyto|].
  destruct (on_reply_cache payload c) as (E1 & E2 & _ & E4 & _ & E6 & _).
  destruct Hk. split; by rewrite ?E1, ?E2, ?E4, ?E6.
Qed.

Lemma keys_ok_step c e : keys_ok c → keys_ok (step c e).
Proof.
  intros H. destruct e as [|method data tid|[now raw]|tid]; simpl.
  - by destruct H.
  - rewrite publish_effect. by destruct H.
  - by apply keys_ok_on_message.
  - by destruct H.
Qed.

Lemma keys_ok_run es : keys_ok (run es).
Proof.
  unfold run. generalize keys_ok_init. generalize init.
  induction es as [|e es IH]; intros c Hc; simpl; [done|].
  by apply IH, keys_ok_step.
Qed.

Lemma item_present k (m : gmap string pyval) (keys : list string) :
  dom m = list_to_set keys → bool_decide (k ∈ keys) = true → is_Some (item k m).
Proof.
  intros Hdom Hk. unfold item. apply elem_of_dom. rewrite Hdom.
  apply elem_of_list_to_set. by apply bool_decide_eq_true in Hk.
Qed.

(** X10. In every state the client can reach, each cache dict has exactly
    the keys [__init__] gave it, so no accessor raises [KeyError]. *)
Theorem accessors_never_raise (es : list event) :
  let c := run es in
  keys_ok c ∧
  is_Some (get_position c) ∧ is_Some (get_speed c) ∧
  is_Some (get_attitude_head c) ∧ is_Some (get_battery_percent c) ∧
  is_Some (get_local_height c) ∧ is_Some (is_local_height_ok c) ∧
  is_Some (get_flight_mode c) ∧ is_Some (get_payload_index c) ∧
  is_Some (get_gimbal_attitude c) ∧ is_Some (get_flyto_status c).
Proof.
  intros c. pose proof (keys_ok_run es) as Hk. fold c in Hk.
  split; [done|]. destruct Hk as [Ho Hd Hc Hf].
  unfold get_position, get_speed, get_attitude_head, get_battery_percent,
    get_local_height, is_local_height_ok, get_flight_mode, get_payload_index,
    get_gimbal_attitude, get_flyto_status.
  repeat match goal with
         | |- context [item ?k (osd_data c)] =>
             destruct (item_present k _ _ Ho) as [? ->]; [by vm_compute|]
         | |- context [item ?k (camera_osd c)] =>
             destruct (item_present k _ _ Hc) as [? ->]; [by vm_compute|]
         | |- context [item ?k (drone_state c)] =>
             destruct (item_present k _ _ Hd) as [? ->]; [by vm_compute|]
         | |- context [item ?k (flyto_progress c)] =>
             destruct (item_present k _ _ Hf) as [? ->]; [by vm_compute|]
         end.
  simpl. repeat split; try by eexists. by destruct (is_True _); eexists.
Qed.

Lemma drone_state_push_dispatch t d c :
  _on_message t (push "drc_drone_state_push" t (PDict d)).2 c = on_drone_state (PDict d) c.
Proof. done. Qed.

(** X11. A drone-state push whose [limit] is not an object is applied
    in part: the mode and the return altitude are stored, then the
    handler fails, and the limits and the two fields after them keep
    what was cached before. With an object there, all six are stored. *)
Theorem drone_state_update_is_torn (t : Qc) (d : list (string * pyval)) (c : client) :
  let c' := _on_message t (push "drc_drone_state_push" t (PDict d)).2 c in
  (is_dict (dget_or "limit" (PDict []) d) = false →
   get_flight_mode c' = Some (dget "mode_code" d) ∧
   get_drone_state c' !! "rth_altitude" = Some (dget "rth_altitude" d) ∧
   ∀ k, k ≠ "mode_code" → k ≠ "rth_altitude" →
        get_drone_state c' !! k = get_drone_state c !! k) ∧
  (∀ l, dget_or "limit" (PDict []) d = PDict l →
   get_flight_mode c' = Some (dget "mode_code" d) ∧
   get_drone_state c' !! "rth_altitude" = Some (dget "rth_altitude" d) ∧
   get_drone_state c' !! "distance_limit" = Some (dget "distance_limit" l) ∧
   get_drone_state c' !! "height_limit" = Some (dget "height_limit" l) ∧
   get_drone_state c' !! "is_in_fixed_speed" = Some (dget "is_in_fixed_speed" d) ∧
   get_drone_state c' !! "night_lights_state" = Some (dget "night_lights_state" d)).
Proof.
  intros c'. subst c'. rewrite drone_state_push_dispatch.
  unfold on_drone_state, get_flight_mode, get_drone_state, item. split.
  - intros Hl. destruct (dget_or "limit" _ d); try done;
      cache_fields; unfold store_fields; simpl;
      (split; [by simplify_map_eq|]); (split; [by simplify_map_eq|]);
      intros k ? ?; by rewrite !lookup_insert_ne.
  - intros l ->. cache_fields. unfold store_fields. simpl.
    repeat split; by simplify_map_eq.
Qed.

Lemma topo_other m c :
  is_push "update_topo" m = false →
  topo_data (_on_message m.1 m.2 c) = topo_data c.
Proof.
  destruct m as [now [e|[| | | | | |payload]]]; try done.
  unfold is_push, _on_message. simpl. rewrite andb_true_r.
  destruct (eq_str (dget "method" payload) "update_topo") eqn:Htopo; [done|].
  intros _. handler_cases.
  - unfold on_osd. destruct (dget_or "data" _ payload); try done.
    simpl. by destruct (negb _ && _).
  - unfold on_hsi. by destruct (dget_or "data" _ payload).
  - unfold on_batteries. by destruct (dget_or "data" _ payload).
  - unfold on_drone_state. destruct (dget_or "data" _ payload) as [| | | | | |d]; try done.
    by destruct (dget_or "limit" _ d).
  - unfold on_camera_osd. by destruct (dget_or "data" _ payload).
  - unfold on_flyto. by destruct (dget_or "data" _ payload).
  - by destruct (on_reply_cache payload c) as (_ & _ & -> & _).
Qed.

Lemma topo_others msgs : ∀ c,
  Forall (λ m, is_push "update_topo" m = false) msgs →
  topo_data (dispatch msgs c) = topo_data c.
Proof.
  induction msgs as [|m msgs IH]; intros c Hno; [done|].
  apply Forall_cons in Hno as [Hm Hno].
  change (dispatch (m :: msgs) c) with (dispatch msgs (_on_message m.1 m.2 c)).
  rewrite IH by done. by apply topo_other.
Qed.

(** X12. The topology kept is the [data] of the latest [update_topo]
    push, whatever it is and whatever other messages came after it; the
    aircraft serial number is the [sn] of its first sub-device, and
    [None] when it has no [sub_devices] or an empty list of them. *)
Theorem aircraft_sn_follows_topology (earlier later : list inbound) (t : Qc)
    (data : pyval) (c : client) :
  Forall (λ m, is_push "update_topo" m = false) later →
  let c' := dispatch (earlier ++ push "update_topo" t data :: later) c in
  topo_data c' = data ∧
  (∀ d device rest,
     data = PDict d → assoc "sub_devices" d = Some (PList (device :: rest)) →
     get_aircraft_sn c' = lift (get "sn" device)) ∧
  (∀ d, data = PDict d →
        assoc "sub_devices" d = None ∨ assoc "sub_devices" d = Some (PList []) →
        get_aircraft_sn c' = inr PNone).
Proof.
  intros Hno c'.
  assert (topo_data c' = data) as Htopo.
  { subst c'. rewrite dispatch_app.
    change (dispatch (push "update_topo" t data :: later) (dispatch earlier c))
      with (dispatch later (_on_message t (push "update_topo" t data).2 (dispatch earlier c))).
    by rewrite topo_others. }
  split; [done|]. unfold get_aircraft_sn. rewrite Htopo. clear Htopo. split.
  - intros d device rest -> Hsub. unfold contains, get_or, dget_or.
    rewrite Hsub. by destruct d.
  - intros d -> Hsub. unfold contains, get_or, dget_or.
    destruct d; [done|]. destruct Hsub as [Hsub|Hsub]; rewrite Hsub; simpl.
    + done.
    + done.
Qed.

Lemma hsi_fields_other m c :
  is_push "hsi_info_push" m = false →
  (get_local_height (_on_message m.1 m.2 c), is_local_height_ok (_on_message m.1 m.2 c))
  = (get_local_height c, is_local_height_ok c).
Proof.
  destruct m as [now [e|[| | | | | |payload]]]; try done.
  unfold is_push, _on_message. simpl.
  destruct (eq_str (dget "method" payload) "osd_info_push").
  { intros _. unfold on_osd. destruct (dget_or "data" _ payload); try done.
    unfold get_local_height, is_local_height_ok, item.
    destruct (negb _ && _); simpl; by lookup_other. }
  destruct (eq_str (dget "method" payload) "hsi_info_push"); simpl.
  { unfold on_hsi. by destruct (dget_or "data" _ payload). }
  intros _. handler_cases.
  - unfold on_batteries. destruct (dget_or "data" _ payload); try done.
    unfold get_local_height, is_local_height_ok, item. simpl. by lookup_other.
  - unfold on_drone_state. destruct (dget_or "data" _ payload) as [| | | | | |d]; try done.
    by destruct (dget_or "limit" _ d).
  - unfold on_camera_osd. by destruct (dget_or "data" _ payload).
  - unfold on_flyto. by destruct (dget_or "data" _ payload).
  - unfold get_local_height, is_local_height_ok.
    by destruct (on_reply_cache payload c) as (-> & _).
Qed.

Lemma hsi_fields_others msgs : ∀ c,
  Forall (λ m, is_push "hsi_info_push" m = false) msgs →
  (get_local_height (dispatch msgs c), is_local_height_ok (dispatch msgs c))
  = (get_local_height c, is_local_height_ok c).
Proof.
  induction msgs as [|m msgs IH]; intros c Hno; [done|].
  apply Forall_cons in Hno as [Hm Hno].
  change (dispatch (m :: msgs) c) with (dispatch msgs (_on_message m.1 m.2 c)).
  rewrite IH by done. by apply hsi_fields_other.
Qed.

(** X13. The height above ground is that of the latest accepted HSI
    push, and it counts as usable only when that push carried the
    boolean [True] for both [down_enable] and [down_work]: a [1] or any
    other truthy value does not count. *)
Theorem local_height_follows_latest_hsi (earlier later : list inbound) (t : Qc)
    (d : list (string * pyval)) (c : client) :
  Forall (λ m, is_push "hsi_info_push" m = false) later →
  let c' := dispatch (earlier ++ push "hsi_info_push" t (PDict d) :: later) c in
  get_local_height c' = Some (dget "down_distance" d) ∧
  is_local_height_ok c'
  = Some (is_True (dget "down_enable" d) && is_True (dget "down_work" d)).
Proof.
  intros Hno c'. subst c'. rewrite dispatch_app.
  change (dispatch (push "hsi_info_push" t (PDict d) :: later) (dispatch earlier c))
    with (dispatch later (on_hsi (PDict d) (dispatch earlier c))).
  generalize (dispatch earlier c). intros c0.
  assert (get_local_height (on_hsi (PDict d) c0) = Some (dget "down_distance" d) ∧
          is_local_height_ok (on_hsi (PDict d) c0)
          = Some (is_True (dget "down_enable" d) && is_True (dget "down_work" d)))
    as [H1 H2].
  { unfold on_hsi, get_local_height, is_local_height_ok, item, store_fields.
    cache_fields. simpl. split; [by simplify_map_eq|].
    rewrite (lookup_insert_ne _ "down_work" "down_enable") by done.
    rewrite !lookup_insert_eq. simpl.
    by destruct (is_True (dget "down_enable" d)). }
  revert H1 H2. generalize (on_hsi (PDict d) c0). intros c1 H1 H2.
  pose proof (hsi_fields_others later c1 Hno) as Heq.
  injection Heq as E1 E2. by rewrite E1, E2.
Qed.

Section WindowOrder.
Local Open Scope Qc_scope.

Lemma evict_Forall (P : Qc → Prop) now window ts :
  Forall P ts → Forall P (evict now window ts).
Proof.
  induction 1 as [|t ts Ht Hts IH]; simpl; [done|].
  destruct (decide (window < now - t)); [done|]. by constructor.
Qed.

Lemma evict_ascending now window ts :
  ascending ts → ascending (evict now window ts).
Proof.
  induction ts as [|t ts IH]; simpl; [done|]. intros [Ht Hts].
  destruct (decide (window < now - t)); [by apply IH|]. done.
Qed.

Lemma evict_within now window ts :
  ascending ts → Forall (λ t, now - t ≤ window) (evict now window ts).
Proof.
  induction ts as [|t ts IH]; simpl; [done|]. intros [Ht Hts].
  destruct (decide (window < now - t)) as [|Hfits]; [by apply IH|].
  apply Qcnot_lt_le in Hfits. constructor; [done|].
  eapply Forall_impl; [exact Ht|]. intros t' Hle. simpl in Hle. qc_lra.
Qed.

Lemma ascending_snoc ts x :
  ascending ts → Forall (λ t, t ≤ x) ts → ascending (ts ++ [x]).
Proof.
  induction ts as [|t ts IH]; simpl; [done|]. intros [Ht Hts] Hx.
  apply Forall_cons in Hx as [Htx Hx]. split; [|by apply IH].
  apply Forall_app. split; [done|]. by constructor.
Qed.

(** What a message does to the arrival clock: nothing, or what an
    accepted OSD push does. *)
Lemma clock_cases now raw c :
  (_osd_timestamps (_on_message now raw c) = _osd_timestamps c ∧
   _last_osd_time (_on_message now raw c) = _last_osd_time c ∧
   _freq_window (_on_message now raw c) = _freq_window c) ∨
  (_osd_timestamps (_on_message now raw c)
     = evict now (_freq_window c) (_osd_timestamps c ++ [now]) ∧
   _last_osd_time (_on_message now raw c) = now ∧
   _freq_window (_on_message now raw c) = _freq_window c).
Proof.
  destruct raw as [e|[| | | | | |payload]]; try (by left).
  unfold _on_message.
  destruct (eq_str (dget "method" payload) "osd_info_push").
  { unfold on_osd. destruct (dget_or "data" _ payload); try (by left).
    right. simpl. by destruct (negb _ && _). }
  left. handler_cases.
  - unfold on_hsi. by destruct (dget_or "data" _ payload).
  - unfold on_batteries. by destruct (dget_or "data" _ payload).
  - unfold on_drone_state. destruct (dget_or "data" _ payload) as [| | | | | |d]; try done.
    by destruct (dget_or "limit" _ d).
  - unfold on_camera_osd. by destruct (dget_or "data" _ payload).
  - unfold on_flyto. by destruct (dget_or "data" _ payload).
  - by destruct (on_reply_cache payload c) as (_ & _ & _ & _ & _ & _ & -> & -> & ->).
Qed.

Lemma window_ok_on_message now raw c :
  window_ok c → Forall (λ t, t ≤ now) (_osd_timestamps c) →
  window_ok (_on_message now raw c).
Proof.
  intros [Hasc Hin] Hnow. unfold window_ok.
  destruct (clock_cases now raw c) as [(-> & -> & ->)|(-> & -> & ->)]; [done|].
  assert (ascending (_osd_timestamps c ++ [now])) as Hasc'
    by by apply ascending_snoc.
  split; [by apply evict_ascending|].
  apply Forall_and. split; [|by apply evict_within].
  apply evict_Forall, Forall_app. split; [done|]. constructor; [|done].
  apply Qcle_refl.
Qed.

Lemma clock_bound (P : Qc → Prop) now raw c :
  Forall P (_osd_timestamps c) → P now →
  Forall P (_osd_timestamps (_on_message now raw c)).
Proof.
  intros Hts Hnow.
  destruct (clock_cases now raw c) as [(-> & _)|(-> & _)]; [done|].
  apply evict_Forall, Forall_app. split; [done|]. by constructor.
Qed.

Lemma window_ok_dispatch msgs : ∀ c,
  window_ok c → ascending msgs.*1 →
  Forall (λ m, Forall (λ t, t ≤ m.1) (_osd_timestamps c)) msgs →
  window_ok (dispatch msgs c).
Proof.
  induction msgs as [|[now raw] msgs IH]; intros c Hc Hasc Hbound; [done|].
  destruct Hasc as [Hnow Hasc]. apply Forall_cons in Hbound as [Hm Hbound].
  change (dispatch ((now, raw) :: msgs) c) with (dispatch msgs (_on_message now raw c)).
  apply IH; [by apply window_ok_on_message|done|].
  simpl in Hnow. rewrite Forall_fmap in Hnow.
  apply Forall_forall. intros m Hin.
  apply clock_bound.
  - exact (proj1 (Forall_forall _ _) Hbound m Hin).
  - exact (proj1 (Forall_forall _ _) Hnow m Hin).
Qed.

Lemma ascending_head_last a ts :
  Forall (Qcle a) ts → a ≤ default 0 (last (a :: ts)).
Proof.
  intros Ha. rewrite last_cons. destruct (last ts) as [b|] eqn:Hb; simpl.
  - apply last_Some in Hb as [ts' ->].
    apply Forall_app in Ha as [_ Ha]. by apply Forall_cons in Ha as [Ha _].
  - apply Qcle_refl.
Qed.

Lemma window_rate_nonneg c : window_ok c → 0 ≤ get_osd_frequency c.
Proof.
  intros [Hasc _]. unfold get_osd_frequency.
  destruct (decide _) as [|Hlen]; [apply Qcle_refl|].
  destruct (_osd_timestamps c) as [|a ts]; [simpl in Hlen; lia|].
  destruct Hasc as [Ha _]. apply ascending_head_last in Ha.
  change (default 0 (head (a :: ts))) with a.
  revert Ha. generalize (default 0 (last (a :: ts))). intros b Hle.
  destruct (decide _) as [|Hspan]; [apply Qcle_refl|].
  apply Qcmult_nonneg_nonneg.
  - apply (proj1 (Z2Qc_inj_le 0 _)). rewrite length_cons. lia.
  - apply Qclt_le_weak, Qcinv_pos.
    destruct (Qcle_lt_or_eq _ _ Hle) as [Hlt|Heq].
    + clear Hspan Hle. qc_lra.
    + exfalso. apply Hspan. rewrite <- Heq. ring.
Qed.

End WindowOrder.

(** X14. With an arrival clock that never runs backwards, the frequency
    window stays in order after any messages: its readings never
    decrease and none is older than the window before the latest one, so
    the frequency derived from it is never negative. *)
Theorem frequency_window_in_order (msgs : list inbound) :
  ascending msgs.*1 →
  window_ok (dispatch msgs init) ∧ (0 ≤ get_osd_frequency (dispatch msgs init))%Qc.
Proof.
  intros Hclock.
  assert (window_ok (dispatch msgs init)) as Hok.
  { apply window_ok_dispatch; [by split|done|].
    apply Forall_forall. by intros m _. }
  split; [done|]. by apply window_rate_nonneg.
Qed.

Section HeartbeatPace.
Import Heartbeat.
Local Open Scope Qc_scope.

Variable interval : Qc.

Lemma turn_sleep now s :
  now < next_tick s → ∃ d, turn interval now s = (Sleep d, s).
Proof. intros Hlt. unfold turn. rewrite decide_True by done. eauto. Qed.

Lemma turn_beat now s :
  ¬ now < next_tick s →
  ∃ s', turn interval now s = (Beat (seq s + 1), s') ∧
        seq s' = (seq s + 1)%Z ∧ next_tick s + interval ≤ next_tick s'.
Proof.
  intros Hge. unfold turn. rewrite decide_False by done.
  eexists. split; [done|]. split; [done|]. simpl.
  apply Qcnot_lt_le in Hge.
  case_decide; [|apply Qcle_refl]. qc_lra.
Qed.

(** The [k]-th heartbeat published from the state [s] on. *)
Lemma beats_from clock : ∀ s k e,
  beats (turns interval clock s).1 !! k = Some e →
  beat_seq e = Some (seq s + 1 + Z.of_nat k)%Z ∧
  next_tick s + Qc_of_Z (Z.of_nat k) * interval ≤ deadline e ∧
  deadline e ≤ at_clock e.
Proof.
  induction clock as [|now clock IH]; intros s k e; simpl; [done|].
  destruct (decide (now < next_tick s)) as [Hlt|Hge].
  - destruct (turn_sleep now s Hlt) as [d ->].
    destruct (turns interval clock s) as [log s''] eqn:Hlater. simpl.
    unfold beats. rewrite filter_cons_False by (simpl; by intros [? ?]).
    intros Hk. apply (IH s k e). by rewrite Hlater.
  - destruct (turn_beat now s Hge) as (s' & -> & Hseq & Hnext).
    destruct (turns interval clock s') as [log s''] eqn:Hlater. simpl.
    unfold beats. rewrite filter_cons_True by (simpl; eauto).
    destruct k as [|k]; simpl.
    + intros [= <-]. simpl. split; [by rewrite Z.add_0_r|].
      apply Qcnot_lt_le in Hge. split; [|done].
      change (Z.of_nat 0) with 0%Z. rewrite Z2Qc_inj_0.
      replace (next_tick s + 0 * interval) with (next_tick s) by ring.
      apply Qcle_refl.
    + intros Hk. destruct (IH s' k e) as (Hs & Hd & Hc); [by rewrite Hlater|].
      split; [rewrite Hs, Hseq; f_equal; lia|]. split; [|done].
      replace (Z.of_nat (S k)) with (Z.of_nat k + 1)%Z by lia.
      rewrite Z2Qc_inj_add, Z2Qc_inj_1.
      revert Hd Hnext. generalize (Qc_of_Z (Z.of_nat k)). intros q Hd Hnext.
      apply Qcle_trans with (next_tick s' + q * interval); [|done].
      replace (next_tick s + (q + 1) * interval)
        with (next_tick s + interval + q * interval) by ring.
      by apply Qcplus_le_mono_r.
Qed.

End HeartbeatPace.

(** X15. Heartbeats are numbered without gaps: the [k]-th one published
    (counting from 0) carries [seq0 + 1 + k], however the clock ran and
    however many deadlines were missed. *)
Theorem heartbeat_seq_is_consecutive (interval t0 : Qc) (seq0 : Z) (clock : list Qc)
    (k : nat) (e : Heartbeat.entry) :
  beats (Heartbeat.heartbeat_loop interval t0 seq0 clock).1 !! k = Some e →
  beat_seq e = Some (seq0 + 1 + Z.of_nat k)%Z.
Proof.
  intros Hk. by destruct (beats_from interval clock _ k e Hk) as (-> & _).
Qed.

(** X16. Heartbeats are never published faster than one per [interval]
    on average: the [k]-th one (counting from 0) goes out at a clock
    reading that is at least [k] intervals after the start. *)
Theorem heartbeat_pace_is_bounded (interval t0 : Qc) (seq0 : Z) (clock : list Qc)
    (k : nat) (e : Heartbeat.entry) :
  beats (Heartbeat.heartbeat_loop interval t0 seq0 clock).1 !! k = Some e →
  (t0 + Qc_of_Z (Z.of_nat k) * interval ≤ Heartbeat.at_clock e)%Qc.
Proof.
  intros Hk. destruct (beats_from interval clock _ k e Hk) as (_ & Hd & Hc).
  by apply Qcle_trans with (Heartbeat.deadline e).
Qed.

Section MonitorRound.
Import DRCConnectionManager.

(** The retry loop over attempts that all fail, with more to come. *)
Lemma retry_failed_prefix w i pre : ∀ rest m,
  stop_flag m = false →
  Forall (λ k, stop_called w i k = false ∧ _reconnect_drc w i k = false) pre →
  retry w i (pre ++ rest)%list m =
    retry w i rest
      (Manager (state m) false (reconnect_attempts m)
         (log m ++ ((λ k, Attempt k false) <$> pre))%list).
Proof.
  induction pre as [|k pre IH]; intros rest m Hflag Hfail; simpl.
  - rewrite app_nil_r, <- Hflag. by destruct m.
  - apply Forall_cons in Hfail as [[Hstop Hre] Hfail].
    rewrite Hflag, Hstop, Hre. simpl.
    rewrite IH; simpl; [|by rewrite Hflag, Hstop|done]. by rewrite <- app_assoc.
Qed.

Lemma attempts_split (k N : Z) :
  (1 ≤ k ≤ N)%Z → seqZ 1 N = (seqZ 1 (k - 1) ++ k :: seqZ (k + 1) (N - k))%list.
Proof.
  intros Hk. replace N with ((k - 1) + (1 + (N - k)))%Z at 1 by lia.
  rewrite seqZ_app by lia. f_equal.
  replace (1 + (k - 1))%Z with k by lia.
  rewrite seqZ_cons by lia. f_equal. f_equal; lia.
Qed.

Lemma poll_starts_round w i m :
  state m = ONLINE → telemetry w i 0 = false →
  poll w i m =
    retry w i (seqZ 1 (reconnect_attempts m))
      (Manager RECONNECTING (stop_flag m) (reconnect_attempts m)
         (log m ++ [Changed ONLINE RECONNECTING])%list).
Proof.
  intros Hst Htel. unfold poll. rewrite Htel. simpl.
  rewrite decide_True by done. unfold _set_state.
  rewrite decide_False by (by rewrite Hst). by rewrite Hst.
Qed.

End MonitorRound.

(** X17. A reconnect round ends at the first attempt that succeeds: with
    attempts [1 .. k-1] failing and attempt [k] succeeding, within the
    budget and with no stop request, the poll makes exactly those [k]
    attempts and returns to ONLINE; the attempts after [k] are never
    made. *)
Theorem round_ends_at_first_success (w : DRCConnectionManager.world) (i : nat)
    (m : DRCConnectionManager.manager) (k : Z) :
  DRCConnectionManager.state m = DRCConnectionManager.ONLINE →
  DRCConnectionManager.stop_flag m = false →
  DRCConnectionManager.telemetry w i 0 = false →
  (1 ≤ k ≤ DRCConnectionManager.reconnect_attempts m)%Z →
  Forall (λ j, DRCConnectionManager.stop_called w i j = false ∧
               DRCConnectionManager._reconnect_drc w i j = false) (seqZ 1 (k - 1)) →
  DRCConnectionManager.stop_called w i k = false →
  DRCConnectionManager._reconnect_drc w i k = true →
  DRCConnectionManager.poll w i m =
    DRCConnectionManager.Manager DRCConnectionManager.ONLINE false
      (DRCConnectionManager.reconnect_attempts m)
      (DRCConnectionManager.log m
         ++ [DRCConnectionManager.Changed DRCConnectionManager.ONLINE
               DRCConnectionManager.RECONNECTING]
         ++ ((λ j, DRCConnectionManager.Attempt j false) <$> seqZ 1 (k - 1))
         ++ [DRCConnectionManager.Attempt k true;
             DRCConnectionManager.Changed DRCConnectionManager.RECONNECTING
               DRCConnectionManager.ONLINE])%list.
Proof.
  intros Hst Hflag Htel Hk Hfail Hstop Hok.
  rewrite poll_starts_round by done.
  rewrite (attempts_split k _ Hk), retry_failed_prefix by done.
  simpl. rewrite Hstop, Hok. simpl.
  unfold DRCConnectionManager._set_state. simpl.
  rewrite Hstop. f_equal. by rewrite <- !app_assoc.
Qed.

(** X18. A stop request seen inside a reconnect round ends the round
    there: no attempt is made from that check point on, the budget is
    not counted as exhausted, and the manager is left RECONNECTING with
    its stop flag set; the loop then ends without another poll. *)
Theorem stop_interrupts_round (w : DRCConnectionManager.world) (i : nat)
    (m : DRCConnectionManager.manager) (k : Z) (turns : nat) :
  DRCConnectionManager.state m = DRCConnectionManager.ONLINE →
  DRCConnectionManager.stop_flag m = false →
  DRCConnectionManager.telemetry w i 0 = false →
  (1 ≤ k ≤ DRCConnectionManager.reconnect_attempts m)%Z →
  Forall (λ j, DRCConnectionManager.stop_called w i j = false ∧
               DRCConnectionManager._reconnect_drc w i j = false) (seqZ 1 (k - 1)) →
  DRCConnectionManager.stop_called w i k = true →
  let m' := DRCConnectionManager.Manager DRCConnectionManager.RECONNECTING true
              (DRCConnectionManager.reconnect_attempts m)
              (DRCConnectionManager.log m
                 ++ [DRCConnectionManager.Changed DRCConnectionManager.ONLINE
                       DRCConnectionManager.RECONNECTING]
                 ++ ((λ j, DRCConnectionManager.Attempt j false) <$> seqZ 1 (k - 1)))%list in
  DRCConnectionManager.poll w i m = m' ∧
  DRCConnectionManager._monitor_loop w turns (S i) m' = m'.
Proof.
  intros Hst Hflag Htel Hk Hfail Hstop m'. split.
  - rewrite poll_starts_round by done.
    rewrite (attempts_split k _ Hk), retry_failed_prefix by done.
    simpl. rewrite Hstop. simpl. subst m'.
    unfold DRCConnectionManager.check_stop. simpl.
    rewrite Hstop. f_equal. by rewrite <- !app_assoc.
  - by destruct turns.
Qed.

Section HeartbeatLease.
Import Lease.

Lemma elem_of_running i (ts : list bool) : i ∈ running ts ↔ ts !! i = Some false.
Proof.
  unfold running, threads. rewrite list_elem_of_filter, elem_of_seq. split; [by intros [? _]|].
  intros Hi. split; [done|]. apply lookup_lt_Some in Hi. lia.
Qed.

Lemma stop_releases heartbeat_thread ts :
  lease_ok heartbeat_thread ts → running (stop heartbeat_thread ts) = [].
Proof.
  intros Hok. apply elem_of_nil_inv. intros i Hi.
  apply elem_of_running in Hi. unfold stop, stop_heartbeat, threads in *.
  destruct heartbeat_thread as [old|].
  - destruct (decide (old = i)) as [->|Hne].
    + rewrite list_lookup_insert in Hi. case_decide as Hin; [done|].
      apply lookup_lt_Some in Hi. lia.
    + rewrite list_lookup_insert_ne in Hi by done.
      apply elem_of_running, Hok in Hi. congruence.
  - apply elem_of_running, Hok in Hi. done.
Qed.

Lemma reconnect_keeps_lease auth_ok drc_ok heartbeat_thread ts :
  lease_ok heartbeat_thread ts →
  let '(ok, heartbeat_thread', ts') := _reconnect_drc auth_ok drc_ok heartbeat_thread ts in
  lease_ok heartbeat_thread' ts' ∧
  (ok = false → heartbeat_thread' = heartbeat_thread ∧ ts' = ts) ∧
  (ok = true → heartbeat_thread' = Some (length ts) ∧ length ts' = S (length ts)).
Proof.
  intros Hok. unfold _reconnect_drc.
  destruct auth_ok; [|done]. destruct drc_ok; [|done]. simpl.
  pose proof (stop_releases heartbeat_thread ts Hok) as Hnone.
  assert (length (stop heartbeat_thread ts) = length ts) as Hlen.
  { destruct heartbeat_thread; [apply length_insert|done]. }
  revert Hnone Hlen. unfold stop.
  generalize (match heartbeat_thread with
              | Some thread => stop_heartbeat thread ts
              | None => ts
              end).
  intros ts1 Hnone Hlen. unfold threads in *.
  split; [|split; [done|]].
  - intros i Hi. apply elem_of_running in Hi.
    destruct (decide (i < length ts1)) as [Hlt|Hge].
    + rewrite lookup_app_l in Hi by done.
      apply elem_of_running in Hi. rewrite Hnone in Hi. by apply elem_of_nil in Hi.
    + apply lookup_lt_Some in Hi as Hlt. rewrite length_app in Hlt. simpl in Hlt.
      f_equal. lia.
  - intros _. split; [by rewrite Hlen|]. rewrite length_app, Hlen. simpl. lia.
Qed.

Lemma attempts_keep_lease outcomes : ∀ heartbeat_thread ts,
  lease_ok heartbeat_thread ts →
  lease_ok (attempts outcomes heartbeat_thread ts).1.2
           (attempts outcomes heartbeat_thread ts).2 ∧
  ((attempts outcomes heartbeat_thread ts).1.1 = false →
   (attempts outcomes heartbeat_thread ts).1.2 = heartbeat_thread ∧
   (attempts outcomes heartbeat_thread ts).2 = ts).
Proof.
  induction outcomes as [|[auth_ok drc_ok] outcomes IH]; intros hb ts Hok; simpl; [done|].
  pose proof (reconnect_keeps_lease auth_ok drc_ok hb ts Hok) as Hstep.
  destruct (_reconnect_drc auth_ok drc_ok hb ts) as [[ok hb'] ts'].
  destruct Hstep as (Hok' & Hfail & _).
  destruct ok; simpl; [done|].
  destruct (Hfail eq_refl) as [-> ->]. by apply IH.
Qed.

End HeartbeatLease.

(** X19. The manager never leaves a second heartbeat behind. If no
    heartbeat runs but the one it holds, then after any run of re-entry
    attempts the same is true; a run without success leaves the held
    heartbeat and every thread as they were; and [stop] afterwards
    leaves no heartbeat running. *)
Theorem heartbeat_lease_is_exclusive (outcomes : list (bool * bool))
    (heartbeat_thread : option nat) (ts : Lease.threads) :
  Lease.lease_ok heartbeat_thread ts →
  let '(ok, heartbeat_thread', ts') := Lease.attempts outcomes heartbeat_thread ts in
  Lease.lease_ok heartbeat_thread' ts' ∧
  (ok = false → heartbeat_thread' = heartbeat_thread ∧ ts' = ts) ∧
  Lease.running (Lease.stop heartbeat_thread' ts') = [].
Proof.
  intros Hok.
  destruct (attempts_keep_lease outcomes heartbeat_thread ts Hok) as [Hok' Hfail].
  destruct (Lease.attempts outcomes heartbeat_thread ts) as [[ok hb'] ts'].
  simpl in *. split; [done|]. split; [done|]. by apply stop_releases.
Qed.

Section PollingWaits.
Local Open Scope Qc_scope.

Lemma wait_for_condition_skips timeout start_time before : ∀ rest,
  Forall (λ turn, turn.1 - start_time < timeout ∧ turn.2 = inr false) before →
  wait_for_condition timeout start_time (before ++ rest)
  = wait_for_condition timeout start_time rest.
Proof.
  induction before as [|[now condition] before IH]; intros rest Hbefore; [done|].
  apply Forall_cons in Hbefore as [[Hnow Hfalse] Hbefore]. simpl in *.
  rewrite decide_True by done. rewrite Hfalse. by apply IH.
Qed.

End PollingWaits.

(** X20. [wait_for_condition] returns exactly when some test of the
    condition gives true at a clock reading strictly less than [timeout]
    after the start, every test before it having given false strictly
    inside the timeout too: a condition that would hold at the deadline
    itself is not looked at. *)
Theorem wait_for_condition_returns (timeout start_time : Qc)
    (turns : list (Qc * (exn + bool))) :
  wait_for_condition timeout start_time turns = Some (inr ()) ↔
  ∃ before now later,
    turns = (before ++ (now, inr true) :: later)%list ∧
    Forall (λ turn, (turn.1 - start_time < timeout)%Qc ∧ turn.2 = inr false) before ∧
    (now - start_time < timeout)%Qc.
Proof.
  split.
  - induction turns as [|[now condition] turns IH]; simpl; [done|].
    case_decide as Hnow; [|done].
    destruct condition as [e|[|]]; [done| |].
    + intros _. exists [], now, turns. by repeat split.
    + intros Hlater. destruct (IH Hlater) as (before & now' & later & -> & Hbefore & Hnow').
      exists ((now, inr false) :: before), now', later.
      split; [done|]. split; [|done]. by constructor.
  - intros (before & now & later & -> & Hbefore & Hnow).
    rewrite wait_for_condition_skips by done. simpl. by rewrite decide_True.
Qed.

(** X21. [wait_for_camera_data] never hands out half a result: the pair
    it returns is [(None, None)], at the deadline, or two truthy values,
    read in the same turn. *)
Theorem camera_data_is_all_or_nothing (max_wait start_time : Qc)
    (reads : list (Qc * client * client)) (aircraft_sn payload_index : pyval) :
  wait_for_camera_data max_wait start_time reads = Some (inr (aircraft_sn, payload_index)) →
  (aircraft_sn = PNone ∧ payload_index = PNone) ∨
  (truthy aircraft_sn = true ∧ truthy payload_index = true ∧
   ∃ now c1 c2, (now, c1, c2) ∈ reads ∧ (now - start_time < max_wait)%Qc ∧
                get_aircraft_sn c1 = inr aircraft_sn ∧
                get_payload_index c2 = Some payload_index).
Proof.
  induction reads as [|[[now c1] c2] reads IH]; simpl; [done|].
  case_decide as Hnow; [|intros [= <- <-]; by left].
  destruct (get_aircraft_sn c1) as [e|sn] eqn:Hsn; [done|].
  destruct (get_payload_index c2) as [idx|] eqn:Hidx; [|done].
  destruct (truthy sn && truthy idx) eqn:Hboth.
  - intros [= <- <-]. apply andb_true_iff in Hboth as [? ?]. right.
    split; [done|]. split; [done|]. exists now, c1, c2.
    split; [apply list_elem_of_here|done].
  - intros Hlater. destruct (IH Hlater) as [?|(? & ? & now' & c1' & c2' & Hin & ?)];
      [by left|right].
    split; [done|]. split; [done|]. exists now', c1', c2'.
    split; [by apply list_elem_of_further|done].
Qed.

Section StickControl.
Import Stick.

Lemma in_range_bounds v : in_range v = true ↔ (364 ≤ v ≤ 1684)%Z.
Proof. unfold in_range. rewrite andb_true_iff, !Z.leb_le. done. Qed.

End StickControl.

(** X22. A stick command is published only with all four channels in
    [364, 1684]; what is published then is one message of QoS 0 on the
    gateway's [drc/down] topic, carrying the channels as given and the
    caller's [seq], or the clock's milliseconds when none was given. *)
Theorem stick_control_is_guarded (gateway_sn : string) (now_ms roll pitch throttle yaw : Z)
    (seq : option Z) (t t' : Stick.transport) :
  Stick.drc_send_stick_control gateway_sn now_ms roll pitch throttle yaw seq t = inr t' →
  Forall (λ v, 364 ≤ v ≤ 1684)%Z [roll; pitch; throttle; yaw] ∧
  Stick.sent t'
  = (Stick.sent t ++ [(Stick.drc_down gateway_sn,
                       Stick.stick_payload (default now_ms seq) roll pitch throttle yaw,
                       0%Z)])%list.
Proof.
  unfold Stick.drc_send_stick_control, Stick.publish0. simpl.
  destruct (Stick.in_range roll) eqn:Hr; simpl; [|done].
  destruct (Stick.in_range pitch) eqn:Hp; simpl; [|done].
  destruct (Stick.in_range throttle) eqn:Ht; simpl; [|done].
  destruct (Stick.in_range yaw) eqn:Hy; simpl; [|done].
  destruct (Stick.connected t); [|done]. intros [= <-].
  apply in_range_bounds in Hr, Hp, Ht, Hy. split; [|done].
  repeat (apply Forall_cons; split; [done|]). constructor.
Qed.

(** X23. The two implementations of [send_stick_control] do the same
    when no [seq] is given: they reject for the same first channel out
    of range, and otherwise publish the same message. *)
Theorem stick_control_versions_agree (gateway_sn : string)
    (now_ms roll pitch throttle yaw : Z) (t : Stick.transport) :
  Stick.drc_send_stick_control gateway_sn now_ms roll pitch throttle yaw None t
  = Stick.send_stick_control gateway_sn now_ms roll pitch throttle yaw t.
Proof.
  unfold Stick.drc_send_stick_control, Stick.send_stick_control. simpl.
  destruct (Stick.in_range roll); simpl; [|done].
  destruct (Stick.in_range pitch); simpl; [|done].
  destruct (Stick.in_range throttle); simpl; [|done].
  by destruct (Stick.in_range yaw).
Qed.

Lemma lookup_store_fields keys (d : list (string * pyval)) k : ∀ m : gmap string pyval,
  store_fields keys d m !! k
  = if decide (k ∈ keys) then Some (dget k d) else m !! k.
Proof.
  unfold store_fields.
  induction keys as [|k' keys IH]; intros m; cbn [foldl].
  - rewrite decide_False; [done|]. apply not_elem_of_nil.
  - rewrite IH. destruct (decide (k ∈ keys)) as [Hin|Hout].
    + rewrite decide_True; [done|]. by apply list_elem_of_further.
    + destruct (decide (k = k')) as [->|Hne].
      * rewrite decide_True by apply list_elem_of_here. by rewrite lookup_insert_eq.
      * rewrite decide_False by (by intros [?|?]%elem_of_cons).
        by rewrite lookup_insert_ne.
Qed.

(** X24. A progress event for the awaited task with a terminal status
    ends the wait at the next read, as late as at the bound itself, and
    the record returned is that event's: each of the seven fields is the
    event's, [None] where the event did not carry it. *)
Theorem flyto_event_ends_wait (expected status : string) (timeout start_time now t : Qc)
    (msgs : list inbound) (d : list (string * pyval))
    (later : list (Qc * list inbound)) (c : client) :
  (now - start_time ≤ timeout)%Qc →
  dget "fly_to_id" d = PStr expected →
  dget "status" d = PStr status →
  status ∈ terminal_statuses →
  ∃ progress,
    wait_for_flyto_event expected timeout start_time
      (observe ((now, (msgs ++ [push "fly_to_point_progress" t (PDict d)])%list) :: later) c)
    = Some (inr progress) ∧
    ∀ k, k ∈ flyto_keys → field k progress = dget k d.
Proof.
  intros Hnow Hid Hstatus Hterminal.
  cbn [observe]. rewrite dispatch_app.
  change (dispatch [push "fly_to_point_progress" t (PDict d)] (dispatch msgs c))
    with (on_flyto (PDict d) (dispatch msgs c)).
  generalize (dispatch msgs c). intros c0.
  assert (∀ k, k ∈ flyto_keys →
               field k (get_flyto_progress (on_flyto (PDict d) c0)) = dget k d) as Hfields.
  { intros k Hk. unfold field, get_flyto_progress, on_flyto.
    cache_fields. rewrite lookup_store_fields. by rewrite decide_True. }
  exists (get_flyto_progress (on_flyto (PDict d) c0)). split; [|done].
  cbn [wait_for_flyto_event].
  rewrite decide_False by (by apply Qcle_not_lt).
  rewrite !Hfields by (by vm_compute; repeat constructor).
  rewrite Hid, Hstatus. simpl. rewrite String.eqb_refl.
  unfold terminal_statuses in Hterminal.
  repeat (apply elem_of_cons in Hterminal as [->|Hterminal]; [done|]).
  by apply elem_of_nil in Hterminal.
Qed.

End Properties.

(** * The properties at concrete inputs *)

(** Here every line prints. *)

Section Instances.
Local Existing Instance plain.
Import PyMore Accessors Commands Waits Observations.

Lemma reply_error_precedence_witness :
  futures (_on_message 0%Qc (inr (PDict reply_both_errors)) ping_pending) !! 0%nat
  = Some (Done (Raised (Exception (PStr "rejected")))) ∧
  futures (_on_message 0%Qc (inr (PDict reply_body_error)) ping_pending) !! 0%nat
  = Some (Done (Raised (Exception (PStr "body says no")))) ∧
  futures (_on_message 0%Qc (inr (PDict reply_ok)) ping_pending) !! 0%nat
  = Some (Done (Result (PDict [("result", PInt 0)]))).
Proof.
  split; [|split].
  - apply (proj1 (reply_error_precedence 0%Qc reply_both_errors ping_pending "t-1"
                    0%nat eq_refl ltac:(done) eq_refl eq_refl)
             (PStr "rejected")).
    by exists [("code", PInt 5); ("message", PStr "rejected")].
  - apply (proj1 (proj2 (reply_error_precedence 0%Qc reply_body_error ping_pending
                           "t-1" 0%nat eq_refl ltac:(done) eq_refl eq_refl))
             (PStr "body says no")).
    + right. right. by exists [("code", PInt 0)].
    + by exists [("result", PInt 1); ("output", PDict [("msg", PStr "body says no")])],
        (PInt 1), [("msg", PStr "body says no")].
  - apply (proj1 (proj2 (proj2 (reply_error_precedence 0%Qc reply_ok ping_pending
                                  "t-1" 0%nat eq_refl ltac:(done) eq_refl eq_refl)))).
    + by left.
    + right. by exists [("result", PInt 0)], (PInt 0).
Defined.

Lemma call_timeout_cleans_up_witness :
  let r := call "ping" PNone "t-1" [(1%Qc, inr (osd_push (PDict [])))] connected in
  r.1 = inl TimeoutError ∧
  pending_requests r.2 !! "t-1" = None ∧
  cleanup_request "t-1" r.2 = r.2.
Proof.
  apply (call_timeout_cleans_up "ping" PNone "t-1"
           [(1%Qc, inr (osd_push (PDict [])))] connected).
  - by exists [Connect].
  - reflexivity.
  - repeat constructor.
Defined.

(** On a client that was never connected, a [call] that no reply answers
    does not time out: it raises [AttributeError] at once, and its entry
    stays in the table. *)
Lemma call_before_connect_leaks :
  let r := call "ping" PNone "t-1" [] init in
  r.1 = inl AttributeError ∧
  r.1 ≠ inl TimeoutError ∧
  pending_requests r.2 !! "t-1" = Some 0%nat.
Proof. by repeat split. Qed.

Lemma pending_table_invariant_witness :
  pending_requests (_on_message 0%Qc (inr (PDict reply_ok)) ping_pending) !! "t-1" = None ∧
  pending_requests (call "pong" PNone "t-2" [] ping_pending).2 !! "t-2" = None.
Proof.
  split.
  - exact (proj1 (proj2 (proj2 (pending_table_invariant
                                  [Connect; Issue "ping" (PDict []) "t-1"])))
             0%Qc (inr (PDict reply_ok)) "t-1" 0%nat
             (Result (PDict [("result", PInt 0)])) eq_refl eq_refl).
  - apply (proj2 (proj2 (proj2 (proj2 (pending_table_invariant
                                         [Connect; Issue "ping" (PDict []) "t-1"]))))
             "pong" PNone "t-2" []).
    right. right. reflexivity.
Defined.

Lemma flyto_wait_correlates_witness :
  (matches_id "X" (progress_of "X" "wayline_failed") = true ∧
   is_terminal (progress_of "X" "wayline_failed") = true ∧
   ∃ now, (now, progress_of "X" "wayline_failed") ∈ stale_then_own ∧
          (now - 0 ≤ Qc_of_Z 120)%Qc) ∧
  wait_for_flyto_event "X" 2%Qc 0%Qc stale_only = Some (inl TimeoutError) ∧
  wait_for_flyto_event "X" 2%Qc 0%Qc
    [(1%Qc, progress_of "W" "wayline_ok"); (2%Qc, progress_array_status "X")]
  = Some (inl TypeError).
Proof.
  split; [|split].
  - exact (proj1 (flyto_wait_correlates "X" (Qc_of_Z 120) 0%Qc stale_then_own)
             (progress_of "X" "wayline_failed") eq_refl).
  - apply (proj1 (proj2 (proj2 (flyto_wait_correlates "X" 2%Qc 0%Qc stale_only)))
             [(1%Qc, progress_of "W" "wayline_ok")] (Qc_of_Z 3)
             (progress_of "W" "wayline_ok") []).
    + reflexivity.
    + by vm_compute.
    + repeat constructor.
    + constructor; [by intros _|constructor].
  - apply (proj2 (proj2 (proj2 (flyto_wait_correlates "X" 2%Qc 0%Qc
                                  [(1%Qc, progress_of "W" "wayline_ok");
                                   (2%Qc, progress_array_status "X")])))
             [(1%Qc, progress_of "W" "wayline_ok")] 2%Qc
             (progress_array_status "X") []).
    + reflexivity.
    + by vm_compute.
    + constructor; [by vm_compute|constructor].
    + repeat constructor.
    + constructor; [by intros _|constructor].
    + reflexivity.
    + reflexivity.
Defined.

(** A wait that sees no matching terminal record within the bound and
    yet does not time out: the wait for task X reads, within the bound,
    X's record with an array as status; the clock passes the bound at
    the next read, and the wait has raised [TypeError], not
    [TimeoutError]. *)
Lemma flyto_wait_unhashable_status :
  let reads := [(1%Qc, progress_array_status "X"); (Qc_of_Z 3, progress_array_status "X")] in
  Forall (λ r, matches_id "X" r.2 && is_terminal r.2 = false) reads ∧
  (2 < Qc_of_Z 3 - 0)%Qc ∧
  wait_for_flyto_event "X" 2%Qc 0%Qc reads = Some (inl TypeError) ∧
  wait_for_flyto_event "X" 2%Qc 0%Qc reads ≠ Some (inl TimeoutError).
Proof.
  intros reads. split; [by repeat constructor|]. split; [by vm_compute|].
  by split.
Qed.

Lemma heartbeat_keeps_deadline_witness :
  let log := (Heartbeat.heartbeat_loop 1%Qc 0%Qc 0 [0%Qc; 0%Qc; 1%Qc; Qc_of_Z 4]).1 in
  Heartbeat.at_clock <$> log = [0%Qc; 0%Qc; 1%Qc; Qc_of_Z 4] ∧
  Heartbeat.chained 0%Qc log ∧
  Forall (Heartbeat.on_schedule 1%Qc) log.
Proof.
  apply (heartbeat_keeps_deadline 1%Qc 0%Qc 0 [0%Qc; 0%Qc; 1%Qc; Qc_of_Z 4]).
  - by vm_compute.
  - simpl. repeat split; by vm_compute.
Defined.

(** The turns of that run: a heartbeat, a sleep of the full second left,
    a heartbeat on time, and one three seconds late, after which the
    deadline is set one interval past the clock. *)
Example heartbeat_turns :
  (λ e, (Heartbeat.act e, this (Heartbeat.deadline_after e)))
    <$> (Heartbeat.heartbeat_loop 1%Qc 0%Qc 0 [0%Qc; 0%Qc; 1%Qc; Qc_of_Z 4]).1
  = [(Heartbeat.Beat 1, 1%Q); (Heartbeat.Sleep 1%Qc, 1%Q);
     (Heartbeat.Beat 2, 2%Q); (Heartbeat.Beat 3, 5%Q)].
Proof. by vm_compute. Qed.

Lemma frequency_window_rate_witness :
  _osd_timestamps (dispatch (pushes (uniform 3 0%Qc 2%Qc)) init) = uniform 3 0%Qc 2%Qc ∧
  get_osd_frequency (dispatch (pushes (uniform 3 0%Qc 2%Qc)) init)
    = (Qc_of_Z (Z.of_nat 3 - 1) / 2)%Qc.
Proof.
  assert ((0 < 2)%Qc) as Hpos by by vm_compute.
  assert (_osd_timestamps (dispatch (pushes (uniform 3 0%Qc 2%Qc)) init)
          = uniform 3 0%Qc 2%Qc) as Hts.
  { apply (proj2 (proj2 frequency_window_rate) 3%nat 0%Qc 2%Qc); [lia|done|].
    by vm_compute. }
  split; [done|].
  apply (proj1 (proj2 frequency_window_rate) _ 3%nat 0%Qc 2%Qc); [lia|done|done].
Defined.

Lemma online_needs_osd_witness :
  is_online (Qc_of_Z 1000000) (Qc_of_Z 1000000) (dispatch [hsi_push] init) = false ∧
  is_online (Qc_of_Z 6) 2%Qc
    (dispatch ([hsi_push] ++ (Qc_of_Z 5, inr (osd_push (PDict []))) :: [hsi_push]) init)
  = bool_decide (Qc_of_Z 6 - Qc_of_Z 5 < 2)%Qc.
Proof.
  split.
  - apply (proj1 online_needs_osd [hsi_push]). repeat constructor.
  - apply (proj2 online_needs_osd [hsi_push] (Qc_of_Z 5) [] [hsi_push] init).
    + by vm_compute.
    + repeat constructor.
Defined.

Section MonitorInstances.
Import DRCConnectionManager.

Lemma offline_after_budget_witness :
  poll telemetry_resumes 0 (initial 2)
  = Manager OFFLINE false 2
      [Changed ONLINE RECONNECTING; Attempt 1 false; Attempt 2 false;
       Changed RECONNECTING OFFLINE] ∧
  state (_monitor_loop telemetry_resumes 5 1 (poll telemetry_resumes 0 (initial 2)))
  = OFFLINE.
Proof.
  split.
  - apply (proj1 offline_after_budget telemetry_resumes 0%nat (initial 2));
      try reflexivity.
    apply Forall_forall. intros k _. by split.
  - apply (proj2 offline_after_budget telemetry_resumes 5%nat 1%nat).
    reflexivity.
Defined.

End MonitorInstances.

(** A ["ping"] answered at once with [result = 0] returns the body. *)
Example ping_answered :
  (call "ping" PNone "t-1" [(0%Qc, inr (PDict reply_ok))] connected).1
  = inr (PDict [("result", PInt 0)]).
Proof. reflexivity. Qed.

(** With both encodings signalling an error, the envelope's message is the
    one raised. *)
Example ping_rejected :
  (call "ping" PNone "t-1" [(0%Qc, inr (PDict reply_both_errors))] connected).1
  = inl (Exception (PStr "rejected")).
Proof. reflexivity. Qed.

(** A reply whose [info] is not an object makes the handler raise after the
    entry is popped: the caller times out, and the table is clean. *)
Example ping_malformed_reply :
  let r := call "ping" PNone "t-1"
             [(0%Qc, inr (PDict [("tid", PStr "t-1"); ("info", PStr "oops")]))]
             connected in
  r.1 = inl TimeoutError ∧ pending_requests r.2 !! "t-1" = None.
Proof. by split. Qed.

(** The wait for task X steps over the terminal record of the superseded
    task W and returns X's own. *)
Example wait_skips_stale_task :
  wait_for_flyto_event "X" (Qc_of_Z 120) 0%Qc stale_then_own
  = Some (inr (progress_of "X" "wayline_failed")).
Proof. reflexivity. Qed.

(** Two pushes further apart than the window: the older one is evicted on
    the second insert, one timestamp is left and the rate is [0]. *)
Example sparse_pushes_are_evicted :
  _osd_timestamps (dispatch (pushes [0%Qc; Qc_of_Z 3]) init) = [Qc_of_Z 3] ∧
  get_osd_frequency (dispatch (pushes [0%Qc; Qc_of_Z 3]) init) = 0%Qc.
Proof. by split. Qed.

(** A successful re-entry at the second attempt brings the monitor back to
    ONLINE. *)
Example second_attempt_recovers :
  let w := {| DRCConnectionManager.stop_called := λ _ _, false;
              DRCConnectionManager.telemetry := λ _ _, false;
              DRCConnectionManager.request_control_auth := λ _ _, true;
              DRCConnectionManager.enter_drc_mode := λ _ k, Z.eqb k 2 |} in
  DRCConnectionManager.log
    (DRCConnectionManager.poll w 0 (DRCConnectionManager.initial 10))
  = [DRCConnectionManager.Changed DRCConnectionManager.ONLINE
       DRCConnectionManager.RECONNECTING;
     DRCConnectionManager.Attempt 1 false;
     DRCConnectionManager.Attempt 2 true;
     DRCConnectionManager.Changed DRCConnectionManager.RECONNECTING
       DRCConnectionManager.ONLINE].
Proof. reflexivity. Qed.

Lemma message_paths_are_separate_witness :
  same_table (_on_message 0%Qc
                (inr (PDict [("method", PStr "osd_info_push");
                             ("tid", PStr "t-1"); ("data", PDict [])]))
                Scenarios.ping_pending)
             Scenarios.ping_pending ∧
  same_cache (_on_message 0%Qc (inr (PDict Scenarios.reply_ok)) Scenarios.ping_pending)
             Scenarios.ping_pending.
Proof.
  split.
  - apply (proj1 (message_paths_are_separate
             (0%Qc, inr (PDict [("method", PStr "osd_info_push");
                                ("tid", PStr "t-1"); ("data", PDict [])]))
             Scenarios.ping_pending)).
    reflexivity.
  - apply (proj2 (message_paths_are_separate
             (0%Qc, inr (PDict Scenarios.reply_ok)) Scenarios.ping_pending)).
    reflexivity.
Defined.

Lemma late_reply_is_dropped_witness :
  _on_message 0%Qc (inr (PDict Scenarios.reply_ok)) connected = connected ∧
  let c' := (call "ping" PNone "t-1" [] connected).2 in
  _on_message 0%Qc (inr (PDict Scenarios.reply_ok)) c' = c'.
Proof.
  split.
  - by apply (proj1 late_reply_is_dropped "t-1" 0%Qc Scenarios.reply_ok connected).
  - apply (proj2 late_reply_is_dropped "ping" PNone "t-1" [] 0%Qc Scenarios.reply_ok
             connected).
    + by exists [Connect].
    + reflexivity.
    + reflexivity.
Defined.

Lemma completed_future_is_final_witness :
  futures (foldl step
             (_on_message 0%Qc (inr (PDict Scenarios.reply_ok)) Scenarios.ping_pending)
             [Deliver (1%Qc, inr (PDict Scenarios.reply_both_errors));
              Issue "ping" PNone "t-1"; Cleanup "t-1"]) !! 0%nat
  = Some (Done (Result (PDict [("result", PInt 0)]))).
Proof.
  apply (completed_future_is_final
           [Deliver (1%Qc, inr (PDict Scenarios.reply_both_errors));
            Issue "ping" PNone "t-1"; Cleanup "t-1"]).
  reflexivity.
Defined.

Lemma reused_tid_orphans_first_witness :
  let first := publish "ping" PNone "t-1" connected in
  let second := publish "pong" PNone "t-1" first.2 in
  first.1 = inr 0%nat ∧
  second.1 = inr 1%nat ∧
  futures (foldl step second.2 [Deliver (0%Qc, inr (PDict Scenarios.reply_ok))])
  = [Pending; Done (Result (PDict [("result", PInt 0)]))] ∧
  futures (foldl step second.2 [Deliver (0%Qc, inr (PDict Scenarios.reply_ok))])
    !! 0%nat = Some Pending ∧
  (await 0%nat [(0%Qc, inr (PDict Scenarios.reply_ok))] second.2).1 = None.
Proof.
  intros first second.
  split; [reflexivity|]. split; [reflexivity|]. split; [reflexivity|].
  apply (reused_tid_orphans_first "ping" "pong" PNone PNone "t-1"
           [Deliver (0%Qc, inr (PDict Scenarios.reply_ok))]
           [(0%Qc, inr (PDict Scenarios.reply_ok))] connected).
  by exists [Connect].
Defined.

Lemma call_returns_first_reply_witness :
  (call "ping" PNone "t-1"
     ([Scenarios.hsi_push] ++ (0%Qc, inr (PDict Scenarios.reply_ok))
        :: [(1%Qc, inr (PDict Scenarios.reply_both_errors))]) connected).1
  = inr (PDict [("result", PInt 0)]) ∧
  (call "ping" PNone "t-1"
     ([Scenarios.hsi_push] ++ (0%Qc, inr (PDict Scenarios.reply_both_errors))
        :: [(1%Qc, inr (PDict Scenarios.reply_ok))]) connected).1
  = inl (Exception (PStr "rejected")) ∧
  (call (con := Scenarios.rejecting "rejected") "ping" PNone "t-1"
     ([Scenarios.hsi_push] ++ (0%Qc, inr (PDict Scenarios.reply_both_errors))
        :: [(1%Qc, inr (PDict Scenarios.reply_ok))])
     (connected (con := Scenarios.rejecting "rejected"))).1
  = inl TimeoutError ∧
  (call "ping" PNone "t-1"
     ([Scenarios.hsi_push]
        ++ (0%Qc, inr (PDict [("tid", PStr "t-1"); ("info", PStr "oops")]))
        :: [(1%Qc, inr (PDict Scenarios.reply_ok))]) connected).1
  = inl TimeoutError.
Proof.
  split; [|split; [|split]].
  - apply (proj1 (proj2 (call_returns_first_reply "ping" PNone "t-1"
                           [Scenarios.hsi_push]
                           [(1%Qc, inr (PDict Scenarios.reply_both_errors))] 0%Qc
                           Scenarios.reply_ok connected
                           (ex_intro _ [Connect] eq_refl) eq_refl ltac:(done)
                           ltac:(repeat constructor) eq_refl))).
    + by left.
    + right. by exists [("result", PInt 0)], (PInt 0).
  - apply (proj1 (call_returns_first_reply "ping" PNone "t-1"
                    [Scenarios.hsi_push]
                    [(1%Qc, inr (PDict Scenarios.reply_ok))] 0%Qc
                    Scenarios.reply_both_errors connected
                    (ex_intro _ [Connect] eq_refl) eq_refl ltac:(done)
                    ltac:(repeat constructor) eq_refl)
             (PStr "rejected")).
    left. by exists [("code", PInt 5); ("message", PStr "rejected")].
  - apply (proj1 (call_returns_first_reply (con := Scenarios.rejecting "rejected")
                    "ping" PNone "t-1"
                    [Scenarios.hsi_push]
                    [(1%Qc, inr (PDict Scenarios.reply_ok))] 0%Qc
                    Scenarios.reply_both_errors
                    (connected (con := Scenarios.rejecting "rejected"))
                    (ex_intro _ [Connect] eq_refl) eq_refl ltac:(done)
                    ltac:(repeat constructor) eq_refl)
             (PStr "rejected")).
    left. by exists [("code", PInt 5); ("message", PStr "rejected")].
  - by apply (proj2 (proj2 (call_returns_first_reply "ping" PNone "t-1"
                              [Scenarios.hsi_push]
                              [(1%Qc, inr (PDict Scenarios.reply_ok))] 0%Qc
                              [("tid", PStr "t-1"); ("info", PStr "oops")] connected
                              (ex_intro _ [Connect] eq_refl) eq_refl ltac:(done)
                              ltac:(repeat constructor) eq_refl))
               (PStr "oops")).
Defined.

Lemma call_service_succeeds_iff_witness :
  (_call_service "ping" PNone "t-1"
     ([] ++ (0%Qc, inr (PDict [("tid", PStr "t-1");
                               ("data", PDict [("result", PInt 0);
                                               ("data", PDict [("ok", PBool true)])])]))
         :: []) connected).1
  = inr (PDict [("ok", PBool true)]).
Proof.
  apply (proj2 (call_service_succeeds_iff "ping" PNone "t-1" [] [] 0%Qc
                  [("tid", PStr "t-1");
                   ("data", PDict [("result", PInt 0);
                                   ("data", PDict [("ok", PBool true)])])]
                  connected (PDict [("ok", PBool true)])
                  (ex_intro _ [Connect] eq_refl) ltac:(done) ltac:(constructor)
                  eq_refl)).
  split; [reflexivity|]. split; [reflexivity|].
  exists [("result", PInt 0); ("data", PDict [("ok", PBool true)])], (PInt 0).
  by repeat split.
Defined.

Lemma reply_without_result_splits_witness :
  let during := ([] ++ (0%Qc, inr (PDict [("tid", PStr "t-1");
                                          ("data", PDict [("message", PStr "busy")])]))
                    :: [])%list in
  ((call "ping" PNone "t-1" during connected).1
   = inr (PDict [("message", PStr "busy")]) ∧
   (_call_service "ping" PNone "t-1" during connected).1
   = inl (ServiceFailed "ping" (PStr "unknown") (PStr "busy")
            (PDict [("message", PStr "busy")]))) ∧
  (_call_service (con := Scenarios.rejecting "busy") "ping" PNone "t-1" during
     (connected (con := Scenarios.rejecting "busy"))).1
  = inl (Escaped MarkupError).
Proof.
  split.
  - exact (reply_without_result_splits "ping" PNone "t-1" [] [] 0%Qc
             [("tid", PStr "t-1"); ("data", PDict [("message", PStr "busy")])]
             [("message", PStr "busy")] connected
             (ex_intro _ [Connect] eq_refl) eq_refl ltac:(done)
             ltac:(constructor) eq_refl ltac:(by left) eq_refl eq_refl eq_refl).
  - exact (proj2 (reply_without_result_splits (con := Scenarios.rejecting "busy")
                    "ping" PNone "t-1" [] [] 0%Qc
                    [("tid", PStr "t-1"); ("data", PDict [("message", PStr "busy")])]
                    [("message", PStr "busy")]
                    (connected (con := Scenarios.rejecting "busy"))
                    (ex_intro _ [Connect] eq_refl) eq_refl ltac:(done)
                    ltac:(constructor) eq_refl ltac:(by left) eq_refl eq_refl
                    eq_refl)).
Defined.

Lemma osd_fields_follow_latest_push_witness :
  let c' := dispatch ([push "osd_info_push" 0%Qc
                         (PDict [("latitude", PInt 1); ("longitude", PInt 2);
                                 ("height", PInt 3)])]
                      ++ push "osd_info_push" 1%Qc (PDict [("latitude", PInt 7)])
                      :: [Scenarios.hsi_push]) init in
  get_position c' = Some (PInt 7, PNone, PNone) ∧
  get_speed c' = Some (PNone, PNone, PNone, PNone) ∧
  get_attitude_head c' = Some PNone.
Proof.
  apply (osd_fields_follow_latest_push
           [push "osd_info_push" 0%Qc
              (PDict [("latitude", PInt 1); ("longitude", PInt 2); ("height", PInt 3)])]
           [Scenarios.hsi_push] 1%Qc [("latitude", PInt 7)] init).
  repeat constructor.
Defined.

Lemma takeoff_height_is_latched_witness :
  takeoff_height (_on_message 0%Qc (inr (osd_push (PDict [("height", PInt 50)]))) init)
  = dget "height" [("height", PInt 50)] ∧
  takeoff_height
    (dispatch [push "osd_info_push" 1%Qc (PDict [("height", PInt 80)])]
       (_on_message 0%Qc (inr (osd_push (PDict [("height", PInt 50)]))) init))
  = takeoff_height (_on_message 0%Qc (inr (osd_push (PDict [("height", PInt 50)]))) init).
Proof.
  split.
  - by apply (proj1 takeoff_height_is_latched).
  - by apply (proj2 takeoff_height_is_latched).
Defined.

Lemma drone_state_update_is_torn_witness :
  let c := _on_message 0%Qc
             (push "drc_drone_state_push" 0%Qc
                (PDict [("mode_code", PInt 3);
                        ("limit", PDict [("height_limit", PInt 120)]);
                        ("is_in_fixed_speed", PBool false)])).2 init in
  let c' := _on_message 1%Qc
              (push "drc_drone_state_push" 1%Qc
                 (PDict [("mode_code", PInt 5); ("limit", PNone);
                         ("is_in_fixed_speed", PBool true)])).2 c in
  get_flight_mode c' = Some (PInt 5) ∧
  get_drone_state c' !! "height_limit" = Some (PInt 120) ∧
  get_drone_state c' !! "is_in_fixed_speed" = Some (PBool false).
Proof.
  intros c c'.
  destruct (proj1 (drone_state_update_is_torn 1%Qc
                     [("mode_code", PInt 5); ("limit", PNone);
                      ("is_in_fixed_speed", PBool true)] c) eq_refl)
    as (Hmode & _ & Hkept).
  split; [exact Hmode|].
  split; (etransitivity; [apply Hkept; done|]).
  - apply (proj2 (drone_state_update_is_torn 0%Qc
                    [("mode_code", PInt 3);
                     ("limit", PDict [("height_limit", PInt 120)]);
                     ("is_in_fixed_speed", PBool false)] init)
             [("height_limit", PInt 120)] eq_refl).
  - apply (proj2 (drone_state_update_is_torn 0%Qc
                    [("mode_code", PInt 3);
                     ("limit", PDict [("height_limit", PInt 120)]);
                     ("is_in_fixed_speed", PBool false)] init)
             [("height_limit", PInt 120)] eq_refl).
Defined.

Lemma aircraft_sn_follows_topology_witness :
  let c' := dispatch
              ([push "update_topo" 0%Qc
                  (PDict [("sub_devices", PList [PDict [("sn", PStr "OLD")]])])]
               ++ push "update_topo" 1%Qc
                    (PDict [("sub_devices",
                             PList [PDict [("sn", PStr "1581F5BK")]; PDict []])])
               :: [Scenarios.hsi_push]) init in
  get_aircraft_sn c' = inr (PStr "1581F5BK").
Proof.
  intros c'.
  apply (proj1 (proj2 (aircraft_sn_follows_topology
                  [push "update_topo" 0%Qc
                     (PDict [("sub_devices", PList [PDict [("sn", PStr "OLD")]])])]
                  [Scenarios.hsi_push] 1%Qc
                  (PDict [("sub_devices",
                           PList [PDict [("sn", PStr "1581F5BK")]; PDict []])])
                  init ltac:(repeat constructor)))
           [("sub_devices", PList [PDict [("sn", PStr "1581F5BK")]; PDict []])]
           (PDict [("sn", PStr "1581F5BK")]) [PDict []] eq_refl eq_refl).
Defined.

Lemma local_height_follows_latest_hsi_witness :
  let c' := dispatch ([] ++ push "hsi_info_push" 0%Qc
                                (PDict [("down_distance", PInt 12);
                                        ("down_enable", PInt 1);
                                        ("down_work", PBool true)])
                         :: [push "osd_info_push" 1%Qc (PDict [])]) init in
  get_local_height c' = Some (PInt 12) ∧ is_local_height_ok c' = Some false.
Proof.
  apply (local_height_follows_latest_hsi [] [push "osd_info_push" 1%Qc (PDict [])] 0%Qc
           [("down_distance", PInt 12); ("down_enable", PInt 1);
            ("down_work", PBool true)] init).
  repeat constructor.
Defined.

Lemma frequency_window_in_order_witness :
  window_ok (dispatch (pushes [1%Qc; 2%Qc; Qc_of_Z 5]) init) ∧
  (0 ≤ get_osd_frequency (dispatch (pushes [1%Qc; 2%Qc; Qc_of_Z 5]) init))%Qc.
Proof.
  apply (frequency_window_in_order (pushes [1%Qc; 2%Qc; Qc_of_Z 5])).
  simpl. repeat split; repeat constructor; by vm_compute.
Defined.

Lemma heartbeat_seq_is_consecutive_witness :
  ∃ e, beats (Heartbeat.heartbeat_loop 1%Qc 0%Qc 100
                [0%Qc; 0%Qc; 1%Qc; Qc_of_Z 4]).1 !! 2%nat = Some e ∧
       beat_seq e = Some 103%Z.
Proof.
  eexists. split; [by vm_compute|].
  apply (heartbeat_seq_is_consecutive 1%Qc 0%Qc 100 [0%Qc; 0%Qc; 1%Qc; Qc_of_Z 4] 2).
  by vm_compute.
Defined.

Lemma heartbeat_pace_is_bounded_witness :
  ∃ e, beats (Heartbeat.heartbeat_loop 1%Qc 0%Qc 100
                [0%Qc; 0%Qc; 1%Qc; Qc_of_Z 4]).1 !! 2%nat = Some e ∧
       (0 + Qc_of_Z (Z.of_nat 2) * 1 ≤ Heartbeat.at_clock e)%Qc.
Proof.
  eexists. split; [by vm_compute|].
  apply (heartbeat_pace_is_bounded 1%Qc 0%Qc 100 [0%Qc; 0%Qc; 1%Qc; Qc_of_Z 4] 2).
  by vm_compute.
Defined.

Lemma round_ends_at_first_success_witness :
  let w := DRCConnectionManager.World
             (λ _ _, false) (λ _ _, false) (λ _ _, true) (λ _ j, (2 <=? j)%Z) in
  DRCConnectionManager.poll w 0 (DRCConnectionManager.initial 10) =
    DRCConnectionManager.Manager DRCConnectionManager.ONLINE false 10
      ([] ++ [DRCConnectionManager.Changed DRCConnectionManager.ONLINE
                DRCConnectionManager.RECONNECTING]
          ++ ((λ j, DRCConnectionManager.Attempt j false) <$> seqZ 1 (2 - 1))
          ++ [DRCConnectionManager.Attempt 2 true;
              DRCConnectionManager.Changed DRCConnectionManager.RECONNECTING
                DRCConnectionManager.ONLINE])%list.
Proof.
  intros w.
  apply (round_ends_at_first_success w 0%nat (DRCConnectionManager.initial 10) 2);
    try reflexivity.
  - simpl. lia.
  - by repeat constructor.
Defined.

Lemma stop_interrupts_round_witness :
  let w := DRCConnectionManager.World
             (λ _ j, (3 <=? j)%Z) (λ _ _, false) (λ _ _, false) (λ _ _, true) in
  let m' := DRCConnectionManager.Manager DRCConnectionManager.RECONNECTING true 10
              ([] ++ [DRCConnectionManager.Changed DRCConnectionManager.ONLINE
                        DRCConnectionManager.RECONNECTING]
                  ++ ((λ j, DRCConnectionManager.Attempt j false) <$> seqZ 1 (3 - 1)))%list in
  DRCConnectionManager.poll w 0 (DRCConnectionManager.initial 10) = m' ∧
  DRCConnectionManager._monitor_loop w 4 1 m' = m'.
Proof.
  intros w.
  apply (stop_interrupts_round w 0%nat (DRCConnectionManager.initial 10) 3 4);
    try reflexivity.
  - simpl. lia.
  - by repeat constructor.
Defined.

Lemma heartbeat_lease_is_exclusive_witness :
  let '(ok, heartbeat_thread', ts') :=
    Lease.attempts [(true, false); (true, true); (true, true)] (Some 0%nat) [false] in
  Lease.lease_ok heartbeat_thread' ts' ∧
  (ok = false → heartbeat_thread' = Some 0%nat ∧ ts' = [false]) ∧
  Lease.running (Lease.stop heartbeat_thread' ts') = [].
Proof.
  apply (heartbeat_lease_is_exclusive
           [(true, false); (true, true); (true, true)] (Some 0%nat) [false]).
  intros i Hi. apply list_elem_of_singleton in Hi. by subst.
Defined.

Lemma wait_for_condition_returns_witness :
  wait_for_condition 1%Qc 0%Qc [(0%Qc, inr false); (0%Qc, inr true); (1%Qc, inr true)]
  = Some (inr ()).
Proof.
  apply (proj2 (wait_for_condition_returns 1%Qc 0%Qc
                  [(0%Qc, inr false); (0%Qc, inr true); (1%Qc, inr true)])).
  exists [(0%Qc, inr false)], 0%Qc, [(1%Qc, inr true)].
  split; [reflexivity|]. split; [|by vm_compute].
  by repeat constructor.
Defined.

Lemma camera_data_is_all_or_nothing_witness :
  let ready :=
    dispatch [push "update_topo" 0%Qc
                (PDict [("sub_devices", PList [PDict [("sn", PStr "1581F5BK")]])]);
              push "drc_camera_osd_info_push" 0%Qc
                (PDict [("payload_index", PStr "88-0-0")])] init in
  let reads := [(0%Qc, init, init); (0%Qc, ready, ready); (1%Qc, ready, ready)] in
  wait_for_camera_data 1%Qc 0%Qc reads
  = Some (inr (PStr "1581F5BK", PStr "88-0-0")) ∧
  truthy (PStr "1581F5BK") = true ∧ truthy (PStr "88-0-0") = true ∧
  (∃ now c1 c2, (now, c1, c2) ∈ reads ∧ (now - 0 < 1)%Qc ∧
                get_aircraft_sn c1 = inr (PStr "1581F5BK") ∧
                get_payload_index c2 = Some (PStr "88-0-0")) ∧
  wait_for_camera_data 1%Qc 0%Qc [(0%Qc, init, init); (1%Qc, ready, ready)]
  = Some (inr (PNone, PNone)).
Proof.
  intros ready reads.
  assert (wait_for_camera_data 1%Qc 0%Qc reads
          = Some (inr (PStr "1581F5BK", PStr "88-0-0"))) as Hret by by vm_compute.
  split; [exact Hret|].
  destruct (camera_data_is_all_or_nothing 1%Qc 0%Qc reads (PStr "1581F5BK")
              (PStr "88-0-0") Hret) as [[Hnone _]|(Hsn & Hidx & Hread)];
    [discriminate Hnone|].
  split; [exact Hsn|]. split; [exact Hidx|]. split; [exact Hread|].
  by vm_compute.
Defined.

Lemma stick_control_is_guarded_witness :
  Forall (λ v, 364 ≤ v ≤ 1684)%Z [1024; 1354; 1024; 364]%Z ∧
  Stick.sent (Stick.Transport true
                [("thing/product/GW1/drc/down",
                  Stick.stick_payload 7 1024 1354 1024 364, 0%Z)])
  = ([] ++ [(Stick.drc_down "GW1",
             Stick.stick_payload (default 1700000000000%Z (Some 7%Z)) 1024 1354 1024 364,
             0%Z)])%list.
Proof.
  apply (stick_control_is_guarded "GW1" 1700000000000 1024 1354 1024 364 (Some 7%Z)
           (Stick.Transport true [])).
  reflexivity.
Defined.

Lemma flyto_event_ends_wait_witness :
  ∃ progress,
    wait_for_flyto_event "X" 1%Qc 0%Qc
      (observe ((1%Qc, ([Scenarios.flyto_event "W" "wayline_ok"]
                        ++ [push "fly_to_point_progress" 1%Qc
                              (PDict [("fly_to_id", PStr "X");
                                      ("status", PStr "wayline_failed")])])%list) :: [])
         init)
    = Some (inr progress) ∧
    ∀ k, k ∈ flyto_keys →
         field k progress
         = dget k [("fly_to_id", PStr "X"); ("status", PStr "wayline_failed")].
Proof.
  apply (flyto_event_ends_wait "X" "wayline_failed" 1%Qc 0%Qc 1%Qc 1%Qc
           [Scenarios.flyto_event "W" "wayline_ok"]
           [("fly_to_id", PStr "X"); ("status", PStr "wayline_failed")] [] init).
  - by vm_compute.
  - reflexivity.
  - reflexivity.
  - apply list_elem_of_further, list_elem_of_here.
Defined.

End Instances.
